(** * recifind: the recipe extraction scripts

    A shallow embedding of [scripts/generate_recipe_dataset.py], of the
    meta-tag resolver and the file naming of
    [scripts/cache_source_preview_images.py], and of the slugs and the file
    extensions of [scripts/cache_recipe_images.py].

    Python strings are sequences of Unicode code points; a code point is a
    number of type [N] and a string a list of them.  Loops that move an
    index through a list are written as the code writes them, with the
    index in the loop state and every subscript checked. *)

From Stdlib Require Import List NArith Arith Bool Lia Sorted Permutation.
From Stdlib Require Ascii String DecimalString DecimalNat.
Import ListNotations Ascii.AsciiSyntax String.StringSyntax.
Delimit Scope char_scope with char.
Delimit Scope string_scope with string.

(** ** Strings *)

Definition char := N.
Definition str := list char.
Definition bytes := list N.

Definition ch (a : Ascii.ascii) : char := Ascii.N_of_ascii a.
Definition txt (s : String.string) : str :=
  map Ascii.N_of_ascii (String.list_ascii_of_string s).
Arguments ch _%_char.
Arguments txt _%_string.

Definition NL : char := 10%N.
Definition CR : char := 13%N.
Definition TAB : char := 9%N.
Definition BS : char := 8%N.
Definition FF : char := 12%N.
Definition QUOTE : char := 34%N.
Definition BACKSLASH : char := 92%N.

Definition str_eqb (a b : str) : bool :=
  if list_eq_dec N.eq_dec a b then true else false.

Definition mem (c : char) (s : str) : bool := existsb (N.eqb c) s.

(** the truth value of a string or of a list *)
Definition nonempty {A} (s : list A) : bool :=
  match s with [] => false | _ :: _ => true end.

Definition is_ascii (c : char) : bool := (c <? 128)%N.
Definition is_ascii_upper (c : char) : bool := ((65 <=? c) && (c <=? 90))%N.
Definition is_ascii_lower (c : char) : bool := ((97 <=? c) && (c <=? 122))%N.
Definition is_ascii_letter (c : char) : bool := is_ascii_upper c || is_ascii_lower c.
Definition is_ascii_digit (c : char) : bool := ((48 <=? c) && (c <=? 57))%N.
Definition ascii_lower (c : char) : char := if is_ascii_upper c then (c + 32)%N else c.

(** What the scripts take from the Unicode character database.  The
    functions below consult these tables on code points from 128 upwards
    only; on ASCII the behaviour is written out. *)
Record Tables := {
  (* str.lower(): the image of one character, given the characters before
     it (nearest first) and after it *)
  tbl_lower : str -> char -> str -> str;
  (* \d *)
  tbl_digit : char -> bool;
  (* \w *)
  tbl_word : char -> bool;
  (* re.IGNORECASE: does this character match that lower-case ASCII letter *)
  tbl_caseeq : char -> char -> bool;
  (* unicodedata.normalize("NFKD", _) *)
  tbl_nfkd : str -> str
}.

(** Tables that know no character beyond ASCII. *)
Definition ascii_tables : Tables :=
  {| tbl_lower := fun _ c _ => [c];
     tbl_digit := fun _ => false;
     tbl_word := fun _ => false;
     tbl_caseeq := fun _ _ => false;
     tbl_nfkd := fun s => s |}.

(** str.isspace() of one character, which is also \s of a str pattern. *)
Definition is_space (c : char) : bool :=
  (((9 <=? c) && (c <=? 13)) || ((28 <=? c) && (c <=? 32))
   || (c =? 133) || (c =? 160) || (c =? 5760)
   || ((8192 <=? c) && (c <=? 8202))
   || (c =? 8232) || (c =? 8233) || (c =? 8239) || (c =? 8287) || (c =? 12288))%N.

Fixpoint startswith (p s : str) : bool :=
  match p, s with
  | [], _ => true
  | _ :: _, [] => false
  | a :: p', b :: s' => (a =? b)%N && startswith p' s'
  end.

(** [sub in s] *)
Fixpoint contains (sub s : str) : bool :=
  startswith sub s || match s with [] => false | _ :: t => contains sub t end.

Fixpoint lstrip_by (p : char -> bool) (s : str) : str :=
  match s with
  | c :: t => if p c then lstrip_by p t else s
  | [] => []
  end.

Definition rstrip_by (p : char -> bool) (s : str) : str :=
  rev (lstrip_by p (rev s)).

Definition strip_by (p : char -> bool) (s : str) : str :=
  rstrip_by p (lstrip_by p s).

(** s.strip() *)
Definition strip (s : str) : str := strip_by is_space s.
(** s.strip(chars) *)
Definition strip_chars (chars s : str) : str := strip_by (fun c => mem c chars) s.
(** s.lstrip(chars) *)
Definition lstrip_chars (chars s : str) : str := lstrip_by (fun c => mem c chars) s.

(** s.split(sep) for a separator of one character *)
Fixpoint split (sep : char) (s : str) : list str :=
  match s with
  | [] => [[]]
  | c :: t =>
      if (c =? sep)%N then [] :: split sep t
      else match split sep t with
           | w :: ws => (c :: w) :: ws
           | [] => [[c]]
           end
  end.

(** s.replace(a, b) for single characters *)
Definition replace (a b : char) (s : str) : str :=
  map (fun c => if (c =? a)%N then b else c) s.

Fixpoint join (sep : str) (l : list str) : str :=
  match l with
  | [] => []
  | [x] => x
  | x :: t => x ++ sep ++ join sep t
  end.

(** The line boundaries of str.splitlines() *)
Definition is_linebreak (c : char) : bool :=
  (((10 <=? c) && (c <=? 13)) || ((28 <=? c) && (c <=? 30))
   || (c =? 133) || (c =? 8232) || (c =? 8233))%N.

(** s.splitlines(): [cur] is the line being read, in reverse *)
Fixpoint splitlines_from (cur : str) (s : str) : list str :=
  match s with
  | [] => match cur with [] => [] | _ => [rev cur] end
  | c :: t =>
      if is_linebreak c then
        rev cur :: match t with
                   | c2 :: t2 =>
                       if ((c =? CR) && (c2 =? NL))%N then splitlines_from [] t2
                       else splitlines_from [] t
                   | [] => []
                   end
      else splitlines_from (c :: cur) t
  end.

Definition splitlines (s : str) : list str := splitlines_from [] s.

Section WithTables.

Variable T : Tables.

(** s.lower() *)
Fixpoint lower_from (left : str) (s : str) : str :=
  match s with
  | [] => []
  | c :: t =>
      (if is_ascii c then [ascii_lower c] else tbl_lower T left c t)
      ++ lower_from (c :: left) t
  end.

Definition lower (s : str) : str := lower_from [] s.

(** to_ascii: NFKD, then encode("ascii", "ignore") *)
Definition to_ascii (text : str) : str := filter is_ascii (tbl_nfkd T text).

End WithTables.

(** Lexicographic order on strings by code point, and sorted() *)
Fixpoint str_leb (a b : str) : bool :=
  match a, b with
  | [], _ => true
  | _ :: _, [] => false
  | x :: a', y :: b' => (x <? y)%N || ((x =? y)%N && str_leb a' b')
  end.

Fixpoint insert_sorted (x : str) (l : list str) : list str :=
  match l with
  | [] => [x]
  | y :: t => if str_leb x y then x :: l else y :: insert_sorted x t
  end.

Definition sorted (l : list str) : list str := fold_right insert_sorted [] l.

(** A Python set of strings, as a list without repetition *)
Definition set_mem (x : str) (s : list str) : bool := existsb (str_eqb x) s.
Definition set_add (x : str) (s : list str) : list str :=
  if set_mem x s then s else s ++ [x].

(** ** Results, exceptions and loops *)

Inductive exn := IndexError | ValueError | OSError.

(** The outcome of running a piece of code: a value, an exception, or no
    answer within the steps allowed. *)
Inductive res (A : Type) : Type :=
| Ok (a : A)
| Raise (e : exn)
| Diverge.
Arguments Ok {A} a.
Arguments Raise {A} e.
Arguments Diverge {A}.

Definition bind {A B} (m : res A) (f : A -> res B) : res B :=
  match m with
  | Ok a => f a
  | Raise e => Raise e
  | Diverge => Diverge
  end.

Notation "x <- m ;; k" := (bind m (fun x => k))
  (at level 61, m at next level, right associativity).
Notation "' p <- m ;; k" := (bind m (fun x => let 'p := x in k))
  (at level 61, p pattern, m at next level, right associativity).

(** One turn of a [while] loop either goes round again or leaves. *)
Inductive flow (St : Type) : Type :=
| Continue (s : St)
| Break (s : St).
Arguments Continue {St} s.
Arguments Break {St} s.

Fixpoint loop {St : Type} (fuel : nat) (body : St -> res (flow St)) (s : St) : res St :=
  match fuel with
  | O => Diverge
  | S fuel' =>
      match body s with
      | Ok (Continue s') => loop fuel' body s'
      | Ok (Break s') => Ok s'
      | Raise e => Raise e
      | Diverge => Diverge
      end
  end.

(** xs[i] *)
Definition index {A} (xs : list A) (i : nat) : res A :=
  match nth_error xs i with
  | Some x => Ok x
  | None => Raise IndexError
  end.

(** chr(n) *)
Definition chr (n : N) : res char :=
  if (n <=? 1114111)%N then Ok n else Raise ValueError.

(** ** Regular expressions

    The patterns of the scripts, as syntax trees, and a backtracking matcher
    that tries alternatives in the order of Python's [re]: a greedy
    repetition takes as much as it can and gives back one character at a
    time, a lazy one takes as little as it can. *)

Inductive cls :=
| CChar (c : char)                       (* a literal character *)
| CDot                                   (* . *)
| CAny                                   (* . under re.DOTALL *)
| CSet (negated : bool) (items : str)    (* [...] and [^...] *)
| CDigit                                 (* \d *)
| CSpace.                                (* \s *)

Inductive regex :=
| Eps
| Chr (c : cls)
| Rep (c : cls) (lo : nat) (hi : option nat) (greedy : bool)   (* c{lo,hi} *)
| Cat (a b : regex)
| Alt (a b : regex)
| Opt (a : regex)                        (* (?:a)? *)
| Grp (n : nat) (a : regex)              (* the n-th capturing group *)
| Ref (n : nat)                          (* \n *)
| Bol                                    (* ^ *)
| Eol                                    (* $ *)
| Wordb.                                 (* \b *)

Definition seq (l : list regex) : regex := fold_right Cat Eps l.
(** a literal text, as re.escape and the pattern syntax give it *)
Definition lit (s : str) : regex := seq (map (fun c => Chr (CChar c)) s).
Definition alt (l : list regex) : regex :=
  match l with
  | [] => Eps
  | x :: t => fold_left Alt t x
  end.
Definition star (c : cls) : regex := Rep c 0 None true.
Definition plus (c : cls) : regex := Rep c 1 None true.
Definition lazy_star (c : cls) : regex := Rep c 0 None false.
Definition maybe (c : cls) : regex := Rep c 0 (Some 1) true.
Definition between (c : cls) (lo hi : nat) : regex := Rep c lo (Some hi) true.

(** A position in the subject: the text before it (nearest first), the text
    after it, the number of characters taken since the match began, and the
    groups captured so far. *)
Record cursor := {
  seen : str;
  rest : str;
  pos : nat;
  groups : list (nat * str)
}.

Fixpoint group_of (n : nat) (g : list (nat * str)) : option str :=
  match g with
  | [] => None
  | (m, s) :: g' => if (m =? n)%nat then Some s else group_of n g'
  end.

Section Matcher.

Variable T : Tables.
(** re.IGNORECASE *)
Variable icase : bool.

Definition is_digit (c : char) : bool :=
  if is_ascii c then is_ascii_digit c else tbl_digit T c.

Definition is_word (c : char) : bool :=
  if is_ascii c then is_ascii_letter c || is_ascii_digit c || (c =? 95)%N
  else tbl_word T c.

(** a literal of the pattern against a character of the subject *)
Definition lit_match (p c : char) : bool :=
  if icase && is_ascii_letter p then
    if is_ascii c then (ascii_lower c =? ascii_lower p)%N
    else tbl_caseeq T (ascii_lower p) c
  else (c =? p)%N.

Definition cls_match (k : cls) (c : char) : bool :=
  match k with
  | CChar p => lit_match p c
  | CDot => negb (c =? NL)%N
  | CAny => true
  | CSet negated items => xorb negated (existsb (fun p => lit_match p c) items)
  | CDigit => is_digit c
  | CSpace => is_space c
  end.

Definition below (hi : option nat) (n : nat) : bool :=
  match hi with
  | None => true
  | Some h => (n <? h)%nat
  end.

Definition step_over (cu : cursor) (x : char) (t : str) : cursor :=
  {| seen := x :: seen cu; rest := t; pos := S (pos cu); groups := groups cu |}.

(** [n] characters of the class have been taken and [cu] is where we are. *)
Fixpoint rep_loop (c : cls) (lo : nat) (hi : option nat) (greedy : bool)
    (k : cursor -> option cursor) (n : nat) (cu : cursor) (s : str)
    {struct s} : option cursor :=
  let here := {| seen := seen cu; rest := s; pos := pos cu; groups := groups cu |} in
  if greedy then
    match
      match s with
      | x :: t =>
          if below hi n && cls_match c x
          then rep_loop c lo hi greedy k (S n) (step_over here x t) t
          else None
      | [] => None
      end
    with
    | Some m => Some m
    | None => if (lo <=? n)%nat then k here else None
    end
  else
    match (if (lo <=? n)%nat then k here else None) with
    | Some m => Some m
    | None =>
        match s with
        | x :: t =>
            if below hi n && cls_match c x
            then rep_loop c lo hi greedy k (S n) (step_over here x t) t
            else None
        | [] => None
        end
    end.

(** the text of the subject between two cursors *)
Definition between_cursors (a b : cursor) : str :=
  firstn (pos b - pos a) (rest a).

Fixpoint match_text (g : str) (cu : cursor) : option cursor :=
  match g with
  | [] => Some cu
  | p :: g' =>
      match rest cu with
      | x :: t => if lit_match p x then match_text g' (step_over cu x t) else None
      | [] => None
      end
  end.

Definition at_word_boundary (cu : cursor) : bool :=
  xorb (match seen cu with x :: _ => is_word x | [] => false end)
       (match rest cu with x :: _ => is_word x | [] => false end).

Fixpoint rmatch (r : regex) (cu : cursor) (k : cursor -> option cursor)
    {struct r} : option cursor :=
  match r with
  | Eps => k cu
  | Chr c =>
      match rest cu with
      | x :: t => if cls_match c x then k (step_over cu x t) else None
      | [] => None
      end
  | Rep c lo hi greedy => rep_loop c lo hi greedy k 0 cu (rest cu)
  | Cat a b => rmatch a cu (fun cu' => rmatch b cu' k)
  | Alt a b =>
      match rmatch a cu k with
      | Some m => Some m
      | None => rmatch b cu k
      end
  | Opt a =>
      match rmatch a cu k with
      | Some m => Some m
      | None => k cu
      end
  | Grp n a =>
      rmatch a cu (fun cu' =>
        k {| seen := seen cu'; rest := rest cu'; pos := pos cu';
             groups := (n, between_cursors cu cu') :: groups cu' |})
  | Ref n =>
      match group_of n (groups cu) with
      | Some g => match match_text g cu with Some cu' => k cu' | None => None end
      | None => None
      end
  | Bol => match seen cu with [] => k cu | _ :: _ => None end
  | Eol =>
      match rest cu with
      | [] => k cu
      | x :: [] => if (x =? NL)%N then k cu else None
      | _ :: _ :: _ => None
      end
  | Wordb => if at_word_boundary cu then k cu else None
  end.

(** A match object: where it starts, group(0), the numbered groups, and
    the text before and after the end of the match. *)
Record found := {
  m_start : nat;
  m_text : str;
  m_groups : list (nat * str);
  m_seen : str;
  m_rest : str
}.

Definition group (m : found) (n : nat) : str :=
  match n with
  | O => m_text m
  | _ => match group_of n (m_groups m) with Some g => g | None => [] end
  end.

(** A match that starts at offset [p], where [sn] is the text before (nearest
    first) and [s] the text after; the matcher counts from the start of the
    match. *)
Definition match_at (r : regex) (sn : str) (p : nat) (s : str) : option found :=
  match rmatch r {| seen := sn; rest := s; pos := 0; groups := [] |}
          (fun e => Some e) with
  | Some e =>
      Some {| m_start := p; m_text := firstn (pos e) s; m_groups := groups e;
              m_seen := seen e; m_rest := rest e |}
  | None => None
  end.

(** re.match(r, s) *)
Definition re_match (r : regex) (s : str) : option found := match_at r [] 0 s.

(** the leftmost match at or after an offset *)
Fixpoint search_from (r : regex) (sn : str) (p : nat) (s : str) {struct s}
    : option found :=
  match match_at r sn p s with
  | Some m => Some m
  | None =>
      match s with
      | [] => None
      | x :: t => search_from r (x :: sn) (S p) t
      end
  end.

(** re.search(r, s) *)
Definition re_search (r : regex) (s : str) : option found := search_from r [] 0 s.

(** re.finditer(r, s).  After a match the search goes on where the match
    ended; after an empty match it moves one character on. *)
Fixpoint finditer_from (fuel : nat) (r : regex) (sn : str) (p : nat) (s : str)
    : list found :=
  match fuel with
  | O => []
  | S fuel' =>
      match search_from r sn p s with
      | None => []
      | Some m =>
          let p' := m_start m + length (m_text m) in
          m :: (if nonempty (m_text m)
                then finditer_from fuel' r (m_seen m) p' (m_rest m)
                else match m_rest m with
                     | x :: t => finditer_from fuel' r (x :: m_seen m) (S p') t
                     | [] => []
                     end)
      end
  end.

Definition re_finditer (r : regex) (s : str) : list found :=
  finditer_from (S (length s)) r [] 0 s.

(** re.findall(r, s) for a pattern with one group *)
Definition re_findall (r : regex) (s : str) : list str :=
  map (fun m => group m 1) (re_finditer r s).

End Matcher.

(** ** What the scripts call outside themselves *)

Record ParseResult := {
  scheme : str;
  netloc : str;
  path : str;
  params : str;
  query : str;
  fragment : str
}.

Record Extern := {
  (* html.unescape *)
  ext_unescape : str -> str;
  (* urllib.parse.urlparse; None when it raises *)
  ext_urlparse : str -> option ParseResult;
  (* urllib.parse.urlunparse *)
  ext_urlunparse : ParseResult -> str;
  (* urllib.parse.urljoin; None when it raises (a ValueError) *)
  ext_urljoin : str -> str -> option str;
  (* zlib.decompress; None when it raises *)
  ext_decompress : bytes -> option bytes;
  (* subprocess.run(["curl", "-sL", url], ...) for the idx-th item of a run:
     the return code and the standard output decoded as UTF-8; or the
     exception that subprocess.run raises, a ValueError for a URL that holds
     U+0000 and an OSError when the process cannot be started; or no answer,
     when curl does not end *)
  ext_curl : nat -> str -> res (nat * str)
}.

(** ** generate_recipe_dataset.py: the keyword tables *)

Definition INGREDIENT_KEYWORDS : list str :=
  map txt ["you need"; "ingredients"; "ingredient list"; "what you need";
           "here's what you need"; "you will need"; "shopping list";
           "for the salad"; "for the dressing"; "for the sauce";
           "for the marinade"]%string.

Definition INGREDIENT_STOPWORDS : list str :=
  map txt ["how"; "method"; "instructions"; "directions"; "steps"; "prep";
           "preparation"; "makes"; "serves"; "macros"; "calories"; "enjoy";
           "note"; "notes"; "tip"; "tips"; "storage"; "cook"; "bake"; "fry";
           "to make"]%string.

Definition INSTRUCTION_KEYWORDS : list str :=
  map txt ["how"; "instructions"; "method"; "directions"; "steps"; "to make";
           "prep"; "preparation"; "cook"; "bake"; "finish"]%string.

Definition INSTRUCTION_TERMINATORS : list str :=
  map txt ["serves"; "macros"; "calories"; "enjoy"; "notes"; "note"; "tag";
           "share"]%string.

Definition MEASUREMENT_TOKENS : list str :=
  map txt ["cup"; "cups"; "tsp"; "teaspoon"; "teaspoons"; "tbsp"; "tablespoon";
           "tablespoons"; "g"; "gram"; "grams"; "kg"; "ml"; "l"; "oz"; "lb";
           "lbs"; "clove"; "cloves"; "slice"; "slices"; "sprig"; "sprigs";
           "bunch"; "handful"; "packet"; "pack"; "package"; "can"; "tin";
           "fillet"; "fillets"; "stick"; "sticks"]%string.

(** \b(cup|cups|...)\b *)
Definition MEASUREMENT_PATTERN : regex :=
  seq [Wordb; Grp 1 (alt (map lit MEASUREMENT_TOKENS)); Wordb].

Definition MEAT_KEYWORDS : list str :=
  map txt ["beef"; "chicken"; "turkey"; "pork"; "lamb"; "mutton"; "bacon";
           "ham"; "sausage"; "duck"; "veal"; "prosciutto"; "salami";
           "anchovy"; "anchovies"; "tuna"; "salmon"; "cod"; "trout"; "shrimp";
           "prawn"; "prawns"; "lobster"; "crab"; "clam"; "clams"; "mussel";
           "mussels"; "octopus"; "squid"; "calamari"; "fish"; "seafood";
           "oxtail"; "short rib"; "short ribs"; "steak"]%string.

Definition BREAKFAST_KEYWORDS : list str :=
  map txt ["breakfast"; "brunch"; "pancake"; "oat"; "granola"; "smoothie bowl";
           "overnight oats"; "toast"; "waffle"; "frittata"; "egg muffin";
           "omelette"; "bagel"]%string.

Definition DESSERT_KEYWORDS : list str :=
  map txt ["cake"; "brownie"; "dessert"; "cookie"; "tart"; "pie"; "ice cream";
           "pudding"; "cheesecake"; "cupcake"; "mousse"; "custard"; "sorbet";
           "lava cake"; "sweet roll"; "pastry"; "crepe"; "donut";
           "banana bread"]%string.

Definition DRINK_KEYWORDS : list str :=
  map txt ["sangria"; "cocktail"; "mocktail"; "smoothie"; "latte"; "tea";
           "lemonade"; "juice"; "spritz"; "punch"; "margarita"; "mojito";
           "paloma"]%string.

(** The two dictionaries, in the order of their keys *)
Definition MEAL_KEYWORDS : list (str * list str) :=
  [ (txt "lunch", map txt ["lunch"; "snack"; "nibbles"; "bites"]%string);
    (txt "dinner", map txt ["dinner"]%string);
    (txt "brunch", map txt ["brunch"]%string) ].

Definition COURSE_KEYWORDS : list (str * list str) :=
  [ (txt "soup", map txt ["soup"; "ramen"; "pho"; "bisque"]%string);
    (txt "salad", map txt ["salad"]%string);
    (txt "pasta", map txt ["pasta"; "spaghetti"; "lasagna"; "tagliatelle";
                           "penne"; "pappardelle"; "mac"]%string);
    (txt "noodles", map txt ["noodle"; "udon"; "lo mein"; "pad thai";
                             "yakisoba"]%string);
    (txt "stew", map txt ["stew"; "braise"]%string);
    (txt "curry", map txt ["curry"]%string);
    (txt "stir-fry", map txt ["stir fry"; "stir-fry"]%string);
    (txt "bowl", map txt ["bowl"]%string);
    (txt "sandwich", map txt ["sandwich"; "wrap"; "burger"]%string);
    (txt "rice", map txt ["rice"; "risotto"; "paella"; "pilaf"]%string);
    (txt "pizza", map txt ["pizza"; "flatbread"]%string);
    (txt "tacos", map txt ["taco"]%string);
    (txt "appetizer", map txt ["appetizer"; "starter"; "bites"]%string) ].

Definition ROAST_WORDS : list str :=
  map txt ["roast"; "sheet pan"; "tray bake"; "roasted"]%string.
Definition GRILL_WORDS : list str :=
  map txt ["grill"; "grilled"; "bbq"; "barbecue"]%string.

(** ** decode_pdf_string *)

Definition OCTAL : str := txt "01234567".

(** int(s, 8) on a text of octal digits; anything else is a ValueError here *)
Definition int_base8 (s : str) : res N :=
  match s with
  | [] => Raise ValueError
  | _ =>
      fold_left
        (fun acc d =>
           n <- acc ;;
           if mem d OCTAL then Ok (n * 8 + (d - 48))%N else Raise ValueError)
        s (Ok 0%N)
  end.

(** The inner loop: [while j < 3 and i + j < len(data) and data[i + j] in
    "01234567"], on the state (j, oct_digits) *)
Definition octal_step (data : str) (i : nat) (st : nat * str)
    : res (flow (nat * str)) :=
  let '(j, oct_digits) := st in
  if (j <? 3) && (i + j <? length data) then
    d <- index data (i + j) ;;
    if mem d OCTAL then Ok (Continue (j + 1, oct_digits ++ [d]))
    else Ok (Break st)
  else Ok (Break st).

(** One turn of [while i < len(data)], on the state (i, out) *)
Definition decode_step (data : str) (st : nat * str) : res (flow (nat * str)) :=
  let '(i, out) := st in
  if i <? length data then
    c <- index data i ;;
    if (c =? BACKSLASH)%N then
      let i := i + 1 in
      if length data <=? i then Ok (Break (i, out))
      else
        esc <- index data i ;;
        if mem esc [ch "("; ch ")"; BACKSLASH] then Ok (Continue (i + 1, out ++ [esc]))
        else if (esc =? ch "n")%N then Ok (Continue (i + 1, out ++ [NL]))
        else if (esc =? ch "r")%N then Ok (Continue (i + 1, out ++ [CR]))
        else if (esc =? ch "t")%N then Ok (Continue (i + 1, out ++ [TAB]))
        else if (esc =? ch "b")%N then Ok (Continue (i + 1, out ++ [BS]))
        else if (esc =? ch "f")%N then Ok (Continue (i + 1, out ++ [FF]))
        else if mem esc OCTAL then
          ' (j, oct_digits) <- loop 3 (octal_step data i) (1, [esc]) ;;
          let i := i + (j - 1) in
          n <- int_base8 oct_digits ;;
          c <- chr n ;;
          Ok (Continue (i + 1, out ++ [c]))
        else Ok (Continue (i + 1, out ++ [esc]))
    else Ok (Continue (i + 1, out ++ [c]))
  else Ok (Break st).

Definition decode_pdf_string (data : str) : res str :=
  ' (_, out) <- loop (S (length data)) (decode_step data) (0, []) ;;
  Ok out.

(** ** parse_pdf_pairs *)

Fixpoint map_res {A B} (f : A -> res B) (l : list A) : res (list B) :=
  match l with
  | [] => Ok []
  | x :: t => y <- f x ;; ys <- map_res f t ;; Ok (y :: ys)
  end.

(** stream\r?\n(.*?)endstream, a bytes pattern under re.DOTALL *)
Definition STREAM_RE : regex :=
  seq [lit (txt "stream"); maybe (CChar CR); Chr (CChar NL);
       Grp 1 (lazy_star CAny); lit (txt "endstream")].

(** \[(.*?)\]\s*TJ under re.DOTALL *)
Definition TJ_ARRAY_RE : regex :=
  seq [lit (txt "["); Grp 1 (lazy_star CAny); lit (txt "]"); star CSpace;
       lit (txt "TJ")].

(** \((.*?)\) *)
Definition LITERAL_RE : regex :=
  seq [lit (txt "("); Grp 1 (lazy_star CDot); lit (txt ")")].

(** \((.*?)\)\s*Tj *)
Definition TJ_STRING_RE : regex :=
  seq [lit (txt "("); Grp 1 (lazy_star CDot); lit (txt ")"); star CSpace;
       lit (txt "Tj")].

(** \d{1,2}/\d{1,2}/\d{2} *)
Definition DATE_RE : regex :=
  seq [between CDigit 1 2; lit (txt "/"); between CDigit 1 2; lit (txt "/");
       between CDigit 2 2].

(** \d{1,2}:\d{2} *)
Definition TIME_RE : regex :=
  seq [between CDigit 1 2; lit (txt ":"); between CDigit 2 2].

Definition is_some {A} (o : option A) : bool :=
  match o with Some _ => true | None => false end.

(** bytes.decode("latin-1", errors="ignore"): every byte is the code point
    of the same number *)
Definition decode_latin1 (b : bytes) : str := b.

Section Dataset.

Variable T : Tables.
Variable X : Extern.

(** keyword_in_text *)
Definition keyword_in_text (text keyword : str) : bool :=
  if contains (txt " ") keyword then contains keyword text
  else is_some (re_search T false
                  (seq [Wordb; lit keyword; maybe (CChar (ch "s")); Wordb]) text).

(** What is kept of the region between stream and endstream (lines
    312-317): decompressed when zlib can, as it is when zlib raises *)
Definition stream_content (region : bytes) : str :=
  let stream_data := lstrip_chars [CR; NL] region in
  let stream_data :=
    match ext_decompress X stream_data with
    | Some d => d
    | None => stream_data
    end in
  decode_latin1 stream_data.

(** The streams of the document (lines 309-317) *)
Definition read_streams (raw : bytes) : list str :=
  map (fun m => stream_content (group m 1))
      (re_finditer ascii_tables false STREAM_RE raw).

(** The text runs of one stream (lines 320-329) *)
Definition stream_texts (content : str) : res (list str) :=
  arrays <- map_res (fun array =>
              parts <- map_res decode_pdf_string (re_findall T false LITERAL_RE array) ;;
              Ok (concat parts))
            (re_findall T false TJ_ARRAY_RE content) ;;
  strings <- map_res decode_pdf_string (re_findall T false TJ_STRING_RE content) ;;
  Ok (filter (fun text => nonempty (strip text)) arrays
      ++ filter (fun text => nonempty (strip text)) strings).

Definition read_texts (streams : list str) : res (list str) :=
  per_stream <- map_res stream_texts streams ;;
  Ok (concat per_stream).

(** Lines 309-329: the text runs of a document *)
Definition tokenize (raw : bytes) : res (list str) :=
  read_texts (read_streams raw).

(** The trimmed, non-empty lines of the text runs (lines 331-336) *)
Definition text_lines (texts : list str) : list str :=
  flat_map (fun text =>
              filter nonempty (map strip (split NL text))) texts.

Definition is_datetime (line : str) : bool :=
  is_some (re_match T false DATE_RE line) || is_some (re_match T false TIME_RE line).

(** The inner loop of the pairer (lines 354-365), on the state (j, url) *)
Definition url_step (lines : list str) (st : nat * str) : res (flow (nat * str)) :=
  let '(j, url) := st in
  if j <? length lines then
    nxt <- index lines j ;;
    if startswith (txt "https://") nxt then Ok (Break st)
    else if contains (txt " ") nxt then Ok (Break st)
    else if startswith (txt "page ") (lower T nxt) then Ok (Break st)
    else if is_datetime nxt then Ok (Break st)
    else Ok (Continue (j + 1, url ++ nxt))
  else Ok (Break st).

Record pairer_state := {
  p_i : nat;
  p_title : option str;
  p_pairs : list (str * str)
}.

(** The running header and footer lines that the main loop looks for
    first: the label of the document and the page label (line 344) *)
Definition is_label (line : str) : bool :=
  let lower := lower T line in
  str_eqb lower (txt "recipies") || str_eqb lower (txt "recipes")
  || startswith (txt "page ") lower.

(** One turn of the main loop of the pairer (lines 341-373) *)
Definition pair_step (lines : list str) (st : pairer_state)
    : res (flow pairer_state) :=
  let i := p_i st in
  if i <? length lines then
    line <- index lines i ;;
    if is_label line then
      Ok (Continue {| p_i := i + 1; p_title := None; p_pairs := p_pairs st |})
    else if is_datetime line then
      Ok (Continue {| p_i := i + 1; p_title := p_title st; p_pairs := p_pairs st |})
    else if startswith (txt "https://") line then
      ' (j, url) <- loop (S (length lines)) (url_step lines) (i + 1, line) ;;
      match p_title st with
      | Some title =>
          if nonempty title && nonempty url then
            Ok (Continue {| p_i := j; p_title := None;
                            p_pairs := p_pairs st ++ [(title, url)] |})
          else Ok (Continue {| p_i := j; p_title := Some title; p_pairs := p_pairs st |})
      | None => Ok (Continue {| p_i := j; p_title := None; p_pairs := p_pairs st |})
      end
    else
      Ok (Continue {| p_i := i + 1; p_title := Some line; p_pairs := p_pairs st |})
  else Ok (Break st).

(** The main loop, entered with a title pending or with none *)
Definition pair_lines_from (title : option str) (lines : list str)
    : res (list (str * str)) :=
  st <- loop (S (length lines)) (pair_step lines)
          {| p_i := 0; p_title := title; p_pairs := [] |} ;;
  Ok (p_pairs st).

(** Lines 338-374: the pairs of a list of lines *)
Definition pair_lines (lines : list str) : res (list (str * str)) :=
  pair_lines_from None lines.

(** The noise lines of the pairer: labels, dates and times *)
Definition is_noise (line : str) : bool := is_label line || is_datetime line.

(** parse_pdf_pairs, on the bytes read from the file *)
Definition parse_pdf_pairs (raw : bytes) : res (list (str * str)) :=
  texts <- tokenize raw ;;
  pair_lines (text_lines texts).

(** ** extract_meta_value *)

Definition QUOTES : cls := CSet false [QUOTE; ch "'"].

(** META_PATTERN_TEMPLATE with the property name filled in; the script
    compiles it with re.IGNORECASE | re.DOTALL *)
Definition META_PATTERN (property : str) : regex :=
  seq [lit (txt "<meta"); plus CSpace; star (CSet true (txt ">"));
       lit (txt "property="); Grp 1 (Chr QUOTES); lit property; Ref 1;
       star (CSet true (txt ">")); lit (txt "content="); Grp 2 (Chr QUOTES);
       Grp 3 (lazy_star CAny); Ref 2].

Definition extract_meta_value (html_text property_name : str) : option str :=
  match re_search T true (META_PATTERN property_name) html_text with
  | None => None
  | Some m => Some (ext_unescape X (group m 3))
  end.

(** ** The segmenter *)

Definition prepare_lines (description : str) : list str :=
  let text := replace CR NL description in
  let raw_lines := map strip (split NL text) in
  fold_left
    (fun lines line =>
       if negb (nonempty line) then lines
       else match last (map Some lines) None with
            | Some prev => if str_eqb prev line then lines else lines ++ [line]
            | None => lines ++ [line]
            end)
    raw_lines [].

(** ^[0-9]+[).] *)
Definition NUMBERED_RE : regex :=
  seq [Bol; plus (CSet false (txt "0123456789")); Chr (CSet false (txt ").") )].

(** ^[\-•–—]\s*(.+)$ *)
Definition BULLET_RE : regex :=
  seq [Bol; Chr (CSet false [ch "-"; 8226; 8211; 8212]%N); star CSpace;
       Grp 1 (plus CDot); Eol].

(** (ingredients[^:]*:)(.+) under re.IGNORECASE | re.DOTALL *)
Definition FALLBACK_RE : regex :=
  seq [Grp 1 (seq [lit (txt "ingredients"); star (CSet true (txt ":"));
                   lit (txt ":")]);
       Grp 2 (plus CAny)].

(** The pattern of line 523, under re.IGNORECASE: from the start, an
    optional "step" with white space after it, digits (group 1), at most one
    of the characters ).:- , white space, and the rest of the line, which
    is not empty (group 2) *)
Definition STEP_RE : regex :=
  seq [Bol; Opt (seq [lit (txt "step"); star CSpace]); Grp 1 (plus CDigit);
       maybe (CSet false (txt ").:-")); star CSpace; Grp 2 (plus CDot); Eol].

Definition INGREDIENT_PREFIXES : list str :=
  map txt ["optional toppings"; "optional:"; "toppings"; "garnish";
           "for the"]%string.

(** The first loop of extract_ingredients_section: the index after the
    first line that holds an ingredient keyword, or 0 *)
Fixpoint find_start (idx : nat) (lines : list str) : nat :=
  match lines with
  | [] => 0
  | line :: t =>
      if existsb (fun keyword => contains keyword (lower T line)) INGREDIENT_KEYWORDS
      then idx + 1
      else find_start (idx + 1) t
  end.

(** One turn of the scan for ingredients, on the state (i, ingredients) *)
Definition ingredient_step (lines : list str) (st : nat * list str)
    : res (flow (nat * list str)) :=
  let '(i, ingredients) := st in
  if i <? length lines then
    line <- index lines i ;;
    let lower := lower T line in
    if startswith (txt "#") lower || startswith (txt "http") lower then
      if nonempty ingredients then Ok (Break st)
      else Ok (Continue (i + 1, ingredients))
    else if existsb (fun stop => startswith stop lower || str_eqb lower stop)
              INGREDIENT_STOPWORDS then
      if nonempty ingredients then Ok (Break st)
      else Ok (Continue (i + 1, ingredients))
    else if is_some (re_match T false NUMBERED_RE line) && nonempty ingredients then
      Ok (Break st)
    else
      match re_match T false BULLET_RE line with
      | Some bullet => Ok (Continue (i + 1, ingredients ++ [strip (group bullet 1)]))
      | None =>
          if existsb (fun prefix => startswith prefix lower) INGREDIENT_PREFIXES then
            Ok (Continue (i + 1, ingredients ++ [line]))
          else if is_some (re_search T false MEASUREMENT_PATTERN lower)
                  || is_some (re_search T false (Chr CDigit) line) then
            Ok (Continue (i + 1, ingredients ++ [line]))
          else if nonempty ingredients then Ok (Break st)
          else Ok (Continue (i + 1, ingredients))
      end
  else Ok (Break st).

Definition extract_ingredients_section (lines : list str) : res (list str * nat) :=
  let start_idx := find_start 0 lines in
  ' (i, ingredients) <- loop (S (length lines)) (ingredient_step lines) (start_idx, []) ;;
  if nonempty ingredients then Ok (ingredients, i)
  else
    match re_search T true FALLBACK_RE (join [NL] lines) with
    | Some fallback_match =>
        rest <- index (split NL (group fallback_match 2)) 0 ;;
        let tokens :=
          filter nonempty (map (strip_chars (txt " .;-")) (split (ch ",") rest)) in
        if nonempty tokens then Ok (tokens, start_idx) else Ok ([], start_idx)
    | None => Ok ([], start_idx)
    end.

(** steps[-1] = value *)
Definition set_last (steps : list str) (value : str) : res (list str) :=
  match steps with
  | [] => Raise IndexError
  | _ :: _ => Ok (removelast steps ++ [value])
  end.

(** steps[-1] *)
Definition get_last (steps : list str) : res str :=
  match steps with
  | [] => Raise IndexError
  | x :: t => Ok (last t x)
  end.

(** One turn of the scan for steps, on the state (i, steps) *)
Definition steps_step (lines : list str) (st : nat * list str)
    : res (flow (nat * list str)) :=
  let '(i, steps) := st in
  if i <? length lines then
    line <- index lines i ;;
    let lower := lower T line in
    if startswith (txt "#") lower || startswith (txt "http") lower then Ok (Break st)
    else if existsb (fun term => contains term lower) INSTRUCTION_TERMINATORS
            && nonempty steps then Ok (Break st)
    else if existsb (fun keyword => contains keyword lower) INSTRUCTION_KEYWORDS
            && negb (is_some (re_match T false NUMBERED_RE line)) then
      Ok (Continue (i + 1, steps))
    else
      match re_match T true STEP_RE line with
      | Some numeric => Ok (Continue (i + 1, steps ++ [strip (group numeric 2)]))
      | None =>
          match (if nonempty steps then re_match T false BULLET_RE line else None) with
          | Some bullet => Ok (Continue (i + 1, steps ++ [strip (group bullet 1)]))
          | None =>
              if nonempty steps then
                prev <- get_last steps ;;
                steps' <- set_last steps (strip (prev ++ txt " " ++ line)) ;;
                Ok (Continue (i + 1, steps'))
              else Ok (Continue (i + 1, steps))
          end
      end
  else Ok (Break st).

Definition extract_steps_section (lines : list str) (start_idx : nat) : res (list str) :=
  ' (_, steps) <- loop (S (length lines)) (steps_step lines) (start_idx, []) ;;
  Ok steps.

Definition extract_recipe_content (description : str) : res (list str * list str) :=
  let lines := prepare_lines description in
  ' (ingredients, idx) <- extract_ingredients_section lines ;;
  steps <- extract_steps_section lines idx ;;
  Ok (ingredients, steps).

(** ** The classifier *)

(** [for tag, keywords in table.items(): if any(...): tags.add(tag)] *)
Definition add_matching (text : str) (table : list (str * list str))
    (tags : list str) : list str :=
  fold_left
    (fun tags entry =>
       if existsb (keyword_in_text text) (snd entry) then set_add (fst entry) tags
       else tags)
    table tags.

(** [if cond: tags.add(tag)] *)
Definition add_if (cond : bool) (tag : str) (tags : list str) : list str :=
  if cond then set_add tag tags else tags.

(** f"{title} {' '.join(ingredients)}".lower() *)
Definition blob (title : str) (ingredients : list str) : str :=
  lower T (title ++ txt " " ++ join (txt " ") ingredients).

Definition meat_present (text : str) : bool :=
  existsb (keyword_in_text text) MEAT_KEYWORDS.

Definition infer_tags (title : str) (ingredients : list str) : list str :=
  let text := blob title ingredients in
  let tags := [] in
  let tags := add_matching text MEAL_KEYWORDS tags in
  let tags := add_if (existsb (keyword_in_text text) BREAKFAST_KEYWORDS)
                (txt "breakfast") tags in
  let tags := add_if (existsb (keyword_in_text text) DESSERT_KEYWORDS)
                (txt "dessert") tags in
  let tags := add_if (existsb (keyword_in_text text) DRINK_KEYWORDS)
                (txt "drink") tags in
  let tags := add_matching text COURSE_KEYWORDS tags in
  let tags := add_if (existsb (keyword_in_text text) ROAST_WORDS) (txt "roast") tags in
  let tags := add_if (existsb (keyword_in_text text) GRILL_WORDS) (txt "grill") tags in
  let tags := add_if (negb (meat_present text)) (txt "vegetarian") tags in
  let tags := add_if (keyword_in_text text (txt "vegan")) (txt "vegan") tags in
  sorted tags.

(** The meal types found before the fallback (lines 591-599) *)
Definition explicit_meal_types (text : str) (lowered_tags : list str) : list str :=
  let meal_types := [] in
  let meal_types :=
    add_if (set_mem (txt "breakfast") lowered_tags
            || keyword_in_text text (txt "breakfast")) (txt "breakfast") meal_types in
  let meal_types :=
    add_if (set_mem (txt "brunch") lowered_tags
            || keyword_in_text text (txt "brunch")) (txt "brunch") meal_types in
  let meal_types :=
    add_if (set_mem (txt "dessert") lowered_tags
            || keyword_in_text text (txt "dessert")) (txt "dessert") meal_types in
  add_matching text MEAL_KEYWORDS meal_types.

(** {tag.lower() for tag in tags} *)
Definition lowered (tags : list str) : list str :=
  fold_left (fun s tag => set_add (lower T tag) s) tags [].

Definition infer_meal_types (title : str) (ingredients : list str)
    (tags : list str) : list str :=
  let text := blob title ingredients in
  let lowered_tags := lowered tags in
  let meal_types := explicit_meal_types text lowered_tags in
  let meal_types :=
    if negb (nonempty meal_types) then
      if set_mem (txt "salad") lowered_tags || keyword_in_text text (txt "salad")
      then set_add (txt "lunch") meal_types
      else if set_mem (txt "soup") lowered_tags || keyword_in_text text (txt "soup")
      then set_add (txt "dinner") meal_types
      else if set_mem (txt "dessert") lowered_tags
      then set_add (txt "dessert") meal_types
      else set_add (txt "dinner") meal_types
    else meal_types in
  sorted meal_types.

(** A keyword between word boundaries, with an optional plural s: the
    second branch of keyword_in_text, for any keyword *)
Definition word_boundary_match (text keyword : str) : bool :=
  is_some (re_search T false
             (seq [Wordb; lit keyword; maybe (CChar (ch "s")); Wordb]) text).

(** ** normalize_instagram_url *)

(** segments.index(x) *)
Fixpoint index_of (x : str) (segments : list str) : nat :=
  match segments with
  | [] => 0
  | y :: t => if str_eqb y x then 0 else S (index_of x t)
  end.

(** The shortcode that follows the segment [kind], when there is one *)
Definition shortcode_after (kind : str) (segments : list str)
    : res (option (str * str)) :=
  let idx := index_of kind segments in
  if idx + 1 <? length segments then
    shortcode <- index segments (idx + 1) ;;
    Ok (Some (kind, shortcode))
  else Ok None.

Definition normalize_instagram_url (url : str) : res str :=
  match ext_urlparse X url with
  | None => Ok url
  | Some parsed =>
      let segments := filter nonempty (split (ch "/") (path parsed)) in
      found <-
        (if set_mem (txt "reel") segments then shortcode_after (txt "reel") segments
         else if set_mem (txt "p") segments then shortcode_after (txt "p") segments
         else Ok None) ;;
      match found with
      | Some (content_type, shortcode) =>
          if nonempty content_type && nonempty shortcode then
            Ok (txt "https://www.instagram.com/" ++ content_type ++ txt "/"
                ++ shortcode ++ txt "/")
          else
            Ok (ext_urlunparse X
                  {| scheme := scheme parsed; netloc := netloc parsed;
                     path := path parsed; params := params parsed;
                     query := []; fragment := [] |})
      | None =>
          Ok (ext_urlunparse X
                {| scheme := scheme parsed; netloc := netloc parsed;
                   path := path parsed; params := params parsed;
                   query := []; fragment := [] |})
      end
  end.

(** ** The assembler: the loop of main *)

(** fetch_html, for the idx-th item; what subprocess.run raises is not
    caught *)
Definition fetch_html (idx : nat) (url : str) : res (option str) :=
  ' (returncode, stdout) <- ext_curl X idx url ;;
  if negb (returncode =? 0) then Ok None else Ok (Some stdout).

Inductive reason := fetch_failed | no_description | no_image.

Record FailureRecord := {
  f_title : str;
  f_url : str;
  f_reason : reason
}.

(** An entry of the output; a key that the script may leave out is an
    optional field *)
Record RecipeDraft := {
  title : str;
  sourceUrl : str;
  imageUrl : str;
  ingredients : list str;
  steps : option (list str);
  tags : option (list str);
  mealTypes : option (list str);
  notes : option str;
  descriptionPreview : option str
}.

(** the truth value of a value that may be None *)
Definition truthy (o : option str) : bool :=
  match o with
  | Some s => nonempty s
  | None => false
  end.

(** [a or b] *)
Definition or_else (a b : option str) : option str :=
  if truthy a then a else b.

Definition when_nonempty {A} (l : list A) : option (list A) :=
  if nonempty l then Some l else None.

Definition NOTE : str := txt "Ingredients not detected automatically.".

(** to_ascii(" ".join(description.splitlines()[:4]))[:280] *)
Definition preview_of (description : str) : str :=
  firstn 280 (to_ascii T (join (txt " ") (firstn 4 (splitlines description)))).

(** Lines 639-663: the entry of an item whose page gave a description and
    an image *)
Definition build_entry (title0 url description image_url : str)
    (og_url : option str) : res RecipeDraft :=
  canonical_url <-
    normalize_instagram_url (match or_else og_url (Some url) with
                             | Some u => u
                             | None => url
                             end) ;;
  ' (ingredients0, steps0) <- extract_recipe_content description ;;
  let ascii_title := to_ascii T title0 in
  let ascii_ingredients := map (to_ascii T) ingredients0 in
  let ascii_image := to_ascii T image_url in
  let ascii_steps := map (to_ascii T) steps0 in
  let ascii_source := to_ascii T canonical_url in
  let inferred_tags := infer_tags title0 ingredients0 in
  let ascii_tags := map (to_ascii T) inferred_tags in
  let ascii_meal_types :=
    map (to_ascii T) (infer_meal_types title0 ingredients0 inferred_tags) in
  Ok {| title := ascii_title;
        sourceUrl := ascii_source;
        imageUrl := ascii_image;
        ingredients := ascii_ingredients;
        steps := when_nonempty ascii_steps;
        tags := when_nonempty ascii_tags;
        mealTypes := when_nonempty ascii_meal_types;
        notes := if negb (nonempty ascii_ingredients) then Some NOTE else None;
        descriptionPreview :=
          if negb (nonempty ascii_ingredients) then Some (preview_of description)
          else None |}.

(** The body of the loop (lines 623-664): an entry for [results] or a
    record for [failures] *)
Definition process_item (idx : nat) (item : str * str)
    : res (RecipeDraft + FailureRecord) :=
  let '(title0, url) := item in
  let failure r := Ok (inr {| f_title := title0; f_url := url; f_reason := r |}) in
  html_text <- fetch_html idx url ;;
  if negb (truthy html_text) then failure fetch_failed
  else
    let html_text := match html_text with Some h => h | None => [] end in
    let description := extract_meta_value html_text (txt "og:description") in
    if negb (truthy description) then failure no_description
    else
      let description := match description with Some d => d | None => [] end in
      let image_url :=
        or_else (extract_meta_value html_text (txt "og:image"))
                (extract_meta_value html_text (txt "og:image:secure_url")) in
      if negb (truthy image_url) then failure no_image
      else
        let image_url := match image_url with Some u => u | None => [] end in
        entry <- build_entry title0 url description image_url
                   (extract_meta_value html_text (txt "og:url")) ;;
        Ok (inl entry).

(** [for idx, (title, url) in enumerate(pairs, start=1)], on the state
    (results, failures) *)
Fixpoint main_loop (idx : nat) (pairs : list (str * str))
    (st : list RecipeDraft * list FailureRecord)
    : res (list RecipeDraft * list FailureRecord) :=
  match pairs with
  | [] => Ok st
  | item :: pairs' =>
      out <- process_item idx item ;;
      match out with
      | inl entry => main_loop (S idx) pairs' (fst st ++ [entry], snd st)
      | inr failure => main_loop (S idx) pairs' (fst st, snd st ++ [failure])
      end
  end.

Definition run_assembler (pairs : list (str * str))
    : res (list RecipeDraft * list FailureRecord) :=
  main_loop 1 pairs ([], []).

(** ** cache_source_preview_images.py: the meta-tag resolver *)

Definition META_CANDIDATES : list (str * str) :=
  [ (txt "property", txt "og:image:secure_url");
    (txt "property", txt "og:image:url");
    (txt "property", txt "og:image");
    (txt "name", txt "og:image");
    (txt "property", txt "twitter:image");
    (txt "name", txt "twitter:image");
    (txt "property", txt "twitter:image:src");
    (txt "name", txt "twitter:image:src");
    (txt "itemprop", txt "image");
    (txt "name", txt "thumbnail") ].

(** _meta_regex(attr, value), compiled with re.IGNORECASE *)
Definition _meta_regex (attr value : str) : regex :=
  seq [lit (txt "<meta"); star (CSet true (txt ">")); lit attr; star CSpace;
       lit (txt "="); star CSpace; Grp 1 (Chr QUOTES); lit value; Ref 1;
       star (CSet true (txt ">")); lit (txt ">")].

(** The pattern of _extract_content, under re.IGNORECASE: "content", white
    space, "=", white space, a quote (group 1), as little as possible
    (group 2), the same quote *)
Definition CONTENT_RE : regex :=
  seq [lit (txt "content"); star CSpace; lit (txt "="); star CSpace;
       Grp 1 (Chr QUOTES); Grp 2 (lazy_star CDot); Ref 1].

Definition _extract_content (tag : str) : option str :=
  match re_search T true CONTENT_RE tag with
  | None => None
  | Some m => Some (ext_unescape X (strip (group m 2)))
  end.

(** The pattern of the link tag, under re.IGNORECASE *)
Definition LINK_RE : regex :=
  seq [lit (txt "<link"); star (CSet true (txt ">")); lit (txt "rel");
       star CSpace; lit (txt "="); star CSpace; Grp 1 (Chr QUOTES);
       Alt (lit (txt "image_src")) (lit (txt "thumbnail")); Ref 1;
       star (CSet true (txt ">")); lit (txt ">")].

Definition HREF_RE : regex :=
  seq [lit (txt "href"); star CSpace; lit (txt "="); star CSpace;
       Grp 1 (Chr QUOTES); Grp 2 (lazy_star CDot); Ref 1].

Definition SNIPPET_LENGTH : nat := N.to_nat 200000.

(** urljoin(base_url, url), with its ValueError *)
Definition urljoin (base_url url : str) : res str :=
  match ext_urljoin X base_url url with
  | Some joined => Ok joined
  | None => Raise ValueError
  end.

(** The loop over META_CANDIDATES (lines 163-168) *)
Fixpoint first_candidate (candidates : list (str * str)) (snippet base_url : str)
    : res (option str) :=
  match candidates with
  | [] => Ok None
  | (attr, value) :: candidates' =>
      match re_search T true (_meta_regex attr value) snippet with
      | Some m =>
          match _extract_content (group m 0) with
          | Some content =>
              if nonempty content then
                joined <- urljoin base_url content ;;
                Ok (Some joined)
              else first_candidate candidates' snippet base_url
          | None => first_candidate candidates' snippet base_url
          end
      | None => first_candidate candidates' snippet base_url
      end
  end.

Definition link_fallback (snippet base_url : str) : res (option str) :=
  match re_search T true LINK_RE snippet with
  | Some link_match =>
      match re_search T true HREF_RE (group link_match 0) with
      | Some href_match =>
          joined <- urljoin base_url (ext_unescape X (strip (group href_match 2))) ;;
          Ok (Some joined)
      | None => Ok None
      end
  | None => Ok None
  end.

Definition _extract_preview_from_html (html_text base_url : str)
    : res (option str) :=
  let snippet := firstn SNIPPET_LENGTH html_text in
  preview <- first_candidate META_CANDIDATES snippet base_url ;;
  match preview with
  | Some preview => Ok (Some preview)
  | None => link_fallback snippet base_url
  end.


End Dataset.

(** ** The decoder, by recursion on the literal

    What decode_pdf_string computes, read off the text from left to right
    (Lemma [decode_pdf_string_decoded] below). *)

Definition octal_value (digits : str) : N :=
  fold_left (fun n d => (n * 8 + (d - 48))%N) digits 0%N.

Fixpoint decoded (data : str) : str :=
  match data with
  | [] => []
  | c :: t =>
      if (c =? BACKSLASH)%N then
        match t with
        | [] => []
        | esc :: t1 =>
            if mem esc [ch "("; ch ")"; BACKSLASH] then esc :: decoded t1
            else if (esc =? ch "n")%N then NL :: decoded t1
            else if (esc =? ch "r")%N then CR :: decoded t1
            else if (esc =? ch "t")%N then TAB :: decoded t1
            else if (esc =? ch "b")%N then BS :: decoded t1
            else if (esc =? ch "f")%N then FF :: decoded t1
            else if mem esc OCTAL then
              match t1 with
              | d1 :: t2 =>
                  if mem d1 OCTAL then
                    match t2 with
                    | d2 :: t3 =>
                        if mem d2 OCTAL then octal_value [esc; d1; d2] :: decoded t3
                        else octal_value [esc; d1] :: decoded t2
                    | [] => [octal_value [esc; d1]]
                    end
                  else octal_value [esc] :: decoded t1
              | [] => [octal_value [esc]]
              end
            else esc :: decoded t1
        end
      else c :: decoded t
  end.

Definition res_map {A B} (f : A -> B) (m : res A) : res B :=
  match m with
  | Ok a => Ok (f a)
  | Raise e => Raise e
  | Diverge => Diverge
  end.

Definition flow_map {A B} (f : A -> B) (m : flow A) : flow B :=
  match m with
  | Continue a => Continue (f a)
  | Break a => Break (f a)
  end.

(** a loop state whose index is moved [n] places to the right *)
Definition shift {A} (n : nat) (st : nat * A) : nat * A := (n + fst st, snd st).

(** a text that does not begin with an octal digit *)
Definition no_octal_head (rest : str) : Prop :=
  forall x t, rest = x :: t -> mem x OCTAL = false.

(** a state of the pairer whose index is moved [n] places to the right *)
Definition shift_pairer (n : nat) (st : pairer_state) : pairer_state :=
  {| p_i := n + p_i st; p_title := p_title st; p_pairs := p_pairs st |}.

(** The lines of two runs of the pairer *)
Definition SOUP_SALAD : list str :=
  map txt ["Soup"; "https://x.example/"; "Salad"; "https://y.example/a"; "b"]%string.

Definition SOUP_FOOTER : list str :=
  map txt ["Soup"; "Recipes"; "https://x.example/"]%string.

(** The entries and the failure records among the outcomes of a run *)
Definition entries_of (outs : list (RecipeDraft + FailureRecord)) : list RecipeDraft :=
  flat_map (fun o => match o with inl e => [e] | inr _ => [] end) outs.

Definition failures_of (outs : list (RecipeDraft + FailureRecord))
    : list FailureRecord :=
  flat_map (fun o => match o with inl _ => [] | inr f => [f] end) outs.

(** The record of an entry without ingredients *)
Definition degraded_ok (e : RecipeDraft) : Prop :=
  ingredients e = [] ->
  notes e = Some NOTE
  /\ exists preview, descriptionPreview e = Some preview /\ length preview <= 280.

(** A page for the runs below: it has a description without ingredients
    and an image. *)
Definition SOUP_PAGE : str :=
  txt "<meta property='og:description' content='Just a tasty soup'>"
  ++ txt "<meta property='og:image' content='https://i.example/s.jpg'>".

(** A world in which curl finds that page at every URL, html.unescape and
    urljoin have nothing to do and no stream is compressed *)
Definition SOUP_WORLD : Extern :=
  {| ext_unescape := fun s => s;
     ext_urlparse := fun _ => None;
     ext_urlunparse := fun _ => [];
     ext_urljoin := fun _ s => Some s;
     ext_decompress := fun _ => None;
     ext_curl := fun _ _ => Ok (0, SOUP_PAGE) |}.

Definition SOUP_PAIRS : list (str * str) := [(txt "Soup", txt "https://x.example/")].

Definition SOUP_ENTRIES : list RecipeDraft :=
  Eval vm_compute in
    match run_assembler ascii_tables SOUP_WORLD SOUP_PAIRS with
    | Ok (results, _) => results
    | _ => []
    end.

(** The lines of the example of the segmenter *)
Definition FLOUR_EGG : list str :=
  map txt ["Ingredients:"; "- 2 cups flour"; "- 1 egg"; "Method"; "Mix well"]%string.

Definition BASE_URL : str := txt "https://x.example/".

(** A document with one stream, which is not compressed *)
Definition SOUP_DOCUMENT : bytes :=
  txt "1 0 obj << >> stream" ++ [NL]
  ++ txt "BT [(Tomato) -3 ( Soup)] TJ ET BT [(https) -3 (://x.)] TJ [(example/)] TJ ET"
  ++ [NL] ++ txt "endstream endobj".


(** ** What the pairer keeps *)

(** What the pairer takes for a title: a line that is neither noise nor a
    URL *)
Definition title_line (T : Tables) (lines : list str) (t : str) : Prop :=
  In t lines /\ is_noise T t = false /\ startswith (txt "https://") t = false.

(** A pair as the pairer makes them *)
Definition pair_ok (T : Tables) (lines : list str) (pr : str * str) : Prop :=
  title_line T lines (fst pr) /\ fst pr <> []
  /\ startswith (txt "https://") (snd pr) = true.

Definition pending (title : option str) : nat :=
  match title with Some _ => 1 | None => 0 end.

(** The invariant of the main loop of the pairer *)
Definition pairer_inv (T : Tables) (lines : list str) (st : pairer_state) : Prop :=
  p_i st <= length lines
  /\ Forall (pair_ok T lines) (p_pairs st)
  /\ (forall t, p_title st = Some t -> title_line T lines t)
  /\ 2 * length (p_pairs st) + pending (p_title st) <= p_i st.

(** ** What the line lists keep *)

(** A list of lines without two equal neighbours *)
Fixpoint no_repeat (l : list str) : Prop :=
  match l with
  | a :: t => match t with b :: _ => a <> b | [] => True end /\ no_repeat t
  | [] => True
  end.

(** A line as the two preparations leave it: not empty, nothing to strip,
    and without the characters in [breaks] *)
Definition clean_line (breaks : str) (l : str) : Prop :=
  l <> [] /\ strip l = l /\ forall c, In c breaks -> mem c l = false.

(** ** The order of sorted() *)

(** One string strictly before another, by code points *)
Definition str_lt (a b : str) : Prop := str_leb a b = true /\ a <> b.

(** The tags that infer_tags can give, and the meal types *)
Definition TAG_NAMES : list str :=
  map fst MEAL_KEYWORDS
  ++ map txt ["breakfast"; "dessert"; "drink"]%string
  ++ map fst COURSE_KEYWORDS
  ++ map txt ["roast"; "grill"; "vegetarian"; "vegan"]%string.

Definition MEAL_TYPE_NAMES : list str :=
  map txt ["breakfast"; "brunch"; "dessert"; "lunch"; "dinner"]%string.

(** ** The payload of main (lines 666-686) *)

(** item.get(key), as a truth value *)
Definition present {A} (o : option (list A)) : bool :=
  match o with
  | Some l => nonempty l
  | None => false
  end.

Definition count_if {A} (p : A -> bool) (l : list A) : nat := length (filter p l).

(** The counts of payload["meta"]; the source and the time of the run are
    left out *)
Record PayloadMeta := {
  totalRecipesDetected : nat;
  totalRecipesInPdf : nat;
  recipesWithMissingIngredients : nat;
  recipesWithMissingSteps : nat;
  recipesWithTags : nat;
  recipesWithMealTypes : nat
}.

Definition payload_meta (pairs : list (str * str)) (results : list RecipeDraft)
    : PayloadMeta :=
  {| totalRecipesDetected := length results;
     totalRecipesInPdf := length pairs;
     recipesWithMissingIngredients :=
       count_if (fun item => negb (nonempty (ingredients item))) results;
     recipesWithMissingSteps :=
       count_if (fun item => negb (present (steps item))) results;
     recipesWithTags := count_if (fun item => present (tags item)) results;
     recipesWithMealTypes := count_if (fun item => present (mealTypes item)) results |}.

(** A text of ASCII characters, and an entry all of whose texts are *)
Definition ascii_text (s : str) : Prop := Forall (fun c => is_ascii c = true) s.

Definition ascii_opt (o : option (list str)) : Prop :=
  match o with
  | Some l => Forall ascii_text l
  | None => True
  end.

Definition entry_ascii (e : RecipeDraft) : Prop :=
  ascii_text (title e) /\ ascii_text (sourceUrl e) /\ ascii_text (imageUrl e)
  /\ Forall ascii_text (ingredients e)
  /\ ascii_opt (steps e) /\ ascii_opt (tags e) /\ ascii_opt (mealTypes e)
  /\ (forall n, notes e = Some n -> ascii_text n)
  /\ (forall p, descriptionPreview e = Some p -> ascii_text p).

(** A world in which curl fails *)
Definition DOWN_WORLD : Extern :=
  {| ext_unescape := fun s => s;
     ext_urlparse := fun _ => None;
     ext_urlunparse := fun _ => [];
     ext_urljoin := fun _ s => Some s;
     ext_decompress := fun _ => None;
     ext_curl := fun _ _ => Ok (6, []) |}.

(** ** Worlds for the URL normalizer *)

(** The segments of a path that are not empty *)
Definition path_segments (parsed : ParseResult) : list str :=
  filter nonempty (split (ch "/") (path parsed)).

(** The URL put together again without query and fragment (lines 264-265) *)
Definition without_query (X : Extern) (parsed : ParseResult) : str :=
  ext_urlunparse X
    {| scheme := scheme parsed; netloc := netloc parsed; path := path parsed;
       params := params parsed; query := []; fragment := [] |}.

(** A world in which urlparse finds the path /reel/Cx1/ in every URL *)
Definition REEL_WORLD : Extern :=
  {| ext_unescape := fun s => s;
     ext_urlparse := fun _ =>
       Some {| scheme := txt "https"; netloc := txt "instagram.com";
               path := txt "/reel/Cx1/"; params := []; query := txt "igsh=1";
               fragment := [] |};
     ext_urlunparse := fun _ => [];
     ext_urljoin := fun _ s => Some s;
     ext_decompress := fun _ => None;
     ext_curl := fun _ _ => Ok (6, []) |}.
(** A world in which every page is the same text without any tag *)
Definition TEXT_WORLD : Extern :=
  {| ext_unescape := fun s => s;
     ext_urlparse := fun _ => None;
     ext_urlunparse := fun _ => [];
     ext_urljoin := fun _ s => Some s;
     ext_decompress := fun _ => None;
     ext_curl := fun _ _ => Ok (0, txt "Please log in to see this reel.") |}.

(** * The image caches

    [scripts/cache_source_preview_images.py] and
    [scripts/cache_recipe_images.py]. *)

(** re.sub(r, repl, s) for a pattern that matches no empty text: the text
    between the matches, with [repl] in the place of each match.  [p] is the
    offset in the subject at which [s] begins. *)
Fixpoint sub_matches (repl : str) (ms : list found) (p : nat) (s : str) : str :=
  match ms with
  | [] => s
  | m :: ms' =>
      firstn (m_start m - p) s ++ repl
      ++ sub_matches repl ms' (m_start m + length (m_text m))
           (skipn (m_start m - p + length (m_text m)) s)
  end.

Definition re_sub (T : Tables) (icase : bool) (r : regex) (repl s : str) : str :=
  sub_matches repl (re_finditer T icase r s) 0 s.

Definition SLUG_CHARS : str := txt "abcdefghijklmnopqrstuvwxyz0123456789".

(** [^a-z0-9]+ *)
Definition SAFE_SLUG_RE : regex := plus (CSet true SLUG_CHARS).

(** What the caches call outside themselves, besides the calls of [Extern] *)
Record Web := {
  (* hashlib.sha1(value.encode("utf-8")).hexdigest(); None when the text
     cannot be encoded (UnicodeEncodeError, a ValueError) *)
  web_sha1_hex : str -> option str;
  (* Path(path).suffix *)
  web_suffix : str -> str;
  (* mimetypes.guess_extension *)
  web_mime : str -> option str;
  (* requests.get with the headers of a variant, then raise_for_status:
     response.url and response.text, or None for a RequestException *)
  web_get : nat -> str -> option (str * str)
}.

Section Caches.

Variable T : Tables.
Variable X : Extern.
Variable W : Web.

(** slugify of cache_source_preview_images.py (lines 115-119) *)
Definition slugify (value : str) : res str :=
  let slug := strip_chars (txt "-")
                (re_sub T false SAFE_SLUG_RE (txt "-") (lower T value)) in
  if nonempty slug then Ok (firstn 60 slug)
  else match web_sha1_hex W value with
       | Some digest => Ok (txt "recipe-" ++ firstn 10 digest)
       | None => Raise ValueError
       end.

End Caches.

(** ** The slug, read off the text from left to right *)

Definition slug_char (c : char) : bool := mem c SLUG_CHARS.

(** Every run of characters that are not slug characters becomes one
    hyphen; [inrun] says that the run has begun. *)
Fixpoint collapse (s : str) (inrun : bool) : str :=
  match s with
  | [] => []
  | x :: t =>
      if slug_char x then x :: collapse t false
      else (if inrun then [] else txt "-") ++ collapse t true
  end.

(** A character that the pattern of the slugs takes *)
Definition unsafe (T : Tables) (c : char) : bool :=
  cls_match T false (CSet true SLUG_CHARS) c.

(** The head of a text is not such a character *)
Definition run_ends (T : Tables) (s : str) : Prop :=
  match s with x :: _ => unsafe T x = false | [] => True end.

Definition HYPHEN : char := ch "-".

(** A text of slug characters and single hyphens *)
Definition slug_text (s : str) : Prop :=
  Forall (fun c => slug_char c = true \/ c = HYPHEN) s
  /\ forall a b, s <> a ++ HYPHEN :: HYPHEN :: b.

(** No hyphen is followed by a hyphen *)
Fixpoint single_hyphens (s : str) : Prop :=
  match s with
  | x :: t =>
      match t with
      | y :: _ => ~ (x = HYPHEN /\ y = HYPHEN)
      | [] => True
      end /\ single_hyphens t
  | [] => True
  end.

(** The head of a text is not a hyphen *)
Definition no_hyphen_first (s : str) : Prop :=
  match s with x :: _ => x <> HYPHEN | [] => True end.

(** A world for slugify: the digest of every text is the same *)
Definition SLUG_WORLD : Web :=
  {| web_sha1_hex := fun _ => Some (txt "da39a3ee5e6b4b0d3255bfef95601890afd80709");
     web_suffix := fun _ => [];
     web_mime := fun _ => None;
     web_get := fun _ _ => None |}.
(** ** File extensions *)

(** s.endswith(p) *)
Definition endswith (p s : str) : bool := startswith (rev p) (rev s).

Definition IMAGE_SUFFIXES : list str :=
  map txt [".jpg"; ".jpeg"; ".png"; ".gif"; ".webp"; ".avif"]%string.

Definition VALID_EXTENSIONS : list str :=
  map txt [".jpg"; ".jpeg"; ".png"; ".gif"; ".webp"]%string.

Section CacheScripts.

Variable T : Tables.
Variable X : Extern.
Variable W : Web.

(** guess_extension of cache_source_preview_images.py (lines 122-137); the
    ValueError of urlparse goes to the caller *)
Definition guess_extension (url : str) (content_type : option str) : res str :=
  match ext_urlparse X url with
  | None => Raise ValueError
  | Some parsed =>
      let suffix := lower T (web_suffix W (path parsed)) in
      match (if nonempty suffix && negb (endswith (txt ".php") suffix) then
               if set_mem suffix IMAGE_SUFFIXES
               then Some (if str_eqb suffix (txt ".jpeg") then txt ".jpg" else suffix)
               else None
             else None) with
      | Some ext => Ok ext
      | None =>
          match content_type with
          | Some ((_ :: _) as content_type) =>
              first <- index (split (ch ";") content_type) 0 ;;
              match web_mime W (strip first) with
              | Some ((_ :: _) as guess) =>
                  if str_eqb guess (txt ".jpe") then Ok (txt ".jpg") else Ok guess
              | _ => Ok (txt ".jpg")
              end
          | _ => Ok (txt ".jpg")
          end
      end
  end.

(** ** resolve_preview_url (lines 183-200) *)




End CacheScripts.

(** ** cache_recipe_images.py *)

Module RecipeImages.

(** slugify of cache_recipe_images.py (lines 80-84): the cut to 60
    characters comes after the fallback *)
Definition slugify (T : Tables) (W : Web) (title : str) : res str :=
  let slug := strip_chars (txt "-")
                (re_sub T false SAFE_SLUG_RE (txt "-") (lower T title)) in
  slug <- (if negb (nonempty slug) then
             match web_sha1_hex W title with
             | Some digest => Ok (txt "recipe-" ++ firstn 10 digest)
             | None => Raise ValueError
             end
           else Ok slug) ;;
  Ok (firstn 60 slug).


(** guess_extension of cache_recipe_images.py (lines 87-98) *)
Definition guess_extension (T : Tables) (X : Extern) (W : Web)
    (url : str) (content_type : option str) : res str :=
  match ext_urlparse X url with
  | None => Raise ValueError
  | Some parsed =>
      let url_ext := lower T (web_suffix W (path parsed)) in
      if set_mem url_ext VALID_EXTENSIONS then Ok url_ext
      else
        match content_type with
        | Some ((_ :: _) as content_type) =>
            first <- index (split (ch ";") content_type) 0 ;;
            match web_mime W (strip first) with
            | Some ext => if set_mem ext VALID_EXTENSIONS then Ok ext else Ok (txt ".jpg")
            | None => Ok (txt ".jpg")
            end
        | _ => Ok (txt ".jpg")
        end
  end.

End RecipeImages.

(** ** The names of the cached files (update_recipes, lines 225-234) *)











(** ** How the resolver of the tags can end *)


(** ** Documents of tags and text *)

Definition LT : char := ch "<".
Definition GT : char := ch ">".

(** A closed tag: a less-than sign, a body without angle brackets, a
    greater-than sign *)
Definition closed_tag (t : str) : bool :=
  match t with
  | c :: body_end =>
      (c =? LT)%N
      && match rev body_end with
         | e :: body => (e =? GT)%N && negb (mem LT body) && negb (mem GT body)
         | [] => false
         end
  | [] => false
  end.

(** A piece of a document: a closed tag, or text without a less-than sign *)
Definition piece (t : str) : bool := closed_tag t || negb (mem LT t).









Definition tag_state (t : str) (cu : cursor) : Prop :=
  rev (seen cu) ++ rest cu = t /\ pos cu = length (seen cu).


Definition tag_rel (t : str) (o o' : option cursor) : Prop :=
  match o, o' with
  | None, None => True
  | Some e, Some e' =>
      pos e' = pos e /\ tag_state t e /\ exists sn, seen e = GT :: sn
  | _, _ => False
  end.



(** ** Worlds in which a call raises *)

(** subprocess.run refuses a URL that holds U+0000, and curl finds the page
    of the soup at every other URL *)
Definition NUL_WORLD : Extern :=
  {| ext_unescape := fun s => s;
     ext_urlparse := fun _ => None;
     ext_urlunparse := fun _ => [];
     ext_urljoin := fun _ s => Some s;
     ext_decompress := fun _ => None;
     ext_curl := fun _ url => if mem 0%N url then Raise ValueError
                              else Ok (0, SOUP_PAGE) |}.

(** urljoin refuses a URL that opens a bracket for an address and does not
    close it *)
Definition BRACKET_WORLD : Extern :=
  {| ext_unescape := fun s => s;
     ext_urlparse := fun _ => None;
     ext_urlunparse := fun _ => [];
     ext_urljoin := fun _ s => if mem (ch "[") s && negb (mem (ch "]") s)
                               then None else Some s;
     ext_decompress := fun _ => None;
     ext_curl := fun _ _ => Ok (0, SOUP_PAGE) |}.

(** ** How a run can stop *)


(** * Properties *)

(** ** Loops *)

Lemma loop_more_fuel {St} (body : St -> res (flow St)) :
  forall f f' s r, loop f body s = Ok r -> f <= f' -> loop f' body s = Ok r.
Proof.
  induction f as [|f IH]; intros f' s r H Hle; simpl in H; [discriminate|].
  destruct f' as [|f']; [lia|]. simpl.
  destruct (body s) as [[s'|s']| |]; try discriminate; auto.
  apply IH; [assumption|lia].
Qed.

(** Two loops whose bodies agree through a map of states run alike. *)
Lemma loop_sim {A B} (phi : A -> B) (body1 : B -> res (flow B))
    (body2 : A -> res (flow A)) :
  (forall s, body1 (phi s) = res_map (flow_map phi) (body2 s)) ->
  forall f s, loop f body1 (phi s) = res_map phi (loop f body2 s).
Proof.
  intros Hb. induction f as [|f IH]; intros s; simpl; [reflexivity|].
  rewrite Hb. destruct (body2 s) as [[s'|s']| |]; simpl; auto.
Qed.

(** A loop whose body never raises and lowers a measure at every turn
    ends within that many turns, in a state where the invariant holds. *)
Lemma loop_total {St} (body : St -> res (flow St)) (measure : St -> nat)
    (inv : St -> Prop) :
  (forall s, inv s ->
     (exists s', body s = Ok (Break s') /\ inv s')
     \/ (exists s', body s = Ok (Continue s') /\ inv s' /\ measure s' < measure s)) ->
  forall f s, inv s -> measure s < f -> exists s', loop f body s = Ok s' /\ inv s'.
Proof.
  intros Hb. induction f as [|f IH]; intros s Hi Hm; [lia|].
  simpl. destruct (Hb s Hi) as [[s' [E Hi']]|[s' [E [Hi' Hlt]]]]; rewrite E.
  - eauto.
  - apply IH; [assumption|lia].
Qed.

(** ** Subscripts *)

Lemma index_shift {A} (pre l : list A) (k : nat) :
  index (pre ++ l) (length pre + k) = index l k.
Proof.
  unfold index. rewrite nth_error_app2 by lia.
  replace (length pre + k - length pre) with k by lia. reflexivity.
Qed.

Lemma ltb_shift {A} (pre l : list A) (k : nat) :
  (length pre + k <? length (pre ++ l)) = (k <? length l).
Proof.
  rewrite length_app. destruct (k <? length l) eqn:E.
  - apply Nat.ltb_lt in E. apply Nat.ltb_lt. lia.
  - apply Nat.ltb_ge in E. apply Nat.ltb_ge. lia.
Qed.

Lemma leb_shift {A} (pre l : list A) (k : nat) :
  (length (pre ++ l) <=? length pre + k) = (length l <=? k).
Proof.
  rewrite length_app. destruct (length l <=? k) eqn:E.
  - apply Nat.leb_le in E. apply Nat.leb_le. lia.
  - apply Nat.leb_gt in E. apply Nat.leb_gt. lia.
Qed.

Lemma index_in_range {A} (l : list A) (i : nat) :
  i < length l -> exists x, index l i = Ok x.
Proof.
  intros H. unfold index. destruct (nth_error l i) eqn:E; eauto.
  apply nth_error_None in E. lia.
Qed.

(** ** The decoder *)

Lemma octal_step_shift (pre rest : str) (i : nat) (st : nat * str) :
  octal_step (pre ++ rest) (length pre + i) st = octal_step rest i st.
Proof.
  destruct st as [j digits]. unfold octal_step.
  rewrite <- Nat.add_assoc, ltb_shift, index_shift. reflexivity.
Qed.

Lemma octal_loop_shift (pre rest : str) (i : nat) (f : nat) (st : nat * str) :
  loop f (octal_step (pre ++ rest) (length pre + i)) st = loop f (octal_step rest i) st.
Proof.
  revert st. induction f as [|f IH]; intros st; simpl; [reflexivity|].
  rewrite octal_step_shift.
  destruct (octal_step rest i st) as [[s'|s']| |]; auto.
Qed.

Lemma decode_step_shift (pre rest : str) (st : nat * str) :
  decode_step (pre ++ rest) (shift (length pre) st)
  = res_map (flow_map (shift (length pre))) (decode_step rest st).
Proof.
  destruct st as [i out]. unfold shift, decode_step; cbn [fst snd].
  rewrite ltb_shift, index_shift.
  destruct (i <? length rest); [|reflexivity].
  destruct (index rest i) as [c| |]; cbn [bind res_map]; try reflexivity.
  destruct (c =? BACKSLASH)%N; [|cbn; rewrite Nat.add_assoc; reflexivity].
  rewrite <- Nat.add_assoc, leb_shift, index_shift.
  destruct (length rest <=? i + 1); [reflexivity|].
  destruct (index rest (i + 1)) as [esc| |]; cbn [bind res_map]; try reflexivity.
  destruct (mem esc [ch "("; ch ")"; BACKSLASH]);
    [cbn [bind res_map flow_map fst snd]; rewrite ?Nat.add_assoc; reflexivity|].
  do 5 (match goal with
         | |- context [if (?a =? ?b)%N then _ else _] =>
             destruct (a =? b)%N;
               [cbn [bind res_map flow_map fst snd]; rewrite ?Nat.add_assoc;
                reflexivity|]
         end).
  destruct (mem esc OCTAL);
    [|cbn [bind res_map flow_map fst snd]; rewrite ?Nat.add_assoc; reflexivity].
  rewrite octal_loop_shift.
  destruct (loop 3 (octal_step rest (i + 1)) (1, [esc])) as [[j digits]| |];
    cbn [bind res_map]; try reflexivity.
  destruct (int_base8 digits) as [n| |]; cbn [bind res_map]; try reflexivity.
  destruct (chr n) as [c'| |]; cbn [bind res_map flow_map fst snd]; try reflexivity.
  rewrite !Nat.add_assoc. reflexivity.
Qed.

Lemma decode_loop_shift (pre rest : str) (f : nat) (st : nat * str) :
  loop f (decode_step (pre ++ rest)) (shift (length pre) st)
  = res_map (shift (length pre)) (loop f (decode_step rest) st).
Proof.
  apply loop_sim. intros s. apply decode_step_shift.
Qed.

Lemma mem_octal_range (d : char) :
  mem d OCTAL = true -> (48 <= d <= 55)%N.
Proof.
  unfold mem, OCTAL. cbn. rewrite !orb_true_iff, !N.eqb_eq. lia.
Qed.

Ltac octal_bound :=
  repeat match goal with
         | H : _ |- _ =>
             lazymatch type of H with
             | (_ <= _ <= _)%N => fail
             | _ => clear H
             end
         end;
  lia.

Lemma chr_small (n : N) : (n <= 1114111)%N -> chr n = Ok n.
Proof.
  intros H. unfold chr. apply N.leb_le in H. rewrite H. reflexivity.
Qed.

(** The loop of decode_pdf_string, started at the head of a text, ends at
    its end with the decoded text added to the output. *)
Lemma decode_loop_decoded :
  forall f data out,
    length data < f ->
    loop f (decode_step data) (0, out) = Ok (length data, out ++ decoded data).
Proof.
  induction f as [|f IH]; intros data out Hf; [lia|].
  assert (Hnext : forall (pre rest : str) out',
             length rest < f ->
             loop f (decode_step (pre ++ rest)) (length pre, out')
             = Ok (length (pre ++ rest), out' ++ decoded rest)).
  { intros pre rest out' Hr.
    replace (length pre, out') with (shift (length pre) (0, out'))
      by (unfold shift; cbn; f_equal; lia).
    rewrite decode_loop_shift, IH by assumption.
    cbn. unfold shift. cbn. rewrite length_app. reflexivity. }
  destruct data as [|c t].
  { cbn. rewrite app_nil_r. reflexivity. }
  cbn [loop]. unfold decode_step at 1.
  cbn [length Nat.ltb Nat.leb index nth_error bind Nat.add].
  cbn [decoded].
  destruct (c =? BACKSLASH)%N eqn:Ec.
  2:{ cbn [Nat.add]. rewrite (Hnext [c] t) by (cbn [length] in *; lia).
      cbn. rewrite <- app_assoc. reflexivity. }
  destruct t as [|esc t1]; [cbn; rewrite app_nil_r; reflexivity|].
  cbn in Hf.
  cbn [length Nat.ltb Nat.leb index nth_error bind Nat.add].
  assert (Hsimple : forall x,
             loop f (decode_step (c :: esc :: t1)) (2, out ++ [x])
             = Ok (length (c :: esc :: t1), out ++ x :: decoded t1)).
  { intros x. rewrite (Hnext [c; esc] t1) by lia.
    cbn. rewrite <- app_assoc. reflexivity. }
  destruct (mem esc [ch "("; ch ")"; BACKSLASH]); [apply Hsimple|].
  do 5 (match goal with
        | |- context [if (?a =? ?b)%N then _ else _] =>
            destruct (a =? b)%N; [apply Hsimple|]
        end).
  destruct (mem esc OCTAL) eqn:E0; [|apply Hsimple].
  pose proof (mem_octal_range _ E0) as R0.
  destruct t1 as [|d1 t2].
  { cbn [loop octal_step length Nat.ltb Nat.leb Nat.add andb bind].
    unfold int_base8. cbn [fold_left bind]. rewrite E0. cbn [bind].
    rewrite chr_small by octal_bound. cbn [bind Nat.sub Nat.add].
    rewrite (Hnext [c; esc] []) by (cbn [length] in *; lia).
    cbn. rewrite <- app_assoc. reflexivity. }
  cbn [loop]. unfold octal_step at 1.
  cbn [length Nat.ltb Nat.leb Nat.add andb bind index nth_error].
  destruct (mem d1 OCTAL) eqn:E1.
  2:{ cbn [bind]. unfold int_base8. cbn [fold_left bind]. rewrite E0. cbn [bind].
      rewrite chr_small by octal_bound. cbn [bind Nat.sub Nat.add].
      rewrite (Hnext [c; esc] (d1 :: t2)) by (cbn [length] in *; lia).
      cbn [decoded]. rewrite ?E1. cbn. rewrite <- app_assoc. reflexivity. }
  pose proof (mem_octal_range _ E1) as R1.
  destruct t2 as [|d2 t3].
  { unfold octal_step at 1.
    cbn [length Nat.ltb Nat.leb Nat.add andb bind index nth_error].
    unfold int_base8. cbn [fold_left bind app]. rewrite E0. cbn [bind]. rewrite E1. cbn [bind].
    rewrite chr_small by octal_bound. cbn [bind Nat.sub Nat.add].
    rewrite (Hnext [c; esc; d1] []) by (cbn [length] in *; lia).
    cbn. rewrite <- app_assoc. reflexivity. }
  unfold octal_step at 1.
  cbn [length Nat.ltb Nat.leb Nat.add andb bind index nth_error].
  destruct (mem d2 OCTAL) eqn:E2.
  2:{ cbn [bind]. unfold int_base8. cbn [fold_left bind app]. rewrite E0. cbn [bind].
      rewrite E1. cbn [bind].
      rewrite chr_small by octal_bound. cbn [bind Nat.sub Nat.add].
      rewrite (Hnext [c; esc; d1] (d2 :: t3)) by (cbn [length] in *; lia).
      cbn [decoded]. rewrite ?E2. cbn. rewrite <- app_assoc. reflexivity. }
  pose proof (mem_octal_range _ E2) as R2.
  unfold octal_step at 1.
  cbn [length Nat.ltb Nat.leb Nat.add andb bind index nth_error].
  unfold int_base8. cbn [fold_left bind app]. rewrite E0. cbn [bind].
  rewrite E1. cbn [bind]. rewrite E2. cbn [bind].
  rewrite chr_small by octal_bound. cbn [bind Nat.sub Nat.add].
  rewrite (Hnext [c; esc; d1; d2] t3) by (cbn [length] in *; lia).
  cbn. rewrite <- app_assoc. reflexivity.
Qed.

Lemma decode_pdf_string_decoded (data : str) :
  decode_pdf_string data = Ok (decoded data).
Proof.
  unfold decode_pdf_string. rewrite decode_loop_decoded by lia. reflexivity.
Qed.

Lemma last_tail_not (c : char) (t : str) (b : char) :
  b <> 0%N -> last (c :: t) 0%N <> b -> last t 0%N <> b.
Proof.
  intros Hb H. destruct t as [|x t']; [cbn; congruence|exact H].
Qed.

(** The decoder reads a text that does not end in a backslash to its end,
    whatever follows, as long as an octal escape cannot run on into it. *)
Lemma decoded_app :
  forall n u r,
    length u <= n ->
    last u 0%N <> BACKSLASH ->
    (forall x t, r = x :: t -> mem x OCTAL = false) ->
    decoded (u ++ r) = decoded u ++ decoded r.
Proof.
  assert (Hb : BACKSLASH <> 0%N) by discriminate.
  induction n as [|n IH]; intros u r Hn Hl Hr.
  { destruct u; [reflexivity|cbn in Hn; lia]. }
  destruct u as [|c t]; [reflexivity|].
  cbn [length] in Hn.
  assert (Ht : last t 0%N <> BACKSLASH) by (eapply last_tail_not; eauto).
  cbn [app decoded].
  destruct (c =? BACKSLASH)%N eqn:Ec.
  2:{ rewrite IH by (auto; lia). reflexivity. }
  destruct t as [|esc t1].
  { apply N.eqb_eq in Ec. subst c. cbn in Hl. congruence. }
  cbn [length] in Hn.
  assert (Ht1 : last t1 0%N <> BACKSLASH) by (eapply last_tail_not; eauto).
  assert (Hsimple : forall x, x :: decoded (t1 ++ r) = (x :: decoded t1) ++ decoded r).
  { intros x. rewrite IH by (auto; lia). reflexivity. }
  cbn [app].
  destruct (mem esc [ch "("; ch ")"; BACKSLASH]); [apply Hsimple|].
  do 5 (match goal with
        | |- context [if (?a =? ?b)%N then _ else _] =>
            destruct (a =? b)%N; [apply Hsimple|]
        end).
  destruct (mem esc OCTAL); [|apply Hsimple].
  destruct t1 as [|d1 t2].
  { cbn [app]. destruct r as [|x r']; [reflexivity|].
    rewrite (Hr x r' eq_refl). reflexivity. }
  cbn [length] in Hn.
  assert (Ht2 : last t2 0%N <> BACKSLASH) by (eapply last_tail_not; eauto).
  cbn [app].
  destruct (mem d1 OCTAL) eqn:E1.
  2:{ change (d1 :: t2 ++ r) with ((d1 :: t2) ++ r).
      rewrite IH by (auto; cbn [length]; lia). reflexivity. }
  destruct t2 as [|d2 t3].
  { cbn [app]. destruct r as [|x r']; [reflexivity|].
    rewrite (Hr x r' eq_refl). reflexivity. }
  cbn [length] in Hn.
  assert (Ht3 : last t3 0%N <> BACKSLASH) by (eapply last_tail_not; eauto).
  cbn [app].
  destruct (mem d2 OCTAL) eqn:E2.
  - rewrite IH by (auto; lia). reflexivity.
  - change (d2 :: t3 ++ r) with ((d2 :: t3) ++ r).
    rewrite IH by (auto; cbn [length]; lia). reflexivity.
Qed.

Lemma decoded_backslash_pairs (m : nat) (r : str) :
  decoded (repeat BACKSLASH (2 * m) ++ r) = repeat BACKSLASH m ++ decoded r.
Proof.
  induction m as [|m IH]; [reflexivity|].
  replace (2 * S m) with (S (S (2 * m))) by lia.
  cbn [repeat app]. cbn [decoded].
  change (BACKSLASH =? BACKSLASH)%N with true. cbv iota.
  change (mem BACKSLASH [ch "("; ch ")"; BACKSLASH]) with true. cbv iota.
  rewrite IH. reflexivity.
Qed.

Lemma decoded_trailing_backslash (u : str) (m : nat) :
  last u 0%N <> BACKSLASH ->
  decoded (u ++ repeat BACKSLASH (2 * m) ++ [BACKSLASH])
  = decoded (u ++ repeat BACKSLASH (2 * m)).
Proof.
  intros Hu.
  assert (Hhead : forall r x t,
             repeat BACKSLASH (2 * m) ++ r = x :: t ->
             (r = [] \/ r = [BACKSLASH]) -> mem x OCTAL = false).
  { intros r x t E Hr. destruct m as [|m].
    - cbn in E. destruct Hr as [-> | ->]; [discriminate|].
      injection E as <- _. reflexivity.
    - replace (2 * S m) with (S (2 * m + 1)) in E by lia.
      cbn in E. injection E as <- _. reflexivity. }
  rewrite decoded_app with (n := length u) by (eauto using Nat.le_refl).
  rewrite <- (app_nil_r (repeat BACKSLASH (2 * m))) at 2.
  rewrite decoded_app with (n := length u) (r := repeat BACKSLASH (2 * m) ++ [])
    by (eauto using Nat.le_refl).
  rewrite !decoded_backslash_pairs. reflexivity.
Qed.

(** C10.  decode_pdf_string ends on every text with a value and raises
    nothing; and a text that ends in an unpaired backslash, that is in an
    odd number of backslashes, decodes to what the text before that last
    backslash decodes to. *)
Theorem decode_pdf_string_total :
  (forall data : str, exists out, decode_pdf_string data = Ok out)
  /\ (forall (u : str) (m : nat),
        last u 0%N <> BACKSLASH ->
        decode_pdf_string (u ++ repeat BACKSLASH (2 * m) ++ [BACKSLASH])
        = decode_pdf_string (u ++ repeat BACKSLASH (2 * m))).
Proof.
  split.
  - intros data. exists (decoded data). apply decode_pdf_string_decoded.
  - intros u m Hu. rewrite !decode_pdf_string_decoded.
    rewrite decoded_trailing_backslash by assumption. reflexivity.
Qed.

Lemma decode_pdf_string_total_witness :
  last (txt "ab") 0%N <> BACKSLASH
  /\ decode_pdf_string (txt "ab" ++ repeat BACKSLASH (2 * 1) ++ [BACKSLASH])
     = decode_pdf_string (txt "ab" ++ repeat BACKSLASH (2 * 1)).
Proof.
  assert (H : last (txt "ab") 0%N <> BACKSLASH) by (vm_compute; discriminate).
  split; [exact H|].
  exact (proj2 decode_pdf_string_total (txt "ab") 1 H).
Defined.

Lemma octal_value_1 (d1 : char) : octal_value [d1] = (d1 - 48)%N.
Proof. unfold octal_value; cbn [fold_left]; lia. Qed.

Lemma octal_value_2 (d1 d2 : char) :
  octal_value [d1; d2] = ((d1 - 48) * 8 + (d2 - 48))%N.
Proof. unfold octal_value; cbn [fold_left]; lia. Qed.

Lemma octal_value_3 (d1 d2 d3 : char) :
  octal_value [d1; d2; d3] = ((d1 - 48) * 64 + (d2 - 48) * 8 + (d3 - 48))%N.
Proof. unfold octal_value; cbn [fold_left]; lia. Qed.

(** C7.  Whatever follows it, an escape at the head of a literal decodes to
    its character: the escaped parentheses and backslash to themselves, n,
    r, t, b and f to the control characters, an octal escape of one to three
    digits to the character of that code, and any other escaped character
    to itself; and the literal \050Hi\051 decodes to (Hi). *)
Theorem decode_pdf_string_escapes :
  forall rest out : str,
    decode_pdf_string rest = Ok out ->
    (forall c, In c [ch "("; ch ")"; BACKSLASH] ->
       decode_pdf_string (BACKSLASH :: c :: rest) = Ok (c :: out))
    /\ decode_pdf_string (BACKSLASH :: ch "n" :: rest) = Ok (NL :: out)
    /\ decode_pdf_string (BACKSLASH :: ch "r" :: rest) = Ok (CR :: out)
    /\ decode_pdf_string (BACKSLASH :: ch "t" :: rest) = Ok (TAB :: out)
    /\ decode_pdf_string (BACKSLASH :: ch "b" :: rest) = Ok (BS :: out)
    /\ decode_pdf_string (BACKSLASH :: ch "f" :: rest) = Ok (FF :: out)
    /\ (forall d1, mem d1 OCTAL = true -> no_octal_head rest ->
          decode_pdf_string (BACKSLASH :: d1 :: rest) = Ok ((d1 - 48)%N :: out))
    /\ (forall d1 d2, mem d1 OCTAL = true -> mem d2 OCTAL = true ->
          no_octal_head rest ->
          decode_pdf_string (BACKSLASH :: d1 :: d2 :: rest)
          = Ok (((d1 - 48) * 8 + (d2 - 48))%N :: out))
    /\ (forall d1 d2 d3,
          mem d1 OCTAL = true -> mem d2 OCTAL = true -> mem d3 OCTAL = true ->
          decode_pdf_string (BACKSLASH :: d1 :: d2 :: d3 :: rest)
          = Ok (((d1 - 48) * 64 + (d2 - 48) * 8 + (d3 - 48))%N :: out))
    /\ (forall e, mem e (txt "nrtbf" ++ OCTAL ++ [ch "("; ch ")"; BACKSLASH]) = false ->
          decode_pdf_string (BACKSLASH :: e :: rest) = Ok (e :: out))
    /\ (forall c, c <> BACKSLASH -> decode_pdf_string (c :: rest) = Ok (c :: out))
    /\ decode_pdf_string (BACKSLASH :: txt "050Hi" ++ BACKSLASH :: txt "051")
       = Ok (txt "(Hi)").
Proof.
  intros rest out H. rewrite decode_pdf_string_decoded in H.
  injection H as <-.
  repeat split; try (rewrite decode_pdf_string_decoded; reflexivity).
  - intros c Hc. rewrite decode_pdf_string_decoded.
    cbn in Hc. destruct Hc as [<-|[<-|[<-|[]]]]; reflexivity.
  - intros d1 H1 Hr. rewrite decode_pdf_string_decoded.
    pose proof (mem_octal_range _ H1) as R1.
    cbn [decoded]. change (BACKSLASH =? BACKSLASH)%N with true. cbv iota.
    replace (mem d1 [ch "("; ch ")"; BACKSLASH]) with false
      by (symmetry; cbn; rewrite !orb_false_iff, !N.eqb_neq; repeat split;
          unfold BACKSLASH; cbn; lia).
    assert (Hne : forall k, (k < 48 \/ 55 < k)%N -> (d1 =? k)%N = false)
      by (intros k Hk; apply N.eqb_neq; lia).
    rewrite !Hne by (cbn; lia). rewrite H1.
    destruct rest as [|x t]; [rewrite octal_value_1; reflexivity|].
    rewrite (Hr x t eq_refl), octal_value_1. reflexivity.
  - intros d1 d2 H1 H2 Hr. rewrite decode_pdf_string_decoded.
    pose proof (mem_octal_range _ H1) as R1.
    cbn [decoded]. change (BACKSLASH =? BACKSLASH)%N with true. cbv iota.
    replace (mem d1 [ch "("; ch ")"; BACKSLASH]) with false
      by (symmetry; cbn; rewrite !orb_false_iff, !N.eqb_neq; repeat split;
          unfold BACKSLASH; cbn; lia).
    assert (Hne : forall k, (k < 48 \/ 55 < k)%N -> (d1 =? k)%N = false)
      by (intros k Hk; apply N.eqb_neq; lia).
    rewrite !Hne by (cbn; lia). rewrite H1, H2.
    destruct rest as [|x t]; [rewrite octal_value_2; reflexivity|].
    rewrite (Hr x t eq_refl), octal_value_2. reflexivity.
  - intros d1 d2 d3 H1 H2 H3. rewrite decode_pdf_string_decoded.
    pose proof (mem_octal_range _ H1) as R1.
    cbn [decoded]. change (BACKSLASH =? BACKSLASH)%N with true. cbv iota.
    replace (mem d1 [ch "("; ch ")"; BACKSLASH]) with false
      by (symmetry; cbn; rewrite !orb_false_iff, !N.eqb_neq; repeat split;
          unfold BACKSLASH; cbn; lia).
    assert (Hne : forall k, (k < 48 \/ 55 < k)%N -> (d1 =? k)%N = false)
      by (intros k Hk; apply N.eqb_neq; lia).
    rewrite !Hne by (cbn; lia). rewrite H1, H2, H3.
    rewrite octal_value_3. reflexivity.
  - intros e He. rewrite decode_pdf_string_decoded.
    cbn [decoded]. change (BACKSLASH =? BACKSLASH)%N with true. cbv iota.
    cbn in He. rewrite !orb_false_iff in He.
    unfold mem, OCTAL. cbn.
    repeat match goal with
           | H : _ /\ _ |- _ => destruct H
           end.
    repeat match goal with
           | H : (e =? ?k)%N = false |- _ => rewrite H; clear H
           end.
    reflexivity.
  - intros c Hc. rewrite decode_pdf_string_decoded. cbn [decoded].
    apply N.eqb_neq in Hc. rewrite Hc. reflexivity.
Qed.

Lemma decode_pdf_string_escapes_witness :
  decode_pdf_string (txt "Hi") = Ok (txt "Hi")
  /\ decode_pdf_string (BACKSLASH :: ch "n" :: txt "Hi") = Ok (NL :: txt "Hi").
Proof.
  assert (H : decode_pdf_string (txt "Hi") = Ok (txt "Hi")) by (vm_compute; reflexivity).
  split; [exact H|].
  exact (proj1 (proj2 (decode_pdf_string_escapes (txt "Hi") (txt "Hi") H))).
Defined.

(** ** The pairer *)

Lemma loop_S {St} (body : St -> res (flow St)) (f : nat) (s : St) :
  loop (S f) body s
  = match body s with
    | Ok (Continue s') => loop f body s'
    | Ok (Break s') => Ok s'
    | Raise e => Raise e
    | Diverge => Diverge
    end.
Proof. reflexivity. Qed.

Section PairerFacts.

Variable T : Tables.

Lemma url_step_shift (pre rest : list str) (st : nat * str) :
  url_step T (pre ++ rest) (shift (length pre) st)
  = res_map (flow_map (shift (length pre))) (url_step T rest st).
Proof.
  destruct st as [j url]. unfold shift, url_step; cbn [fst snd].
  rewrite ltb_shift, index_shift.
  destruct (j <? length rest); [|reflexivity].
  destruct (index rest j) as [nxt| |]; cbn [bind res_map]; try reflexivity.
  repeat match goal with
         | |- context [if ?b then _ else _] => destruct b; [reflexivity|]
         end.
  cbn. rewrite Nat.add_assoc. reflexivity.
Qed.

(** The inner loop ends, not before where it began. *)
Lemma url_loop_total (lines : list str) (j : nat) (url : str) :
  exists j' url',
    loop (S (length lines)) (url_step T lines) (j, url) = Ok (j', url') /\ j <= j'.
Proof.
  destruct (loop_total (url_step T lines)
              (fun st => length lines - fst st) (fun st => j <= fst st))
    with (f := S (length lines)) (s := (j, url)) as [[j' url'] [E Hj]].
  - intros [k u] Hk. cbn [fst] in Hk. unfold url_step.
    destruct (k <? length lines) eqn:Ek; [|left; eexists; split; [reflexivity|assumption]].
    apply Nat.ltb_lt in Ek.
    destruct (index_in_range lines k Ek) as [nxt ->]. cbn [bind].
    repeat match goal with
           | |- context [if ?b then _ else _] =>
               destruct b; [left; eexists; split; [reflexivity|assumption]|]
           end.
    right. eexists. split; [reflexivity|]. cbn [fst]. split; lia.
  - cbn. lia.
  - cbn [fst]. lia.
  - exists j', url'. split; assumption.
Qed.

Lemma pair_step_shift (pre rest : list str) (st : pairer_state) :
  pair_step T (pre ++ rest) (shift_pairer (length pre) st)
  = res_map (flow_map (shift_pairer (length pre))) (pair_step T rest st).
Proof.
  destruct st as [i title pairs]. unfold shift_pairer, pair_step; cbn [p_i p_title p_pairs].
  rewrite ltb_shift, index_shift.
  destruct (i <? length rest); [|reflexivity].
  destruct (index rest i) as [line| |]; cbn [bind res_map]; try reflexivity.
  destruct (is_label T line); [cbn; rewrite Nat.add_assoc; reflexivity|].
  destruct (is_datetime T line); [cbn; rewrite Nat.add_assoc; reflexivity|].
  destruct (startswith (txt "https://") line);
    [|cbn; rewrite Nat.add_assoc; reflexivity].
  destruct (url_loop_total rest (i + 1) line) as [j [url [E Hj]]].
  replace (length pre + i + 1, line) with (shift (length pre) (i + 1, line))
    by (unfold shift; cbn; f_equal; lia).
  rewrite (loop_sim (shift (length pre)) (url_step T (pre ++ rest)) (url_step T rest))
    by (intros s; apply url_step_shift).
  rewrite (loop_more_fuel (url_step T rest) (S (length rest)) (S (length (pre ++ rest)))
             (i + 1, line) (j, url) E) by (rewrite length_app; lia).
  rewrite E. cbn [res_map bind shift fst snd].
  destruct title as [title|]; [|reflexivity].
  destruct (nonempty title && nonempty url); reflexivity.
Qed.

(** The main loop ends on every list of lines. *)
Lemma pair_loop_total (lines : list str) (st : pairer_state) :
  exists st', loop (S (length lines)) (pair_step T lines) st = Ok st'.
Proof.
  destruct (loop_total (pair_step T lines)
              (fun st => length lines - p_i st) (fun _ => True))
    with (f := S (length lines)) (s := st) as [st' [E _]].
  - intros [i title pairs] _. unfold pair_step. cbn [p_i p_title p_pairs].
    destruct (i <? length lines) eqn:Ei; [|left; eexists; split; [reflexivity|exact I]].
    apply Nat.ltb_lt in Ei.
    destruct (index_in_range lines i Ei) as [line ->]. cbn [bind].
    destruct (is_label T line);
      [right; eexists; split; [reflexivity|]; cbn [p_i]; split; [exact I|lia]|].
    destruct (is_datetime T line);
      [right; eexists; split; [reflexivity|]; cbn [p_i]; split; [exact I|lia]|].
    destruct (startswith (txt "https://") line);
      [|right; eexists; split; [reflexivity|]; cbn [p_i]; split; [exact I|lia]].
    destruct (url_loop_total lines (i + 1) line) as [j [url [E Hj]]].
    rewrite E. cbn [bind].
    destruct title as [title|];
      [destruct (nonempty title && nonempty url)|];
      right; eexists; (split; [reflexivity|]); cbn [p_i]; (split; [exact I|lia]).
  - exact I.
  - lia.
  - exists st'. exact E.
Qed.

Lemma pair_lines_from_total (title : option str) (lines : list str) :
  exists pairs, pair_lines_from T title lines = Ok pairs.
Proof.
  unfold pair_lines_from.
  destruct (pair_loop_total lines {| p_i := 0; p_title := title; p_pairs := [] |})
    as [st' ->].
  eexists. reflexivity.
Qed.

(** After one turn on its first line, the loop goes on as on the rest. *)
Lemma pair_lines_from_skip (title title' : option str) (l : str) (rest : list str) :
  pair_step T (l :: rest) {| p_i := 0; p_title := title; p_pairs := [] |}
  = Ok (Continue {| p_i := 1; p_title := title'; p_pairs := [] |}) ->
  pair_lines_from T title (l :: rest) = pair_lines_from T title' rest.
Proof.
  intros Hstep. unfold pair_lines_from. cbn [length]. rewrite loop_S, Hstep.
  change (l :: rest) with ([l] ++ rest).
  change {| p_i := 1; p_title := title'; p_pairs := [] |}
    with (shift_pairer (length [l]) {| p_i := 0; p_title := title'; p_pairs := [] |}).
  rewrite (loop_sim (shift_pairer (length [l])) (pair_step T ([l] ++ rest))
             (pair_step T rest)) by (intros s; apply pair_step_shift).
  destruct (loop (S (length rest)) (pair_step T rest)
              {| p_i := 0; p_title := title'; p_pairs := [] |}); reflexivity.
Qed.

End PairerFacts.

(** C4, as the code has it.  On the lines Soup, https://x.example/, Salad,
    https://y.example/a, b the pairer gives the one pair of Soup with
    https://x.example/Salad: the line Salad has no white space and is
    joined onto the first URL; the line b is joined onto the second URL
    only, which finds no title pending and is dropped.  When the titles
    hold white space, as Tomato Soup and Green Salad do, the two pairs
    come out, the second with the URL https://y.example/ab. *)
Theorem pair_lines_soup_salad :
  forall T : Tables,
    pair_lines T SOUP_SALAD = Ok [(txt "Soup", txt "https://x.example/Salad")]
    /\ loop (S (length SOUP_SALAD)) (url_step T SOUP_SALAD) (2, txt "https://x.example/")
       = Ok (3, txt "https://x.example/Salad")
    /\ loop (S (length SOUP_SALAD)) (url_step T SOUP_SALAD) (4, txt "https://y.example/a")
       = Ok (5, txt "https://y.example/ab")
    /\ pair_lines T (map txt ["Tomato Soup"; "https://x.example/"; "Green Salad";
                              "https://y.example/a"; "b"]%string)
       = Ok [(txt "Tomato Soup", txt "https://x.example/");
             (txt "Green Salad", txt "https://y.example/ab")].
Proof.
  intros T. repeat split; vm_compute; reflexivity.
Qed.

Lemma pair_lines_soup_salad_counterexample :
  pair_lines ascii_tables SOUP_SALAD
  <> Ok [(txt "Soup", txt "https://x.example/");
         (txt "Salad", txt "https://y.example/ab")].
Proof.
  vm_compute. discriminate.
Qed.

Lemma pairer_noise_counterexample :
  filter (fun l => negb (is_noise ascii_tables l)) SOUP_FOOTER
  = map txt ["Soup"; "https://x.example/"]%string
  /\ pair_lines ascii_tables SOUP_FOOTER = Ok []
  /\ pair_lines ascii_tables
       (filter (fun l => negb (is_noise ascii_tables l)) SOUP_FOOTER)
     = Ok [(txt "Soup", txt "https://x.example/")]
  /\ pair_lines ascii_tables SOUP_FOOTER
     <> pair_lines ascii_tables
          (filter (fun l => negb (is_noise ascii_tables l)) SOUP_FOOTER).
Proof.
  repeat split; try (vm_compute; reflexivity).
  vm_compute. discriminate.
Qed.

(** C5, as the code has it.  A date or time line met by the main loop is
    dropped and nothing else changes: the pairs are those of the lines
    after it, with the same title pending.  A label line (recipies,
    recipes, page ...) met by the main loop is dropped and the pending title
    with it: the pairs are those of the lines after it with no title
    pending, so a title line, a label line and then a URL block give no
    pair with that title.  A page, date or time line after a URL ends the
    accumulation of that URL.  The loop ends with a value on every list of
    lines. *)
Theorem pairer_noise_lines :
  forall T : Tables,
    (forall title l rest,
        is_label T l = false -> is_datetime T l = true ->
        pair_lines_from T title (l :: rest) = pair_lines_from T title rest)
    /\ (forall title l rest,
          is_label T l = true ->
          pair_lines_from T title (l :: rest) = pair_lines_from T None rest)
    /\ (forall t f rest,
          is_noise T t = false -> startswith (txt "https://") t = false ->
          is_label T f = true ->
          pair_lines T (t :: f :: rest) = pair_lines T rest)
    /\ (forall lines j url nxt,
          index lines j = Ok nxt ->
          startswith (txt "page ") (lower T nxt) || is_datetime T nxt = true ->
          url_step T lines (j, url) = Ok (Break (j, url)))
    /\ (forall title lines, exists pairs, pair_lines_from T title lines = Ok pairs).
Proof.
  intros T. split; [|split; [|split; [|split]]].
  - intros title l rest Hl Hd. apply pair_lines_from_skip.
    unfold pair_step. cbn [p_i p_title p_pairs length Nat.ltb Nat.leb index nth_error bind].
    rewrite Hl, Hd. reflexivity.
  - intros title l rest Hl. apply pair_lines_from_skip.
    unfold pair_step. cbn [p_i p_title p_pairs length Nat.ltb Nat.leb index nth_error bind].
    rewrite Hl. reflexivity.
  - intros t f rest Ht Hu Hf. unfold pair_lines.
    unfold is_noise in Ht. apply orb_false_iff in Ht. destruct Ht as [Hl Hd].
    rewrite (pair_lines_from_skip T None (Some t) t (f :: rest)).
    + apply pair_lines_from_skip.
      unfold pair_step. cbn [p_i p_title p_pairs length Nat.ltb Nat.leb index nth_error bind].
      rewrite Hf. reflexivity.
    + unfold pair_step. cbn [p_i p_title p_pairs length Nat.ltb Nat.leb index nth_error bind].
      rewrite Hl, Hd, Hu. reflexivity.
  - intros lines j url nxt Hi Hn. unfold url_step.
    assert (Hj : j < length lines).
    { unfold index in Hi. destruct (nth_error lines j) eqn:E; [|discriminate].
      apply nth_error_Some. congruence. }
    apply Nat.ltb_lt in Hj. rewrite Hj, Hi. cbn [bind].
    destruct (startswith (txt "https://") nxt); [reflexivity|].
    destruct (contains (txt " ") nxt); [reflexivity|].
    apply orb_true_iff in Hn. destruct Hn as [-> | ->]; [reflexivity|].
    destruct (startswith (txt "page ") (lower T nxt)); reflexivity.
  - intros title lines. apply pair_lines_from_total.
Qed.

Lemma pairer_noise_lines_witness :
  is_label ascii_tables (txt "Recipes") = true
  /\ pair_lines_from ascii_tables (Some (txt "Soup")) (txt "Recipes" :: [txt "https://x.example/"])
     = pair_lines_from ascii_tables None [txt "https://x.example/"].
Proof.
  assert (H : is_label ascii_tables (txt "Recipes") = true) by (vm_compute; reflexivity).
  split; [exact H|].
  exact (proj1 (proj2 (pairer_noise_lines ascii_tables))
           (Some (txt "Soup")) (txt "Recipes") [txt "https://x.example/"] H).
Defined.

(** ** The segmenter and the assembler *)

Section AssemblerFacts.

Variable T : Tables.
Variable X : Extern.

Lemma split_not_nil (sep : char) (s : str) : split sep s <> [].
Proof.
  destruct s as [|c t]; cbn; [discriminate|].
  destruct (c =? sep)%N; [discriminate|].
  destruct (split sep t); discriminate.
Qed.











Lemma outcomes_count (outs : list (RecipeDraft + FailureRecord)) :
  length (entries_of outs) + length (failures_of outs) = length outs.
Proof.
  unfold entries_of, failures_of.
  induction outs as [|[e|f] outs IH]; cbn [flat_map app length]; lia.
Qed.

(** A run of the loop that returns has one outcome for each pair. *)
Lemma main_loop_outcomes (pairs : list (str * str)) :
  forall idx st st',
    main_loop T X idx pairs st = Ok st' ->
    exists outs,
      Forall2 (fun item out => exists k, process_item T X k item = Ok out) pairs outs
      /\ st' = (fst st ++ entries_of outs, snd st ++ failures_of outs).
Proof.
  induction pairs as [|item pairs IH]; intros idx [results failures] st' H.
  - cbn [main_loop] in H. injection H as <-. exists []. split; [constructor|].
    cbn. rewrite !app_nil_r. reflexivity.
  - cbn [main_loop] in H.
    destruct (process_item T X idx item) as [out| |] eqn:E; cbn [bind] in H;
      try discriminate.
    cbn [fst snd] in *. destruct out as [entry|failure].
    + destruct (IH _ _ _ H) as [outs [Ho ->]].
      exists (inl entry :: outs). split; [constructor; eauto|].
      cbn. rewrite <- app_assoc. reflexivity.
    + destruct (IH _ _ _ H) as [outs [Ho ->]].
      exists (inr failure :: outs). split; [constructor; eauto|].
      cbn. rewrite <- app_assoc. reflexivity.
Qed.



(** The entry of an item without ingredients carries the note and the
    preview. *)
Lemma build_entry_degraded (title0 url description image_url : str)
    (og_url : option str) (entry : RecipeDraft) :
  build_entry T X title0 url description image_url og_url = Ok entry ->
  exists ingredients0 steps0,
    extract_recipe_content T description = Ok (ingredients0, steps0)
    /\ ingredients entry = map (to_ascii T) ingredients0
    /\ (ingredients0 = [] ->
        notes entry = Some NOTE
        /\ descriptionPreview entry = Some (preview_of T description))
    /\ (ingredients0 <> [] ->
        notes entry = None /\ descriptionPreview entry = None).
Proof.
  unfold build_entry. intros H.
  destruct (normalize_instagram_url X _) as [canonical| |]; cbn [bind] in H;
    try discriminate.
  destruct (extract_recipe_content T description) as [[ingredients0 steps0]| |];
    cbn [bind] in H; try discriminate.
  injection H as <-. exists ingredients0, steps0.
  cbn [ingredients notes descriptionPreview].
  split; [reflexivity|]. split; [reflexivity|].
  split; intros Hi.
  - subst ingredients0. cbn. split; reflexivity.
  - destruct ingredients0; [congruence|]. cbn. split; reflexivity.
Qed.

Lemma preview_of_length (description : str) :
  length (preview_of T description) <= 280.
Proof.
  unfold preview_of. apply firstn_le_length.
Qed.

Lemma process_item_entry (idx : nat) (title0 url : str) (entry : RecipeDraft) :
  process_item T X idx (title0, url) = Ok (inl entry) ->
  exists html_text description image_url,
    fetch_html X idx url = Ok (Some html_text)
    /\ extract_meta_value T X html_text (txt "og:description") = Some description
    /\ build_entry T X title0 url description image_url
         (extract_meta_value T X html_text (txt "og:url")) = Ok entry.
Proof.
  unfold process_item. intros H.
  destruct (fetch_html X idx url) as [[html_text|]| |] eqn:Ef;
    cbn [bind truthy negb] in H; try discriminate.
  destruct (negb (nonempty html_text)); [discriminate|].
  destruct (extract_meta_value T X html_text (txt "og:description"))
    as [description|] eqn:Em; cbn [truthy negb] in H; [|discriminate].
  destruct (negb (nonempty description)); [discriminate|].
  destruct (negb (truthy (or_else _ _))); [discriminate|].
  match type of H with
  | context [build_entry T X ?a ?b ?c ?d ?e] =>
      destruct (build_entry T X a b c d e) as [entry'| |] eqn:E;
      cbn [bind] in H; try discriminate;
      exists html_text, description, d
  end.
  injection H as <-. split; [reflexivity|]. split; [exact Em|exact E].
Qed.

End AssemblerFacts.



(** A run over two pairs of which the second has a URL with U+0000: the
    loop ends with the ValueError of subprocess.run, and the entry of the
    first pair is lost with it. *)
Example run_with_nul_url :
  run_assembler ascii_tables NUL_WORLD
    [(txt "Soup", txt "https://x.example/");
     (txt "Salad", txt "https://y.example/" ++ [0%N])]
  = Raise ValueError
  /\ run_assembler ascii_tables NUL_WORLD [(txt "Soup", txt "https://x.example/")]
     = Ok (SOUP_ENTRIES, []).
Proof.
  split; vm_compute; reflexivity.
Qed.

(** C1.  When the loop makes an entry of an item, the page of the item gave
    a description; if the extraction finds no ingredients in it, the entry
    has the note and a preview, the preview is the first four lines of the
    description joined by spaces, made ASCII and cut to 280 characters, and
    it is at most 280 characters long.  Every entry of a run that has no
    ingredients has the note and such a preview. *)
Theorem degraded_record :
  forall (T : Tables) (X : Extern),
    (forall idx title0 url entry,
        process_item T X idx (title0, url) = Ok (inl entry) ->
        exists html_text description ingredients0 steps0,
          fetch_html X idx url = Ok (Some html_text)
          /\ extract_meta_value T X html_text (txt "og:description") = Some description
          /\ extract_recipe_content T description = Ok (ingredients0, steps0)
          /\ (ingredients0 = [] ->
              notes entry = Some NOTE
              /\ descriptionPreview entry
                 = Some (firstn 280
                           (to_ascii T
                              (join (txt " ") (firstn 4 (splitlines description)))))
              /\ forall preview,
                   descriptionPreview entry = Some preview -> length preview <= 280))
    /\ (forall pairs results failures,
          run_assembler T X pairs = Ok (results, failures) ->
          Forall degraded_ok results).
Proof.
  intros T X.
  assert (Hitem : forall idx title0 url entry,
             process_item T X idx (title0, url) = Ok (inl entry) ->
             exists description ingredients0 steps0,
               extract_recipe_content T description = Ok (ingredients0, steps0)
               /\ ingredients entry = map (to_ascii T) ingredients0
               /\ (ingredients0 = [] ->
                   notes entry = Some NOTE
                   /\ descriptionPreview entry = Some (preview_of T description))).
  { intros idx title0 url entry H.
    destruct (process_item_entry T X idx title0 url entry H)
      as [html_text [description [image_url [_ [_ Hb]]]]].
    destruct (build_entry_degraded T X _ _ _ _ _ _ Hb)
      as [ingredients0 [steps0 [Hc [Hi [Hd _]]]]].
    exists description, ingredients0, steps0. auto. }
  split.
  - intros idx title0 url entry H.
    destruct (process_item_entry T X idx title0 url entry H)
      as [html_text [description [image_url [Hf [Hm Hb]]]]].
    destruct (build_entry_degraded T X _ _ _ _ _ _ Hb)
      as [ingredients0 [steps0 [Hc [_ [Hd _]]]]].
    exists html_text, description, ingredients0, steps0.
    split; [exact Hf|]. split; [exact Hm|]. split; [exact Hc|].
    intros Hi. destruct (Hd Hi) as [Hn Hp].
    split; [exact Hn|]. split; [exact Hp|].
    intros preview Hq. rewrite Hp in Hq. injection Hq as <-.
    apply preview_of_length.
  - intros pairs results failures H.
    destruct (main_loop_outcomes T X pairs 1 ([], []) _ H) as [outs [Ho E]].
    cbn [fst snd app] in E. injection E as -> _. clear H.
    induction Ho as [|[title0 url] out pairs outs [k Hk] Ho IH]; [constructor|].
    destruct out as [entry|failure]; cbn [entries_of]; [|exact IH].
    constructor; [|exact IH].
    destruct (Hitem k title0 url entry Hk)
      as [description [ingredients0 [steps0 [_ [Hi Hd]]]]].
    intros He. rewrite Hi in He.
    assert (ingredients0 = []) as Hnil by (destruct ingredients0; [reflexivity|discriminate]).
    destruct (Hd Hnil) as [Hn Hp]. split; [exact Hn|].
    exists (preview_of T description). split; [exact Hp|apply preview_of_length].
Qed.

Lemma degraded_record_witness :
  run_assembler ascii_tables SOUP_WORLD SOUP_PAIRS = Ok (SOUP_ENTRIES, [])
  /\ Forall degraded_ok SOUP_ENTRIES.
Proof.
  assert (H : run_assembler ascii_tables SOUP_WORLD SOUP_PAIRS = Ok (SOUP_ENTRIES, []))
    by (vm_compute; reflexivity).
  split; [exact H|].
  exact (proj2 (degraded_record ascii_tables SOUP_WORLD) SOUP_PAIRS SOUP_ENTRIES [] H).
Defined.

Example soup_entry_fields :
  map ingredients SOUP_ENTRIES = [[]]
  /\ map notes SOUP_ENTRIES = [Some (txt "Ingredients not detected automatically.")]
  /\ map descriptionPreview SOUP_ENTRIES = [Some (txt "Just a tasty soup")].
Proof.
  repeat split; vm_compute; reflexivity.
Qed.

(** C3.  On the lines Ingredients:, - 2 cups flour, - 1 egg, Method, Mix
    well the extraction gives the ingredients 2 cups flour and 1 egg and
    stops at index 3, where the line Method is. *)
Theorem extract_ingredients_flour_egg :
  forall T : Tables,
    extract_ingredients_section T FLOUR_EGG
    = Ok ([txt "2 cups flour"; txt "1 egg"], 3)
    /\ index FLOUR_EGG 3 = Ok (txt "Method").
Proof.
  intros T. split; vm_compute; reflexivity.
Qed.

(** ** The classifier *)

Lemma str_eqb_eq (a b : str) : str_eqb a b = true <-> a = b.
Proof.
  unfold str_eqb. destruct (list_eq_dec N.eq_dec a b); split; congruence.
Qed.

Lemma set_mem_In (x : str) (s : list str) : set_mem x s = true <-> In x s.
Proof.
  unfold set_mem. rewrite existsb_exists. split.
  - intros [y [Hy E]]. apply str_eqb_eq in E. subst. exact Hy.
  - intros H. exists x. split; [exact H|]. apply str_eqb_eq. reflexivity.
Qed.

Lemma In_set_add (x y : str) (s : list str) : In x (set_add y s) <-> x = y \/ In x s.
Proof.
  unfold set_add. destruct (set_mem y s) eqn:E.
  - apply set_mem_In in E. split; [auto|]. intros [->|H]; assumption.
  - rewrite in_app_iff. cbn. split; [intros [H|[H|[]]]|intros [H|H]]; auto.
Qed.

Lemma In_add_if (x : str) (c : bool) (t : str) (s : list str) :
  In x (add_if c t s) <-> (c = true /\ x = t) \/ In x s.
Proof.
  unfold add_if. destruct c.
  - rewrite In_set_add. split; [intros [H|H]|intros [[_ H]|H]]; auto.
  - split; [auto|]. intros [[H _]|H]; [discriminate|assumption].
Qed.

Lemma In_insert_sorted (x y : str) (l : list str) :
  In x (insert_sorted y l) <-> x = y \/ In x l.
Proof.
  induction l as [|z l IH]; cbn.
  - split; [intros [H|[]]|intros [H|[]]]; auto.
  - destruct (str_leb y z); cbn; [|rewrite IH];
      split; intros H; repeat destruct H as [H|H]; auto.
Qed.

Lemma In_sorted (x : str) (l : list str) : In x (sorted l) <-> In x l.
Proof.
  induction l as [|y l IH]; cbn; [reflexivity|].
  rewrite In_insert_sorted, IH. split; intros [H|H]; auto.
Qed.

Section ClassifierFacts.

Variable T : Tables.

Lemma In_add_matching (x text : str) (table : list (str * list str)) :
  forall tags,
    In x (add_matching T text table tags)
    <-> (exists kws, In (x, kws) table /\ existsb (keyword_in_text T text) kws = true)
        \/ In x tags.
Proof.
  unfold add_matching.
  induction table as [|[tag kws] table IH]; intros tags; cbn [fold_left fst snd].
  - split; [auto|]. intros [[k [[] _]]|H]; assumption.
  - rewrite IH. split.
    + intros [[k [Hk E]]|H].
      * left. exists k. split; [right; exact Hk|exact E].
      * destruct (existsb (keyword_in_text T text) kws) eqn:Ek; [|auto].
        apply In_set_add in H. destruct H as [->|H]; [|auto].
        left. exists kws. split; [left; reflexivity|exact Ek].
    + intros [[k [[Hk|Hk] E]]|H].
      * injection Hk as <- <-. right. rewrite E. apply In_set_add. auto.
      * left. eauto.
      * right. destruct (existsb (keyword_in_text T text) kws); [|exact H].
        apply In_set_add. auto.
Qed.

(** The tag vegetarian is there exactly when no meat keyword is found. *)
Lemma vegetarian_iff (title : str) (ingredients : list str) :
  In (txt "vegetarian") (infer_tags T title ingredients)
  <-> meat_present T (blob T title ingredients) = false.
Proof.
  unfold infer_tags. rewrite In_sorted.
  rewrite In_add_if, In_add_if, In_add_if, In_add_if, In_add_matching,
    In_add_if, In_add_if, In_add_if, In_add_matching.
  cbn [In]. rewrite negb_true_iff.
  split.
  - intros H.
    repeat match goal with
           | H : _ \/ _ |- _ => destruct H as [H|H]
           | H : _ /\ _ |- _ => destruct H as [? H]
           | H : exists _, _ |- _ => destruct H as [? H]
           | H : False |- _ => destruct H
           | H : In _ _ |- _ => cbn in H
           | H : (_, _) = (_, _) |- _ => discriminate H
           | H : txt _ = txt _ |- _ => discriminate H
           end; try assumption; try discriminate.
  - intros H. right. left. split; [exact H|reflexivity].
Qed.

End ClassifierFacts.

Section ClassifierExamples.

Variable T : Tables.

Lemma beef_stew_keywords (ingredients : list str) :
  keyword_in_text T (blob T (txt "Beef Stew") ingredients) (txt "beef") = true
  /\ keyword_in_text T (blob T (txt "Beef Stew") ingredients) (txt "stew") = true.
Proof.
  split; vm_compute; reflexivity.
Qed.

Lemma garden_salad_keyword (ingredients : list str) :
  keyword_in_text T (blob T (txt "Garden Salad") ingredients) (txt "salad") = true.
Proof.
  vm_compute; reflexivity.
Qed.

Lemma In_infer_tags_course (title : str) (ingredients : list str) (tag : str)
    (kws : list str) :
  In (tag, kws) COURSE_KEYWORDS ->
  existsb (keyword_in_text T (blob T title ingredients)) kws = true ->
  In tag (infer_tags T title ingredients).
Proof.
  intros Hin Hk. unfold infer_tags. rewrite In_sorted.
  rewrite In_add_if, In_add_if, In_add_if, In_add_if, In_add_matching.
  right. right. right. right. left. exists kws. split; assumption.
Qed.

Lemma meat_present_false (text : str) :
  meat_present T text = false
  <-> forall kw, In kw MEAT_KEYWORDS -> keyword_in_text T text kw = false.
Proof.
  unfold meat_present. split.
  - intros H kw Hk. destruct (keyword_in_text T text kw) eqn:E; [|reflexivity].
    assert (existsb (keyword_in_text T text) MEAT_KEYWORDS = true)
      by (apply existsb_exists; eauto).
    congruence.
  - intros H. destruct (existsb (keyword_in_text T text) MEAT_KEYWORDS) eqn:E;
      [|reflexivity].
    apply existsb_exists in E. destruct E as [kw [Hk E]].
    rewrite (H kw Hk) in E. discriminate.
Qed.

End ClassifierExamples.

(** C6, as the code has it.  The tag vegetarian is in the tags exactly when
    keyword_in_text finds no keyword of MEAT_KEYWORDS in the lower-cased
    text of title and ingredients, where a keyword of one word is matched
    between word boundaries with an optional plural s and a keyword with a
    space in it (short rib, short ribs) is matched as a substring.  With
    the title Beef Stew the tags hold stew and never vegetarian, whatever
    the ingredients; with the title Garden Salad and no meat keyword found
    the tags hold vegetarian, and when no meal type was found before the
    fallback the meal types are lunch alone. *)
Theorem vegetarian_tag :
  forall T : Tables,
    (forall title ingredients,
        In (txt "vegetarian") (infer_tags T title ingredients)
        <-> forall kw, In kw MEAT_KEYWORDS ->
                       keyword_in_text T (blob T title ingredients) kw = false)
    /\ (forall text kw,
          keyword_in_text T text kw
          = if contains (txt " ") kw then contains kw text
            else word_boundary_match T text kw)
    /\ (forall ingredients,
          In (txt "stew") (infer_tags T (txt "Beef Stew") ingredients)
          /\ ~ In (txt "vegetarian") (infer_tags T (txt "Beef Stew") ingredients))
    /\ (forall ingredients,
          (forall kw, In kw MEAT_KEYWORDS ->
                      keyword_in_text T (blob T (txt "Garden Salad") ingredients) kw
                      = false) ->
          In (txt "vegetarian") (infer_tags T (txt "Garden Salad") ingredients)
          /\ forall tags,
               explicit_meal_types T (blob T (txt "Garden Salad") ingredients)
                 (lowered T tags) = [] ->
               infer_meal_types T (txt "Garden Salad") ingredients tags
               = [txt "lunch"])
    /\ infer_tags T (txt "Beef Stew") [] = [txt "stew"]
    /\ infer_tags T (txt "Garden Salad") [] = [txt "salad"; txt "vegetarian"]
    /\ infer_meal_types T (txt "Garden Salad") []
         (infer_tags T (txt "Garden Salad") []) = [txt "lunch"].
Proof.
  intros T.
  assert (Hveg : forall title ingredients,
             In (txt "vegetarian") (infer_tags T title ingredients)
             <-> forall kw, In kw MEAT_KEYWORDS ->
                            keyword_in_text T (blob T title ingredients) kw = false).
  { intros title ingredients. rewrite vegetarian_iff. apply meat_present_false. }
  split; [exact Hveg|]. split; [reflexivity|]. split; [|split].
  - intros ingredients.
    destruct (beef_stew_keywords T ingredients) as [Hbeef Hstew]. split.
    + apply In_infer_tags_course with (kws := map txt ["stew"; "braise"]%string).
      * cbn. auto 10.
      * cbn [map existsb]. rewrite Hstew. reflexivity.
    + rewrite Hveg. intros H.
      rewrite (H (txt "beef")) in Hbeef; [discriminate|].
      cbn. auto.
  - intros ingredients Hmeat. split; [apply Hveg; exact Hmeat|].
    intros tags He. unfold infer_meal_types. rewrite He.
    cbn [nonempty negb]. rewrite garden_salad_keyword, orb_true_r.
    reflexivity.
  - repeat split; vm_compute; reflexivity.
Qed.

Lemma vegetarian_tag_witness :
  (forall kw, In kw MEAT_KEYWORDS ->
              keyword_in_text ascii_tables (blob ascii_tables (txt "Garden Salad") []) kw
              = false)
  /\ In (txt "vegetarian") (infer_tags ascii_tables (txt "Garden Salad") []).
Proof.
  assert (H : forall kw, In kw MEAT_KEYWORDS ->
              keyword_in_text ascii_tables (blob ascii_tables (txt "Garden Salad") []) kw
              = false).
  { apply meat_present_false. vm_compute. reflexivity. }
  split; [exact H|].
  exact (proj1 (proj1 (proj2 (proj2 (proj2 (vegetarian_tag ascii_tables)))) [] H)).
Defined.

Lemma vegetarian_tag_counterexample :
  forallb (fun kw => negb (word_boundary_match ascii_tables
                             (blob ascii_tables (txt "Short Ribbon Salad") []) kw))
    MEAT_KEYWORDS = true
  /\ keyword_in_text ascii_tables (blob ascii_tables (txt "Short Ribbon Salad") [])
       (txt "short rib") = true
  /\ infer_tags ascii_tables (txt "Short Ribbon Salad") [] = [txt "salad"]
  /\ ~ In (txt "vegetarian") (infer_tags ascii_tables (txt "Short Ribbon Salad") []).
Proof.
  repeat split; try (vm_compute; reflexivity).
  vm_compute. intros [H|[]]. discriminate H.
Qed.

(** ** The tokenizer *)

Lemma map_res_total {A B} (f : A -> res B) (l : list A) :
  (forall x, exists y, f x = Ok y) -> exists ys, map_res f l = Ok ys.
Proof.
  intros Hf. induction l as [|x l [ys IH]]; cbn; [eauto|].
  destruct (Hf x) as [y ->]. cbn [bind]. rewrite IH. cbn [bind]. eauto.
Qed.

Lemma map_res_Forall {A B} (f : A -> res B) (P : B -> Prop) (l : list A) :
  (forall x y, f x = Ok y -> P y) ->
  forall ys, map_res f l = Ok ys -> Forall P ys.
Proof.
  intros Hf. induction l as [|x l IH]; cbn; intros ys H.
  - injection H as <-. constructor.
  - destruct (f x) as [y| |] eqn:E; cbn [bind] in H; try discriminate.
    destruct (map_res f l) as [ys'| |]; cbn [bind] in H; try discriminate.
    injection H as <-. constructor; eauto.
Qed.

Section SearchFacts.

Variable T : Tables.
Variable icase : bool.

(** A pattern that begins with a character of a class finds nothing in a
    text without such a character. *)
Lemma match_at_wrong_start (c : cls) (a b : regex) (sn : str) (p : nat) (s : str) :
  match s with
  | x :: _ => cls_match T icase c x = false
  | [] => True
  end ->
  match_at T icase (Cat (Cat (Chr c) a) b) sn p s = None.
Proof.
  intros H. unfold match_at. cbn [rmatch rest].
  destruct s as [|x t]; [reflexivity|]. rewrite H. reflexivity.
Qed.

Lemma search_from_skip (c : cls) (a b : regex) (s : str) :
  Forall (fun x => cls_match T icase c x = false) s ->
  forall sn p tail,
    search_from T icase (Cat (Cat (Chr c) a) b) sn p (s ++ tail)
    = search_from T icase (Cat (Cat (Chr c) a) b) (rev s ++ sn) (length s + p) tail.
Proof.
  induction 1 as [|x s Hx Hs IH]; intros sn p tail; [reflexivity|].
  cbn [app]. cbn [search_from].
  rewrite match_at_wrong_start by (cbn; exact Hx).
  rewrite IH. cbn [rev length]. rewrite <- app_assoc. cbn [app].
  f_equal. lia.
Qed.

Lemma search_from_nothing (c : cls) (a b : regex) (s : str) :
  Forall (fun x => cls_match T icase c x = false) s ->
  forall sn p, search_from T icase (Cat (Cat (Chr c) a) b) sn p s = None.
Proof.
  intros H sn p. rewrite <- (app_nil_r s), search_from_skip by assumption.
  cbn [search_from]. rewrite match_at_wrong_start by exact I. reflexivity.
Qed.


End SearchFacts.

Section TokenizerFacts.

Variable T : Tables.
Variable X : Extern.

Lemma stream_texts_total (content : str) :
  exists texts,
    stream_texts T content = Ok texts
    /\ Forall (fun text => strip text <> []) texts.
Proof.
  unfold stream_texts.
  destruct (map_res_total
              (fun array =>
                 parts <- map_res decode_pdf_string (re_findall T false LITERAL_RE array) ;;
                 Ok (concat parts))
              (re_findall T false TJ_ARRAY_RE content)) as [arrays ->].
  { intros array.
    destruct (map_res_total decode_pdf_string (re_findall T false LITERAL_RE array))
      as [parts ->].
    - intros x. eexists. apply decode_pdf_string_decoded.
    - cbn [bind]. eauto. }
  cbn [bind].
  destruct (map_res_total decode_pdf_string (re_findall T false TJ_STRING_RE content))
    as [strings ->].
  { intros x. eexists. apply decode_pdf_string_decoded. }
  cbn [bind]. eexists. split; [reflexivity|].
  apply Forall_app. split; apply Forall_forall; intros text Ht;
    apply filter_In in Ht; destruct Ht as [_ Ht];
    destruct (strip text); [discriminate| discriminate |discriminate|discriminate].
Qed.

Lemma read_texts_total (streams : list str) :
  exists texts,
    read_texts T streams = Ok texts
    /\ Forall (fun text => strip text <> []) texts.
Proof.
  unfold read_texts.
  destruct (map_res_total (stream_texts T) streams) as [per_stream E].
  { intros content. destruct (stream_texts_total content) as [texts [Ht _]]. eauto. }
  rewrite E. cbn [bind]. eexists. split; [reflexivity|].
  apply Forall_concat.
  eapply map_res_Forall; [|exact E].
  intros content texts Ht.
  destruct (stream_texts_total content) as [texts' [Ht' Hf]]. congruence.
Qed.



End TokenizerFacts.



(** A document with one literal stream, and what the tokenizer and the
    pairer make of it *)
Example tokenize_soup :
  forall T : Tables,
    tokenize T SOUP_WORLD SOUP_DOCUMENT
    = Ok [txt "Tomato Soup"; txt "https://x."; txt "example/"]
    /\ parse_pdf_pairs T SOUP_WORLD SOUP_DOCUMENT
       = Ok [(txt "Tomato Soup", txt "https://x.example/")].
Proof.
  intros T. split; vm_compute; reflexivity.
Qed.


(** ** The meta-tag resolver *)

Section ResolverFacts.

Variable T : Tables.
Variable X : Extern.

Lemma no_lt_Forall (s : str) :
  mem (ch "<") s = false ->
  Forall (fun x => cls_match T true (CChar (ch "<")) x = false) s.
Proof.
  unfold mem. induction s as [|x s IH]; cbn [existsb]; intros H; constructor.
  - apply orb_false_iff in H. destruct H as [H _].
    cbn. rewrite N.eqb_sym. exact H.
  - apply IH. apply orb_false_iff in H. tauto.
Qed.

(** The search for a meta tag passes over a text without a less-than sign. *)
Lemma meta_search_skip (attr value s : str) :
  mem (ch "<") s = false ->
  forall sn p tail,
    search_from T true (_meta_regex attr value) sn p (s ++ tail)
    = search_from T true (_meta_regex attr value) (rev s ++ sn) (length s + p) tail.
Proof.
  intros H sn p tail.
  change (_meta_regex attr value)
    with (Cat (Cat (Chr (CChar (ch "<"))) (lit (txt "meta")))
              (seq [star (CSet true (txt ">")); lit attr; star CSpace;
                    lit (txt "="); star CSpace; Grp 1 (Chr QUOTES); lit value; Ref 1;
                    star (CSet true (txt ">")); lit (txt ">")])).
  apply search_from_skip. apply no_lt_Forall. exact H.
Qed.

Lemma meta_search_nothing (attr value s : str) :
  mem (ch "<") s = false ->
  forall sn p, search_from T true (_meta_regex attr value) sn p s = None.
Proof.
  intros H sn p.
  change (_meta_regex attr value)
    with (Cat (Cat (Chr (CChar (ch "<"))) (lit (txt "meta")))
              (seq [star (CSet true (txt ">")); lit attr; star CSpace;
                    lit (txt "="); star CSpace; Grp 1 (Chr QUOTES); lit value; Ref 1;
                    star (CSet true (txt ">")); lit (txt ">")])).
  apply search_from_nothing. apply no_lt_Forall. exact H.
Qed.


Lemma first_candidate_miss (attr value : str) (candidates : list (str * str))
    (snippet base_url : str) :
  re_search T true (_meta_regex attr value) snippet = None ->
  first_candidate T X ((attr, value) :: candidates) snippet base_url
  = first_candidate T X candidates snippet base_url.
Proof.
  intros H. cbn [first_candidate]. rewrite H. reflexivity.
Qed.


End ResolverFacts.

(** ** More on the decoder *)

(** X1.  A literal without a backslash decodes to itself. *)
Theorem decode_pdf_string_plain :
  forall data : str,
    mem BACKSLASH data = false -> decode_pdf_string data = Ok data.
Proof.
  intros data H. rewrite decode_pdf_string_decoded. f_equal.
  induction data as [|c t IH]; [reflexivity|].
  unfold mem in H. cbn [existsb] in H. apply orb_false_iff in H.
  destruct H as [Hc Ht]. cbn [decoded]. rewrite N.eqb_sym, Hc.
  rewrite IH by exact Ht. reflexivity.
Qed.

Lemma decode_pdf_string_plain_witness :
  mem BACKSLASH (txt "Tomato Soup") = false
  /\ decode_pdf_string (txt "Tomato Soup") = Ok (txt "Tomato Soup").
Proof.
  assert (H : mem BACKSLASH (txt "Tomato Soup") = false) by reflexivity.
  split; [exact H|]. exact (decode_pdf_string_plain (txt "Tomato Soup") H).
Defined.

Lemma decoded_length :
  forall n data, length data <= n -> length (decoded data) <= length data.
Proof.
  induction n as [|n IH]; intros data Hn.
  { destruct data; [cbn; lia|cbn in Hn; lia]. }
  destruct data as [|c t]; [cbn; lia|].
  cbn [length] in Hn. cbn [decoded].
  destruct (c =? BACKSLASH)%N.
  2:{ cbn [length]. specialize (IH t). lia. }
  destruct t as [|esc t1]; [cbn; lia|].
  cbn [length] in Hn.
  assert (H1 : length (decoded t1) <= length t1) by (apply IH; lia).
  destruct (mem esc [ch "("; ch ")"; BACKSLASH]); [cbn [length]; lia|].
  do 5 (match goal with
        | |- context [if (?a =? ?b)%N then _ else _] =>
            destruct (a =? b)%N; [cbn [length]; lia|]
        end).
  destruct (mem esc OCTAL); [|cbn [length]; lia].
  destruct t1 as [|d1 t2]; [cbn; lia|].
  cbn [length] in Hn.
  destruct (mem d1 OCTAL); [|cbn [length] in *; lia].
  destruct t2 as [|d2 t3]; [cbn; lia|].
  cbn [length] in Hn.
  assert (H2 : length (decoded (d2 :: t3)) <= length (d2 :: t3))
    by (apply IH; cbn [length]; lia).
  assert (H3 : length (decoded t3) <= length t3) by (apply IH; lia).
  destruct (mem d2 OCTAL); cbn [length] in *; lia.
Qed.

(** X2.  The decoded text is never longer than the literal. *)
Theorem decode_pdf_string_length :
  forall data : str,
    exists out, decode_pdf_string data = Ok out /\ length out <= length data.
Proof.
  intros data. exists (decoded data). split; [apply decode_pdf_string_decoded|].
  apply decoded_length with (n := length data). lia.
Qed.

(** ** More on the pairer *)

Lemma startswith_app (p u x : str) :
  startswith p u = true -> startswith p (u ++ x) = true.
Proof.
  revert u. induction p as [|a p IH]; intros u H; [reflexivity|].
  destruct u as [|b u]; [discriminate|].
  cbn in *. apply andb_true_iff in H. destruct H as [-> H]. cbn. auto.
Qed.

Section PairerInvariants.

Variable T : Tables.

Lemma url_loop_invariant (lines : list str) (i : nat) (line : str) :
  i < length lines -> startswith (txt "https://") line = true ->
  exists j url,
    loop (S (length lines)) (url_step T lines) (i + 1, line) = Ok (j, url)
    /\ i + 1 <= j <= length lines
    /\ startswith (txt "https://") url = true.
Proof.
  intros Hi Hs.
  destruct (loop_total (url_step T lines)
              (fun st => length lines - fst st)
              (fun st => i + 1 <= fst st <= length lines
                         /\ startswith (txt "https://") (snd st) = true))
    with (f := S (length lines)) (s := (i + 1, line)) as [[j url] [E Hj]].
  - intros [k u] [Hk Hu]. cbn [fst snd] in Hk, Hu. unfold url_step.
    destruct (k <? length lines) eqn:Ek;
      [|left; eexists; split; [reflexivity|cbn [fst snd]; auto]].
    apply Nat.ltb_lt in Ek.
    destruct (index_in_range lines k Ek) as [nxt ->]. cbn [bind].
    repeat match goal with
           | |- context [if ?b then _ else _] =>
               destruct b; [left; eexists; split; [reflexivity|cbn [fst snd]; auto]|]
           end.
    right. eexists. split; [reflexivity|]. cbn [fst snd].
    split; [split; [lia|apply startswith_app; exact Hu]|lia].
  - cbn [fst snd]. split; [lia|exact Hs].
  - cbn [fst]. lia.
  - exists j, url. cbn [fst snd] in Hj. tauto.
Qed.

Lemma pair_loop_invariant (lines : list str) :
  exists st,
    loop (S (length lines)) (pair_step T lines)
      {| p_i := 0; p_title := None; p_pairs := [] |} = Ok st
    /\ pairer_inv T lines st.
Proof.
  apply (loop_total (pair_step T lines) (fun st => length lines - p_i st)
           (pairer_inv T lines)).
  - intros [i title pairs] [Hi [Hp [Ht Hc]]].
    cbn [p_i p_title p_pairs] in Hi, Hp, Ht, Hc.
    unfold pair_step. cbn [p_i p_title p_pairs].
    destruct (i <? length lines) eqn:Ei.
    2:{ left. eexists. split; [reflexivity|].
        unfold pairer_inv. cbn [p_i p_title p_pairs]. auto. }
    apply Nat.ltb_lt in Ei.
    destruct (index_in_range lines i Ei) as [line Hline]. rewrite Hline.
    cbn [bind].
    assert (Hin : In line lines).
    { unfold index in Hline. destruct (nth_error lines i) eqn:E; [|discriminate].
      injection Hline as <-. eapply nth_error_In; eauto. }
    assert (Hcount : 2 * length pairs <= i) by lia.
    destruct (is_label T line) eqn:El.
    { right. eexists. split; [reflexivity|]. split; [|cbn [p_i]; lia].
      unfold pairer_inv; cbn [p_i p_title p_pairs pending].
      split; [lia|]. split; [exact Hp|]. split; [intros t Hd; discriminate|lia]. }
    destruct (is_datetime T line) eqn:Ed.
    { right. eexists. split; [reflexivity|]. split; [|cbn [p_i]; lia].
      unfold pairer_inv; cbn [p_i p_title p_pairs].
      split; [lia|]. split; [exact Hp|]. split; [exact Ht|lia]. }
    destruct (startswith (txt "https://") line) eqn:Es.
    2:{ right. eexists. split; [reflexivity|]. split; [|cbn [p_i]; lia].
        unfold pairer_inv; cbn [p_i p_title p_pairs pending].
        split; [lia|]. split; [exact Hp|]. split; [|lia].
        intros t Hd. injection Hd as <-. unfold title_line, is_noise.
        rewrite El, Ed. auto. }
    destruct (url_loop_invariant lines i line Ei Es) as [j [url [E [Hj Hu]]]].
    rewrite E. cbn [bind].
    destruct title as [t|].
    + cbn [pending] in Hc.
      destruct (nonempty t && nonempty url) eqn:En.
      * right. eexists. split; [reflexivity|]. split; [|cbn [p_i]; lia].
        unfold pairer_inv; cbn [p_i p_title p_pairs pending].
        split; [lia|]. split; [|split; [intros t' Hd; discriminate|]].
        -- apply Forall_app. split; [assumption|]. constructor; [|constructor].
           unfold pair_ok. cbn [fst snd]. split; [apply Ht; reflexivity|].
           split; [|exact Hu]. apply andb_true_iff in En. destruct En as [En _].
           destruct t; [discriminate|discriminate].
        -- rewrite length_app. cbn [length]. lia.
      * right. eexists. split; [reflexivity|]. split; [|cbn [p_i]; lia].
        unfold pairer_inv; cbn [p_i p_title p_pairs pending].
        split; [lia|]. split; [exact Hp|]. split; [exact Ht|lia].
    + right. eexists. split; [reflexivity|]. split; [|cbn [p_i]; lia].
      unfold pairer_inv; cbn [p_i p_title p_pairs pending].
      split; [lia|]. split; [exact Hp|]. split; [intros t Hd; discriminate|lia].
  - unfold pairer_inv. cbn [p_i p_title p_pairs pending length].
    split; [lia|]. split; [constructor|]. split; [intros t Hd; discriminate|lia].
  - cbn. lia.
Qed.

End PairerInvariants.

Lemma pair_lines_pairs_ok_aux (T : Tables) (lines : list str) :
  exists pairs,
    pair_lines T lines = Ok pairs /\ Forall (pair_ok T lines) pairs.
Proof.
  destruct (pair_loop_invariant T lines) as [st [E [_ [Hp _]]]].
  exists (p_pairs st). unfold pair_lines, pair_lines_from. rewrite E.
  split; [reflexivity|exact Hp].
Qed.

(** X3.  The pairer returns its pairs for every list of lines, and in every
    pair the title is one of the lines, is not empty, is neither a noise
    line nor a URL, and the URL begins with https://. *)
Theorem pair_lines_pairs_ok :
  forall (T : Tables) (lines : list str),
  exists pairs,
    pair_lines T lines = Ok pairs
    /\ Forall (fun pr =>
                 In (fst pr) lines /\ fst pr <> []
                 /\ is_noise T (fst pr) = false
                 /\ startswith (txt "https://") (fst pr) = false
                 /\ startswith (txt "https://") (snd pr) = true) pairs.
Proof.
  intros T lines. destruct (pair_loop_invariant T lines) as [st [E [_ [Hp _]]]].
  exists (p_pairs st). unfold pair_lines, pair_lines_from. rewrite E.
  split; [reflexivity|].
  eapply Forall_impl; [|exact Hp].
  intros [t u] [[H1 [H2 H3]] [H4 H5]]. cbn [fst snd] in *. auto.
Qed.

(** X4.  Every pair takes at least two lines: the pairs are at most half
    as many as the lines. *)
Theorem pair_lines_count :
  forall (T : Tables) (lines : list str),
  exists pairs,
    pair_lines T lines = Ok pairs /\ 2 * length pairs <= length lines.
Proof.
  intros T lines. destruct (pair_loop_invariant T lines) as [st [E [Hi [_ [_ Hc]]]]].
  exists (p_pairs st). unfold pair_lines, pair_lines_from. rewrite E.
  split; [reflexivity|]. lia.
Qed.

(** X5.  A title line takes the place of the title that was pending: only
    the last title before a URL is kept. *)
Theorem pair_lines_title_overwrites :
  forall (T : Tables) (title : option str) (t : str) (rest : list str),
    is_noise T t = false -> startswith (txt "https://") t = false ->
    pair_lines_from T title (t :: rest) = pair_lines_from T (Some t) rest.
Proof.
  intros T title t rest Hn Hs. apply pair_lines_from_skip.
  unfold is_noise in Hn. apply orb_false_iff in Hn. destruct Hn as [Hl Hd].
  unfold pair_step. cbn [p_i p_title p_pairs length Nat.ltb Nat.leb index nth_error bind].
  rewrite Hl, Hd, Hs. reflexivity.
Qed.

Lemma pair_lines_title_overwrites_witness :
  is_noise ascii_tables (txt "Soup") = false
  /\ pair_lines_from ascii_tables (Some (txt "Old"))
       (txt "Soup" :: [txt "https://x.example/"])
     = pair_lines_from ascii_tables (Some (txt "Soup")) [txt "https://x.example/"].
Proof.
  split; [reflexivity|].
  exact (pair_lines_title_overwrites ascii_tables (Some (txt "Old")) (txt "Soup")
           [txt "https://x.example/"] eq_refl eq_refl).
Defined.

(** X6.  Lines that are all URLs give no pair: a URL without a title before
    it is dropped. *)
Theorem pair_lines_orphan_urls :
  forall (T : Tables) (lines : list str),
    (forall l, In l lines -> startswith (txt "https://") l = true) ->
    pair_lines T lines = Ok [].
Proof.
  intros T lines H. destruct (pair_lines_pairs_ok_aux T lines) as [pairs [E Hp]].
  rewrite E. destruct pairs as [|[t u] pairs]; [reflexivity|].
  inversion Hp as [|x l [[Hin [_ Hs]] _] _]; subst. cbn [fst] in *.
  rewrite (H t Hin) in Hs. discriminate.
Qed.

Lemma pair_lines_orphan_urls_witness :
  pair_lines ascii_tables [txt "https://x.example/"; txt "https://y.example/"] = Ok [].
Proof.
  apply pair_lines_orphan_urls.
  intros l [<-|[<-|[]]]; reflexivity.
Defined.

(** ** Lines *)

Lemma lstrip_by_head (p : char -> bool) (s : str) (x : char) (t : str) :
  lstrip_by p s = x :: t -> p x = false.
Proof.
  induction s as [|c s IH]; cbn; [discriminate|].
  destruct (p c) eqn:E; [exact IH|]. intros H. injection H as <- _. exact E.
Qed.

Lemma lstrip_by_split (p : char -> bool) (s : str) :
  exists w, s = w ++ lstrip_by p s.
Proof.
  induction s as [|c s [w IH]]; cbn; [exists []; reflexivity|].
  destruct (p c); [|exists []; reflexivity].
  exists (c :: w). cbn. f_equal. exact IH.
Qed.

Lemma lstrip_by_fixed (p : char -> bool) (s : str) :
  match s with x :: _ => p x = false | [] => True end -> lstrip_by p s = s.
Proof.
  destruct s as [|x t]; cbn; [reflexivity|]. intros ->. reflexivity.
Qed.

Lemma strip_by_idempotent (p : char -> bool) (s : str) :
  strip_by p (strip_by p s) = strip_by p s.
Proof.
  unfold strip_by, rstrip_by.
  set (a := lstrip_by p s). set (q := lstrip_by p (rev a)).
  assert (Hq : match q with x :: _ => p x = false | [] => True end).
  { destruct q as [|x t] eqn:E; [exact I|]. eapply lstrip_by_head. exact E. }
  assert (Hr : match rev q with x :: _ => p x = false | [] => True end).
  { destruct (lstrip_by_split p (rev a)) as [w Hw]. fold q in Hw.
    assert (Ha : a = rev q ++ rev w).
    { rewrite <- (rev_involutive a), Hw, rev_app_distr. reflexivity. }
    destruct (rev q) as [|x t] eqn:E; [exact I|].
    rewrite Ha in *. cbn in *. eapply (lstrip_by_head p s). exact Ha. }
  rewrite (lstrip_by_fixed p (rev q) Hr), rev_involutive.
  rewrite (lstrip_by_fixed p q Hq). reflexivity.
Qed.

Lemma mem_app (c : char) (a b : str) : mem c (a ++ b) = mem c a || mem c b.
Proof. unfold mem. apply existsb_app. Qed.

Lemma mem_rev (c : char) (a : str) : mem c (rev a) = mem c a.
Proof.
  induction a as [|x a IH]; [reflexivity|].
  cbn [rev]. rewrite mem_app, IH. unfold mem. cbn. rewrite orb_false_r, orb_comm.
  reflexivity.
Qed.

Lemma mem_lstrip_by (p : char -> bool) (c : char) (s : str) :
  mem c s = false -> mem c (lstrip_by p s) = false.
Proof.
  intros H. destruct (lstrip_by_split p s) as [w Hw].
  rewrite Hw, mem_app in H. apply orb_false_iff in H. tauto.
Qed.

Lemma mem_strip_by (p : char -> bool) (c : char) (s : str) :
  mem c s = false -> mem c (strip_by p s) = false.
Proof.
  intros H. unfold strip_by, rstrip_by.
  rewrite mem_rev. apply mem_lstrip_by. rewrite mem_rev.
  apply mem_lstrip_by. exact H.
Qed.

Lemma split_no_sep (sep : char) (s : str) :
  forall l, In l (split sep s) -> mem sep l = false.
Proof.
  induction s as [|c s IH]; cbn [split]; intros l Hl.
  - destruct Hl as [<-|[]]. reflexivity.
  - destruct (c =? sep)%N eqn:E.
    + destruct Hl as [<-|Hl]; [reflexivity|auto].
    + destruct (split sep s) as [|w ws].
      * destruct Hl as [<-|[]]. unfold mem. cbn. rewrite N.eqb_sym, E. reflexivity.
      * destruct Hl as [<-|Hl].
        -- unfold mem. cbn [existsb]. rewrite N.eqb_sym, E. cbn.
           apply (IH w). left. reflexivity.
        -- apply IH. right. exact Hl.
Qed.

Lemma split_keeps_absent (sep c : char) (s : str) :
  mem c s = false -> forall l, In l (split sep s) -> mem c l = false.
Proof.
  induction s as [|x s IH]; cbn [split]; intros H l Hl.
  - destruct Hl as [<-|[]]. reflexivity.
  - unfold mem in H. cbn [existsb] in H. apply orb_false_iff in H.
    destruct H as [Hx Hs]. specialize (IH Hs).
    destruct (x =? sep)%N.
    + destruct Hl as [<-|Hl]; [reflexivity|auto].
    + destruct (split sep s) as [|w ws].
      * destruct Hl as [<-|[]]. unfold mem. cbn. rewrite Hx. reflexivity.
      * destruct Hl as [<-|Hl].
        -- unfold mem. cbn [existsb]. rewrite Hx. cbn.
           apply (IH w). left. reflexivity.
        -- apply IH. right. exact Hl.
Qed.

Lemma nonempty_true {A} (l : list A) : nonempty l = true -> l <> [].
Proof. destruct l; [discriminate|discriminate]. Qed.

(** X7.  Every line that the pairer is given is not empty, has no white
    space at its ends and holds no line feed. *)
Theorem text_lines_clean :
  forall (texts : list str) (l : str),
    In l (text_lines texts) -> clean_line [NL] l.
Proof.
  intros texts l H. unfold text_lines in H. apply in_flat_map in H.
  destruct H as [text [_ H]]. apply filter_In in H. destruct H as [H Hn].
  apply in_map_iff in H. destruct H as [raw [<- Hraw]].
  split; [apply nonempty_true; exact Hn|].
  split; [apply strip_by_idempotent|].
  intros c [<-|[]]. apply mem_strip_by. eapply split_no_sep. exact Hraw.
Qed.

Lemma text_lines_clean_witness :
  In (txt "Soup") (text_lines [txt "  Soup " ++ [NL] ++ txt " "])
  /\ clean_line [NL] (txt "Soup").
Proof.
  assert (H : In (txt "Soup") (text_lines [txt "  Soup " ++ [NL] ++ txt " "]))
    by (vm_compute; left; reflexivity).
  split; [exact H|]. exact (text_lines_clean _ _ H).
Defined.

Lemma mem_replace_gone (a b : char) (s : str) :
  a <> b -> mem a (replace a b s) = false.
Proof.
  intros Hab. unfold mem, replace. induction s as [|c s IH]; [reflexivity|].
  cbn [map existsb]. rewrite IH, orb_false_r.
  destruct (c =? a)%N eqn:E; apply N.eqb_neq.
  - exact Hab.
  - apply N.eqb_neq in E. congruence.
Qed.

Lemma no_repeat_snoc (l : list str) (x : str) :
  no_repeat l ->
  (forall prev, last (map Some l) None = Some prev -> prev <> x) ->
  no_repeat (l ++ [x]).
Proof.
  induction l as [|a t IH]; intros Hn Hl; [cbn; auto|].
  destruct t as [|b t'].
  - cbn. split; [|auto]. apply Hl. reflexivity.
  - cbn [no_repeat] in Hn. destruct Hn as [Hab Hn].
    change ((a :: b :: t') ++ [x]) with (a :: ((b :: t') ++ [x])).
    cbn [no_repeat app]. split; [exact Hab|].
    apply IH; [exact Hn|]. intros prev Hp. apply Hl. exact Hp.
Qed.

(** X8.  The lines that prepare_lines gives are not empty, have no white
    space at their ends, hold no line feed and no carriage return, and no
    line is equal to the line before it. *)
Theorem prepare_lines_clean :
  forall description : str,
    Forall (clean_line [NL; CR]) (prepare_lines description)
    /\ no_repeat (prepare_lines description).
Proof.
  intros description. unfold prepare_lines.
  set (raw := map strip (split NL (replace CR NL description))).
  assert (Hraw : forall r, In r raw ->
             strip r = r /\ forall c, In c [NL; CR] -> mem c r = false).
  { intros r Hr. apply in_map_iff in Hr. destruct Hr as [piece [<- Hp]].
    split; [apply strip_by_idempotent|].
    intros c [<-|[<-|[]]]; apply mem_strip_by.
    - eapply split_no_sep. exact Hp.
    - eapply split_keeps_absent; [|exact Hp].
      apply mem_replace_gone. discriminate. }
  assert (H : forall acc,
             Forall (clean_line [NL; CR]) acc /\ no_repeat acc ->
             Forall (clean_line [NL; CR])
               (fold_left
                  (fun lines line =>
                     if negb (nonempty line) then lines
                     else match last (map Some lines) None with
                          | Some prev =>
                              if str_eqb prev line then lines else lines ++ [line]
                          | None => lines ++ [line]
                          end) raw acc)
             /\ no_repeat
                  (fold_left
                     (fun lines line =>
                        if negb (nonempty line) then lines
                        else match last (map Some lines) None with
                             | Some prev =>
                                 if str_eqb prev line then lines else lines ++ [line]
                             | None => lines ++ [line]
                             end) raw acc)).
  { induction raw as [|r raw IH]; intros acc Hacc; [exact Hacc|].
    cbn [fold_left]. apply IH; [intros r' Hr'; apply Hraw; right; exact Hr'|].
    destruct Hacc as [Hf Hn].
    destruct (nonempty r) eqn:Er; cbn [negb]; [|auto].
    assert (Hc : clean_line [NL; CR] r).
    { destruct (Hraw r (or_introl eq_refl)) as [H1 H2].
      split; [apply nonempty_true; exact Er|]. auto. }
    destruct (last (map Some acc) None) as [prev|] eqn:El.
    - destruct (str_eqb prev r) eqn:Eq; [auto|].
      split; [apply Forall_app; auto|].
      apply no_repeat_snoc; [exact Hn|].
      intros prev' Hp. rewrite El in Hp. injection Hp as <-.
      intros ->. unfold str_eqb in Eq.
      destruct (list_eq_dec N.eq_dec r r); [discriminate|congruence].
    - split; [apply Forall_app; auto|].
      apply no_repeat_snoc; [exact Hn|]. intros prev Hp. congruence. }
  apply H. split; [constructor|exact I].
Qed.

(** ** Bounds of the segmenter *)

Lemma removelast_length {A} (l : list A) :
  length (removelast l) = length l - 1.
Proof.
  rewrite removelast_firstn_len, length_firstn. lia.
Qed.

Section SegmenterBounds.

Variable T : Tables.

Lemma find_start_bound (lines : list str) :
  forall idx, find_start T idx lines <= idx + length lines.
Proof.
  induction lines as [|line lines IH]; intros idx; cbn [find_start length]; [lia|].
  destruct (existsb _ INGREDIENT_KEYWORDS); [lia|].
  specialize (IH (idx + 1)). lia.
Qed.

Lemma ingredient_loop_bound (lines : list str) (start : nat) :
  start <= length lines ->
  exists i ingredients,
    loop (S (length lines)) (ingredient_step T lines) (start, []) = Ok (i, ingredients)
    /\ start <= i <= length lines.
Proof.
  intros Hs.
  destruct (loop_total (ingredient_step T lines)
              (fun st => length lines - fst st)
              (fun st => start <= fst st <= length lines))
    with (f := S (length lines)) (s := (start, @nil str)) as [[i ingredients] [E Hi]].
  - intros [i ingredients] Hi. cbn [fst] in Hi. unfold ingredient_step.
    destruct (i <? length lines) eqn:Ei;
      [|left; eexists; split; [reflexivity|exact Hi]].
    apply Nat.ltb_lt in Ei.
    destruct (index_in_range lines i Ei) as [line ->]. cbn [bind].
    repeat match goal with
           | |- context [if ?b then _ else _] => destruct b
           | |- context [match ?o with Some _ => _ | None => _ end] => destruct o
           end;
      first [ left; eexists; split; [reflexivity|exact Hi]
            | right; eexists; split; [reflexivity|]; cbn [fst]; lia ].
  - cbn [fst]. lia.
  - cbn [fst]. lia.
  - exists i, ingredients. split; [exact E|exact Hi].
Qed.

Lemma steps_loop_bound (lines : list str) (start : nat) :
  exists i steps,
    loop (S (length lines)) (steps_step T lines) (start, []) = Ok (i, steps)
    /\ length steps <= length lines - start.
Proof.
  destruct (loop_total (steps_step T lines)
              (fun st => length lines - fst st)
              (fun st => length (snd st) + start <= fst st
                         /\ (fst st <= length lines \/ fst st = start)))
    with (f := S (length lines)) (s := (start, @nil str)) as [[i steps] [E Hi]].
  - intros [i steps] Hi. cbn [fst snd] in Hi. unfold steps_step.
    destruct (i <? length lines) eqn:Ei;
      [|left; eexists; split; [reflexivity|exact Hi]].
    apply Nat.ltb_lt in Ei.
    destruct (index_in_range lines i Ei) as [line ->]. cbn [bind].
    destruct (startswith (txt "#") (lower T line) || startswith (txt "http") (lower T line));
      [left; eexists; split; [reflexivity|exact Hi]|].
    destruct (existsb _ INSTRUCTION_TERMINATORS && nonempty steps);
      [left; eexists; split; [reflexivity|exact Hi]|].
    destruct (existsb _ INSTRUCTION_KEYWORDS && negb _);
      [right; eexists; split; [reflexivity|]; cbn [fst snd]; lia|].
    destruct (re_match T true STEP_RE line);
      [right; eexists; split; [reflexivity|]; cbn [fst snd];
       rewrite length_app; cbn [length]; lia|].
    destruct steps as [|s0 steps'].
    + cbn [nonempty]. right. eexists. split; [reflexivity|]. cbn [fst snd length]. lia.
    + cbn [nonempty]. destruct (re_match T false BULLET_RE line);
        [right; eexists; split; [reflexivity|]; cbn [fst snd];
         rewrite length_app; cbn [length] in *; lia|].
      cbn [get_last set_last bind]. right. eexists. split; [reflexivity|].
      cbn [fst snd]. rewrite length_app, removelast_length.
      cbn [length] in *. lia.
  - cbn [fst snd length]. lia.
  - cbn [fst]. lia.
  - exists i, steps. split; [exact E|]. cbn [fst snd] in Hi. lia.
Qed.

End SegmenterBounds.

(** X9.  The index that the extraction of ingredients returns is within the
    list of lines, so the scan for steps begins at a line or at the end. *)
Theorem extract_ingredients_index_bound :
  forall (T : Tables) (lines : list str),
  exists ingredients i,
    extract_ingredients_section T lines = Ok (ingredients, i)
    /\ i <= length lines.
Proof.
  intros T lines. unfold extract_ingredients_section.
  pose proof (find_start_bound T lines 0) as Hs. cbn [Nat.add] in Hs.
  destruct (ingredient_loop_bound T lines (find_start T 0 lines) Hs)
    as [i [ingredients [-> Hi]]].
  cbn [bind].
  destruct (nonempty ingredients); [exists ingredients, i; split; [reflexivity|lia]|].
  destruct (re_search T true FALLBACK_RE (join [NL] lines)) as [m|];
    [|eexists; eexists; split; [reflexivity|exact Hs]].
  unfold index.
  destruct (split NL (group m 2)) as [|x l] eqn:E; [exfalso; eapply split_not_nil; eauto|].
  cbn [nth_error bind].
  destruct (nonempty _); eexists; eexists; (split; [reflexivity|exact Hs]).
Qed.

(** X11.  The scan for steps gives at most one step for each line from its
    start index on, and none when that index is at or beyond the end. *)
Theorem extract_steps_count :
  forall (T : Tables) (lines : list str) (start_idx : nat),
  exists steps,
    extract_steps_section T lines start_idx = Ok steps
    /\ length steps <= length lines - start_idx.
Proof.
  intros T lines start_idx. unfold extract_steps_section.
  destruct (steps_loop_bound T lines start_idx) as [i [steps [-> H]]].
  cbn [bind]. exists steps. split; [reflexivity|exact H].
Qed.

Lemma lstrip_by_all (p : char -> bool) (s : str) :
  Forall (fun c => p c = true) s -> lstrip_by p s = [].
Proof.
  induction 1 as [|c s Hc Hs IH]; cbn; [reflexivity|]. rewrite Hc. exact IH.
Qed.

Lemma strip_blank (s : str) :
  Forall (fun c => is_space c = true) s -> strip s = [].
Proof.
  intros H. unfold strip, strip_by, rstrip_by.
  rewrite (lstrip_by_all is_space s H). reflexivity.
Qed.

Lemma split_Forall (P : char -> Prop) (sep : char) (s : str) :
  Forall P s -> forall l, In l (split sep s) -> Forall P l.
Proof.
  induction 1 as [|c s Hc Hs IH]; cbn [split]; intros l Hl.
  - destruct Hl as [<-|[]]. constructor.
  - destruct (c =? sep)%N.
    + destruct Hl as [<-|Hl]; [constructor|auto].
    + destruct (split sep s) as [|w ws].
      * destruct Hl as [<-|[]]. constructor; [exact Hc|constructor].
      * destruct Hl as [<-|Hl].
        -- constructor; [exact Hc|]. apply IH. left. reflexivity.
        -- apply IH. right. exact Hl.
Qed.

Lemma prepare_lines_blank (description : str) :
  Forall (fun c => is_space c = true) description ->
  prepare_lines description = [].
Proof.
  intros H. unfold prepare_lines.
  assert (Hr : Forall (fun c => is_space c = true) (replace CR NL description)).
  { unfold replace. apply Forall_map. eapply Forall_impl; [|exact H].
    intros c Hc. cbn beta. destruct (c =? CR)%N; [reflexivity|exact Hc]. }
  assert (Hraw : Forall (fun r => r = [])
                   (map strip (split NL (replace CR NL description)))).
  { apply Forall_map. apply Forall_forall. intros piece Hp.
    apply strip_blank. eapply split_Forall; eauto. }
  induction Hraw as [|r raw -> Hraw IH]; [reflexivity|].
  cbn [fold_left nonempty negb]. exact IH.
Qed.

(** X10.  A description of white space alone has no line to scan: the
    extraction gives no ingredients and no steps. *)
Theorem extract_recipe_content_blank :
  forall (T : Tables) (description : str),
    Forall (fun c => is_space c = true) description ->
    extract_recipe_content T description = Ok ([], []).
Proof.
  intros T description H. unfold extract_recipe_content.
  rewrite (prepare_lines_blank description H). vm_compute. reflexivity.
Qed.

Lemma extract_recipe_content_blank_witness :
  Forall (fun c => is_space c = true) [ch " "; NL; TAB]
  /\ extract_recipe_content ascii_tables [ch " "; NL; TAB] = Ok ([], []).
Proof.
  assert (H : Forall (fun c => is_space c = true) [ch " "; NL; TAB])
    by (repeat constructor).
  split; [exact H|]. exact (extract_recipe_content_blank ascii_tables _ H).
Defined.

(** ** Sorted sets of tags *)

Lemma str_leb_total (a b : str) : str_leb a b = false -> str_leb b a = true.
Proof.
  revert b. induction a as [|x a IH]; intros b H; [discriminate|].
  destruct b as [|y b]; [reflexivity|].
  cbn in *. apply orb_false_iff in H. destruct H as [H1 H2].
  apply N.ltb_ge in H1.
  destruct (x =? y)%N eqn:E.
  - apply N.eqb_eq in E. subst y. rewrite N.eqb_refl. cbn in H2.
    rewrite (IH b H2). apply orb_true_r.
  - apply N.eqb_neq in E. assert (Hlt : (y < x)%N) by lia.
    apply N.ltb_lt in Hlt. rewrite Hlt. reflexivity.
Qed.

Lemma str_leb_antisym (a b : str) :
  str_leb a b = true -> str_leb b a = true -> a = b.
Proof.
  revert b. induction a as [|x a IH]; intros b H1 H2.
  - destruct b; [reflexivity|discriminate].
  - destruct b as [|y b]; [discriminate|].
    cbn in *. apply orb_true_iff in H1. apply orb_true_iff in H2.
    destruct H1 as [H1|H1]; destruct H2 as [H2|H2];
      rewrite ?N.ltb_lt, ?andb_true_iff, ?N.eqb_eq in *; try lia.
    destruct H1 as [-> H1]. destruct H2 as [_ H2]. f_equal. auto.
Qed.

Lemma str_leb_trans (a b c : str) :
  str_leb a b = true -> str_leb b c = true -> str_leb a c = true.
Proof.
  revert b c. induction a as [|x a IH]; intros b c H1 H2; [reflexivity|].
  destruct b as [|y b]; [discriminate|]. destruct c as [|z c]; [discriminate|].
  cbn in *. apply orb_true_iff in H1. apply orb_true_iff in H2.
  apply orb_true_iff.
  rewrite ?N.ltb_lt, ?andb_true_iff, ?N.eqb_eq in *.
  destruct H1 as [H1|[-> H1]]; destruct H2 as [H2|[-> H2]].
  - left. lia.
  - left. exact H1.
  - left. exact H2.
  - right. split; [reflexivity|]. eapply IH; eauto.
Qed.

Lemma str_lt_trans (a b c : str) : str_lt a b -> str_lt b c -> str_lt a c.
Proof.
  intros [H1 N1] [H2 N2]. split; [eapply str_leb_trans; eauto|].
  intros ->. apply N1. apply str_leb_antisym; assumption.
Qed.

Lemma insert_sorted_Sorted (x : str) (l : list str) :
  Sorted str_lt l -> ~ In x l -> Sorted str_lt (insert_sorted x l).
Proof.
  induction 1 as [|y l Hs IH Hh]; intros Hx; cbn [insert_sorted].
  - repeat constructor.
  - destruct (str_leb x y) eqn:E.
    + constructor; [constructor; assumption|]. constructor. split; [exact E|].
      intros ->. apply Hx. left. reflexivity.
    + assert (Hyx : str_lt y x).
      { split; [apply str_leb_total; exact E|]. intros ->. apply Hx. left. reflexivity. }
      constructor; [apply IH; intros H; apply Hx; right; exact H|].
      destruct l as [|z l]; cbn [insert_sorted]; [constructor; exact Hyx|].
      destruct (str_leb x z); constructor; [exact Hyx|].
      inversion Hh; assumption.
Qed.

Lemma insert_sorted_NoDup (x : str) (l : list str) :
  NoDup l -> ~ In x l -> NoDup (insert_sorted x l).
Proof.
  induction 1 as [|y l Hy Hl IH]; intros Hx; cbn [insert_sorted].
  - constructor; [auto|constructor].
  - destruct (str_leb x y).
    + constructor; [exact Hx|constructor; assumption].
    + constructor.
      * rewrite In_insert_sorted. intros [->|H]; [apply Hx; left; reflexivity|auto].
      * apply IH. intros H. apply Hx. right. exact H.
Qed.

(** sorted() of a set is strictly increasing, so it has no repetition. *)
Lemma sorted_Sorted (l : list str) :
  NoDup l -> Sorted str_lt (sorted l) /\ NoDup (sorted l).
Proof.
  induction 1 as [|x l Hx Hl [IH1 IH2]]; cbn [sorted fold_right].
  - split; constructor.
  - fold (sorted l).
    assert (~ In x (sorted l)) by (rewrite In_sorted; exact Hx).
    split; [apply insert_sorted_Sorted|apply insert_sorted_NoDup]; assumption.
Qed.

Lemma set_add_NoDup (x : str) (s : list str) : NoDup s -> NoDup (set_add x s).
Proof.
  intros H. unfold set_add. destruct (set_mem x s) eqn:E; [exact H|].
  apply NoDup_app; [exact H|constructor; [auto|constructor]|].
  intros y Hy [<-|[]]. apply set_mem_In in Hy. congruence.
Qed.

Lemma add_if_NoDup (c : bool) (t : str) (s : list str) :
  NoDup s -> NoDup (add_if c t s).
Proof.
  intros H. unfold add_if. destruct c; [apply set_add_NoDup|]; exact H.
Qed.

Lemma add_matching_NoDup (T : Tables) (text : str) (table : list (str * list str)) :
  forall s, NoDup s -> NoDup (add_matching T text table s).
Proof.
  unfold add_matching. induction table as [|e table IH]; intros s H; [exact H|].
  cbn [fold_left]. apply IH.
  destruct (existsb _ (snd e)); [apply set_add_NoDup|]; exact H.
Qed.

(** X12.  The tags come out strictly increasing in the order of sorted():
    they are sorted and none is repeated. *)
Theorem infer_tags_sorted :
  forall (T : Tables) (title : str) (ingredients : list str),
    StronglySorted str_lt (infer_tags T title ingredients)
    /\ NoDup (infer_tags T title ingredients).
Proof.
  intros T title ingredients. unfold infer_tags.
  match goal with
  | |- StronglySorted _ (sorted ?l) /\ _ =>
      assert (Hn : NoDup l)
  end.
  { repeat first [apply add_if_NoDup | apply add_matching_NoDup]. constructor. }
  destruct (sorted_Sorted _ Hn) as [Hs Hd]. split; [|exact Hd].
  apply Sorted_StronglySorted; [|exact Hs].
  intros a b c. apply str_lt_trans.
Qed.

(** X13.  Every tag is one of the names that the classifier knows. *)
Theorem infer_tags_names :
  forall (T : Tables) (title : str) (ingredients : list str) (tag : str),
    In tag (infer_tags T title ingredients) -> In tag TAG_NAMES.
Proof.
  intros T title ingredients tag. unfold infer_tags. rewrite In_sorted.
  rewrite In_add_if, In_add_if, In_add_if, In_add_if, In_add_matching,
    In_add_if, In_add_if, In_add_if, In_add_matching.
  cbn [In]. unfold TAG_NAMES. rewrite !in_app_iff.
  intros H.
  repeat match goal with
         | H : _ \/ _ |- _ => destruct H as [H|H]
         | H : _ /\ _ |- _ => destruct H as [? H]
         | H : exists _, _ |- _ => destruct H as [? H]
         | H : False |- _ => destruct H
         end; subst;
    try (right; right; right; cbn; tauto);
    try (right; left; cbn; tauto).
  - right. right. left. apply in_map_iff. eexists. split; [|eassumption]. reflexivity.
  - left. apply in_map_iff. eexists. split; [|eassumption]. reflexivity.
Qed.

Lemma infer_tags_names_witness :
  In (txt "stew") (infer_tags ascii_tables (txt "Beef Stew") [])
  /\ In (txt "stew") TAG_NAMES.
Proof.
  assert (H : In (txt "stew") (infer_tags ascii_tables (txt "Beef Stew") []))
    by (vm_compute; left; reflexivity).
  split; [exact H|]. exact (infer_tags_names ascii_tables _ _ _ H).
Defined.

Lemma meal_type_set (T : Tables) (title : str) (ingredients tags : list str) :
  exists final,
    infer_meal_types T title ingredients tags = sorted final
    /\ final <> [] /\ NoDup final
    /\ forall m, In m final -> In m MEAL_TYPE_NAMES.
Proof.
  unfold infer_meal_types.
  set (text := blob T title ingredients). set (low := lowered T tags).
  set (ex := explicit_meal_types T text low).
  assert (Hex_nd : NoDup ex).
  { unfold ex, explicit_meal_types.
    repeat first [apply add_if_NoDup | apply add_matching_NoDup]. constructor. }
  assert (Hex_in : forall m, In m ex -> In m MEAL_TYPE_NAMES).
  { intros m. unfold ex, explicit_meal_types.
    rewrite In_add_matching, In_add_if, In_add_if, In_add_if. cbn [In].
    assert (Hk : forall kws, In (m, kws) MEAL_KEYWORDS -> In m MEAL_TYPE_NAMES).
    { intros kws. unfold MEAL_KEYWORDS. cbn [In].
      intros [Hk|[Hk|[Hk|[]]]]; injection Hk as <- _; vm_compute; tauto. }
    intros [[kws [Hin _]]|[[_ ->]|[[_ ->]|[[_ ->]|[]]]]];
      [eapply Hk; exact Hin|vm_compute; tauto..]. }
  eexists. split; [reflexivity|].
  destruct ex as [|e ex'] eqn:Ee; cbn [nonempty negb].
  - repeat match goal with
           | |- context [if ?b then _ else _] => destruct b
           end;
      (split; [discriminate|]);
      (split; [repeat constructor; cbn; tauto|]);
      intros m [<-|[]]; vm_compute; tauto.
  - split; [discriminate|]. split; [exact Hex_nd|exact Hex_in].
Qed.

Lemma sorted_not_nil (l : list str) : l <> [] -> sorted l <> [].
Proof.
  intros Hl E. destruct l as [|x l]; [congruence|].
  assert (H : In x (sorted (x :: l))) by (apply In_sorted; left; reflexivity).
  rewrite E in H. destruct H.
Qed.

(** X14.  There is always a meal type: the list is never empty, it is
    sorted without repetition, and it holds nothing but breakfast, brunch,
    dessert, lunch and dinner, whatever the tags passed in. *)
Theorem infer_meal_types_never_empty :
  forall (T : Tables) (title : str) (ingredients tags : list str),
    infer_meal_types T title ingredients tags <> []
    /\ StronglySorted str_lt (infer_meal_types T title ingredients tags)
    /\ NoDup (infer_meal_types T title ingredients tags)
    /\ forall m, In m (infer_meal_types T title ingredients tags) ->
                 In m MEAL_TYPE_NAMES.
Proof.
  intros T title ingredients tags.
  destruct (meal_type_set T title ingredients tags) as [final [-> [Hne [Hnd Hin]]]].
  destruct (sorted_Sorted _ Hnd) as [Hs Hd].
  split; [apply sorted_not_nil; exact Hne|].
  split; [apply Sorted_StronglySorted; [|exact Hs]; intros a b c; apply str_lt_trans|].
  split; [exact Hd|].
  intros m Hm. apply Hin. apply In_sorted. exact Hm.
Qed.

(** ** More on the assembler *)

Lemma In_firstn {A} (n : nat) (l : list A) (x : A) : In x (firstn n l) -> In x l.
Proof.
  revert l. induction n as [|n IH]; intros l H; [destruct H|].
  destruct l as [|y l]; [destruct H|].
  cbn in H. destruct H as [->|H]; [left; reflexivity|right; auto].
Qed.

Section AssemblerInvariants.

Variable T : Tables.
Variable X : Extern.

Lemma to_ascii_ascii (s : str) : ascii_text (to_ascii T s).
Proof.
  unfold ascii_text, to_ascii. apply Forall_forall. intros c Hc.
  apply filter_In in Hc. tauto.
Qed.

Lemma map_to_ascii_ascii (l : list str) : Forall ascii_text (map (to_ascii T) l).
Proof.
  apply Forall_map. apply Forall_forall. intros s _. apply to_ascii_ascii.
Qed.

Lemma when_nonempty_ascii (l : list str) :
  Forall ascii_text l -> ascii_opt (when_nonempty l).
Proof.
  intros H. unfold when_nonempty. destruct (nonempty l); [exact H|exact I].
Qed.

Lemma build_entry_fields (title0 url description image_url : str)
    (og_url : option str) (entry : RecipeDraft) :
  build_entry T X title0 url description image_url og_url = Ok entry ->
  entry_ascii entry
  /\ title entry = to_ascii T title0
  /\ imageUrl entry = to_ascii T image_url
  /\ present (mealTypes entry) = true
  /\ notes entry = (if nonempty (ingredients entry) then None else Some NOTE)
  /\ is_some (descriptionPreview entry) = negb (nonempty (ingredients entry)).
Proof.
  unfold build_entry. intros H.
  destruct (normalize_instagram_url X _) as [canonical| |]; cbn [bind] in H;
    try discriminate.
  destruct (extract_recipe_content T description) as [[ingredients0 steps0]| |];
    cbn [bind] in H; try discriminate.
  injection H as <-.
  cbn [title sourceUrl imageUrl ingredients steps tags mealTypes notes
       descriptionPreview].
  split; [|split; [reflexivity|split; [reflexivity|split; [|split]]]].
  - unfold entry_ascii.
    cbn [title sourceUrl imageUrl ingredients steps tags mealTypes notes
         descriptionPreview].
    repeat split; try apply to_ascii_ascii; try apply map_to_ascii_ascii;
      try (apply when_nonempty_ascii; apply map_to_ascii_ascii).
    + intros n. destruct (negb _); intros Hn; [|discriminate].
      injection Hn as <-. unfold ascii_text, NOTE. apply Forall_forall.
      intros c Hc. vm_compute in Hc.
      repeat (destruct Hc as [<-|Hc]; [reflexivity|]). destruct Hc.
    + intros p. destruct (negb _); intros Hp; [|discriminate].
      injection Hp as <-. unfold preview_of, ascii_text.
      apply Forall_forall. intros c Hc. apply In_firstn in Hc.
      pose proof (to_ascii_ascii (join (txt " ") (firstn 4 (splitlines description)))) as Ha.
      unfold ascii_text in Ha. rewrite Forall_forall in Ha. auto.
  - unfold when_nonempty.
    destruct (meal_type_set T title0 ingredients0 (infer_tags T title0 ingredients0))
      as [final [E [Hne _]]].
    pose proof (sorted_not_nil final Hne) as Hs. rewrite <- E in Hs.
    destruct (infer_meal_types T title0 ingredients0 _) as [|m ms]; [congruence|].
    reflexivity.
  - destruct (map (to_ascii T) ingredients0); reflexivity.
  - destruct (map (to_ascii T) ingredients0); reflexivity.
Qed.

(** What holds of every entry and of every failure record that the body of
    the loop makes of an item holds of those of a run that returns, for an
    item among the pairs. *)
Lemma run_outcomes (P : str * str -> RecipeDraft -> Prop)
    (Q : str * str -> FailureRecord -> Prop) (pairs : list (str * str))
    (results : list RecipeDraft) (failures : list FailureRecord) :
  (forall idx item entry, process_item T X idx item = Ok (inl entry) -> P item entry) ->
  (forall idx item failure, process_item T X idx item = Ok (inr failure) -> Q item failure) ->
  run_assembler T X pairs = Ok (results, failures) ->
  Forall (fun entry => exists item, In item pairs /\ P item entry) results
  /\ Forall (fun failure => exists item, In item pairs /\ Q item failure) failures
  /\ length results + length failures = length pairs.
Proof.
  intros HP HQ H.
  destruct (main_loop_outcomes T X pairs 1 ([], []) _ H) as [outs [Ho E]].
  cbn [fst snd app] in E. injection E as -> ->. clear H.
  split; [|split].
  - induction Ho as [|item out pairs outs [k Hk] Ho IH]; [constructor|].
    assert (IH' : Forall (fun entry => exists item0,
                            In item0 (item :: pairs) /\ P item0 entry)
                    (entries_of outs)).
    { eapply Forall_impl; [|exact IH]. intros e [it [Hin Hp]].
      exists it. split; [right; exact Hin|exact Hp]. }
    destruct out as [entry|failure]; cbn [entries_of flat_map app]; [|exact IH'].
    constructor; [|exact IH'].
    exists item. split; [left; reflexivity|eapply HP; exact Hk].
  - induction Ho as [|item out pairs outs [k Hk] Ho IH]; [constructor|].
    assert (IH' : Forall (fun failure => exists item0,
                            In item0 (item :: pairs) /\ Q item0 failure)
                    (failures_of outs)).
    { eapply Forall_impl; [|exact IH]. intros f [it [Hin Hq]].
      exists it. split; [right; exact Hin|exact Hq]. }
    destruct out as [entry|failure]; cbn [failures_of flat_map app]; [exact IH'|].
    constructor; [|exact IH'].
    exists item. split; [left; reflexivity|eapply HQ; exact Hk].
  - rewrite outcomes_count. symmetry. eapply Forall2_length. exact Ho.
Qed.

Lemma process_item_fields (idx : nat) (item : str * str) (entry : RecipeDraft) :
  process_item T X idx item = Ok (inl entry) ->
  entry_ascii entry
  /\ title entry = to_ascii T (fst item)
  /\ present (mealTypes entry) = true
  /\ notes entry = (if nonempty (ingredients entry) then None else Some NOTE)
  /\ is_some (descriptionPreview entry) = negb (nonempty (ingredients entry)).
Proof.
  destruct item as [title0 url]. intros H.
  destruct (process_item_entry T X idx title0 url entry H)
    as [html_text [description [image_url [_ [_ Hb]]]]].
  destruct (build_entry_fields _ _ _ _ _ _ Hb) as [H1 [H2 [_ [H4 [H5 H6]]]]].
  cbn [fst]. auto.
Qed.

Lemma process_item_failure (idx : nat) (item : str * str) (failure : FailureRecord) :
  process_item T X idx item = Ok (inr failure) ->
  f_title failure = fst item /\ f_url failure = snd item
  /\ (f_reason failure = fetch_failed
      <-> exists page, fetch_html X idx (snd item) = Ok page /\ truthy page = false).
Proof.
  destruct item as [title0 url]. unfold process_item. cbn [fst snd].
  destruct (fetch_html X idx url) as [page| |]; cbn [bind]; try discriminate.
  destruct (truthy page) eqn:Ef; cbn [negb].
  2:{ intros H. injection H as <-. cbn. split; [reflexivity|]. split; [reflexivity|].
      split; [intros _; exists page; auto|reflexivity]. }
  assert (Hno : ~ exists page0, Ok page = Ok page0 /\ truthy page0 = false).
  { intros [page0 [E E0]]. injection E as <-. congruence. }
  destruct (negb (truthy (extract_meta_value T X _ (txt "og:description")))).
  { intros H. injection H as <-. cbn. split; [reflexivity|]. split; [reflexivity|].
    split; [discriminate|intros E; destruct (Hno E)]. }
  destruct (negb (truthy (or_else _ _))).
  { intros H. injection H as <-. cbn. split; [reflexivity|]. split; [reflexivity|].
    split; [discriminate|intros E; destruct (Hno E)]. }
  match goal with
  | |- context [build_entry T X ?a ?b ?c ?d ?e] =>
      destruct (build_entry T X a b c d e) as [entry| |]
  end; cbn [bind]; intros H; discriminate.
Qed.

End AssemblerInvariants.

Lemma count_if_all {A} (p : A -> bool) (l : list A) :
  Forall (fun x => p x = true) l -> count_if p l = length l.
Proof.
  unfold count_if. induction 1 as [|x l Hx Hl IH]; [reflexivity|].
  cbn [filter]. rewrite Hx. cbn [length]. congruence.
Qed.

Lemma count_if_ext {A} (p q : A -> bool) (l : list A) :
  Forall (fun x => p x = q x) l -> count_if p l = count_if q l.
Proof.
  unfold count_if. induction 1 as [|x l Hx Hl IH]; [reflexivity|].
  cbn [filter]. rewrite Hx. destruct (q x); cbn [length]; congruence.
Qed.

Lemma count_if_le {A} (p : A -> bool) (l : list A) : count_if p l <= length l.
Proof. unfold count_if. apply filter_length_le. Qed.

(** X15.  Every text of every entry of a run that returns is ASCII: the
    title, the two URLs, the ingredients, the steps, the tags, the meal
    types, the note and the preview; and the title of an entry is the title
    of one of the pairs, made ASCII. *)
Theorem run_entries_ascii :
  forall (T : Tables) (X : Extern) (pairs : list (str * str))
         (results : list RecipeDraft) (failures : list FailureRecord),
    run_assembler T X pairs = Ok (results, failures) ->
    Forall (fun entry =>
              entry_ascii entry
              /\ exists item, In item pairs /\ title entry = to_ascii T (fst item))
      results.
Proof.
  intros T X pairs results failures H.
  destruct (run_outcomes T X
              (fun item entry => entry_ascii entry /\ title entry = to_ascii T (fst item))
              (fun _ _ => True) pairs results failures) as [Hr _].
  - intros idx item entry Hi.
    destruct (process_item_fields T X idx item entry Hi) as [H1 [H2 _]]. auto.
  - auto.
  - exact H.
  - eapply Forall_impl; [|exact Hr].
    intros e [item [Hin [Ha Ht]]]. split; [exact Ha|eauto].
Qed.

Lemma run_entries_ascii_witness :
  Forall (fun entry =>
            entry_ascii entry
            /\ exists item, In item SOUP_PAIRS
                            /\ title entry = to_ascii ascii_tables (fst item))
    SOUP_ENTRIES.
Proof.
  assert (H : run_assembler ascii_tables SOUP_WORLD SOUP_PAIRS = Ok (SOUP_ENTRIES, []))
    by (vm_compute; reflexivity).
  exact (run_entries_ascii ascii_tables SOUP_WORLD SOUP_PAIRS SOUP_ENTRIES [] H).
Defined.

(** X16.  In the counts that main writes after a run that returns, the
    recipes of the document are the recipes detected and the failures
    together; every entry has meal types, so recipesWithMealTypes is the
    number of entries; and the entries without ingredients are exactly those
    with a note and exactly those with a preview. *)
Theorem payload_meta_counts :
  forall (T : Tables) (X : Extern) (pairs : list (str * str))
         (results : list RecipeDraft) (failures : list FailureRecord),
    run_assembler T X pairs = Ok (results, failures) ->
    totalRecipesInPdf (payload_meta pairs results)
    = totalRecipesDetected (payload_meta pairs results) + length failures
    /\ recipesWithMealTypes (payload_meta pairs results)
       = totalRecipesDetected (payload_meta pairs results)
    /\ recipesWithMissingIngredients (payload_meta pairs results)
       = count_if (fun item => is_some (notes item)) results
    /\ recipesWithMissingIngredients (payload_meta pairs results)
       = count_if (fun item => is_some (descriptionPreview item)) results
    /\ recipesWithMissingIngredients (payload_meta pairs results)
       <= totalRecipesDetected (payload_meta pairs results).
Proof.
  intros T X pairs results failures H.
  destruct (run_outcomes T X
              (fun _ entry =>
                 present (mealTypes entry) = true
                 /\ notes entry
                    = (if nonempty (ingredients entry) then None else Some NOTE)
                 /\ is_some (descriptionPreview entry)
                    = negb (nonempty (ingredients entry)))
              (fun _ _ => True) pairs results failures) as [Hr [_ Hc]].
  - intros idx item entry Hi.
    destruct (process_item_fields T X idx item entry Hi) as [_ [_ H3]]. exact H3.
  - auto.
  - exact H.
  - unfold payload_meta.
    cbn [totalRecipesInPdf totalRecipesDetected recipesWithMealTypes
         recipesWithMissingIngredients].
    split; [lia|]. split; [|split; [|split]].
    + apply count_if_all. eapply Forall_impl; [|exact Hr].
      intros e [item [_ [H0 _]]]. exact H0.
    + apply count_if_ext. eapply Forall_impl; [|exact Hr].
      intros e [item [_ [_ [H1 _]]]]. cbn beta. rewrite H1.
      destruct (nonempty (ingredients e)); reflexivity.
    + apply count_if_ext. eapply Forall_impl; [|exact Hr].
      intros e [item [_ [_ [_ H2]]]]. cbn beta. rewrite H2. reflexivity.
    + apply count_if_le.
Qed.

Lemma payload_meta_counts_witness :
  totalRecipesInPdf (payload_meta SOUP_PAIRS SOUP_ENTRIES)
  = totalRecipesDetected (payload_meta SOUP_PAIRS SOUP_ENTRIES)
    + length (@nil FailureRecord).
Proof.
  assert (H : run_assembler ascii_tables SOUP_WORLD SOUP_PAIRS = Ok (SOUP_ENTRIES, []))
    by (vm_compute; reflexivity).
  exact (proj1 (payload_meta_counts ascii_tables SOUP_WORLD SOUP_PAIRS SOUP_ENTRIES [] H)).
Defined.

(** X17.  Every failure record of a run that returns carries the title and
    the URL of one of the pairs; and the body of the loop gives the reason
    fetch_failed exactly when fetch_html returned None or an empty page. *)
Theorem run_failures_of_pairs :
  forall (T : Tables) (X : Extern) (pairs : list (str * str)),
    (forall results failures,
        run_assembler T X pairs = Ok (results, failures) ->
        Forall (fun failure => In (f_title failure, f_url failure) pairs) failures)
    /\ forall idx item failure,
         process_item T X idx item = Ok (inr failure) ->
         (f_reason failure = fetch_failed
          <-> exists page,
                fetch_html X idx (snd item) = Ok page /\ truthy page = false).
Proof.
  intros T X pairs. split.
  - intros results failures H.
    destruct (run_outcomes T X (fun _ _ => True)
                (fun item failure =>
                   f_title failure = fst item /\ f_url failure = snd item)
                pairs results failures) as [_ [Hf _]].
    + auto.
    + intros idx item failure Hi.
      destruct (process_item_failure T X idx item failure Hi) as [H1 [H2 _]]. auto.
    + exact H.
    + eapply Forall_impl; [|exact Hf].
      intros f [[t u] [Hin [-> ->]]]. exact Hin.
  - intros idx item failure H.
    destruct (process_item_failure T X idx item failure H) as [_ [_ H3]]. exact H3.
Qed.

Lemma run_failures_of_pairs_witness :
  Forall (fun failure => In (f_title failure, f_url failure) SOUP_PAIRS)
    [{| f_title := txt "Soup"; f_url := txt "https://x.example/";
        f_reason := fetch_failed |}].
Proof.
  assert (H : run_assembler ascii_tables DOWN_WORLD SOUP_PAIRS
              = Ok ([], [{| f_title := txt "Soup"; f_url := txt "https://x.example/";
                            f_reason := fetch_failed |}]))
    by (vm_compute; reflexivity).
  exact (proj1 (run_failures_of_pairs ascii_tables DOWN_WORLD SOUP_PAIRS) _ _ H).
Defined.

(** ** The URL normalizer *)

Lemma index_of_first (x : str) (pre rest : list str) :
  ~ In x pre -> index_of x (pre ++ x :: rest) = length pre.
Proof.
  induction pre as [|y pre IH]; intros H; cbn [app index_of length].
  - unfold str_eqb. destruct (list_eq_dec N.eq_dec x x); [reflexivity|congruence].
  - unfold str_eqb. destruct (list_eq_dec N.eq_dec y x) as [->|_].
    + exfalso. apply H. left. reflexivity.
    + f_equal. apply IH. intros Hi. apply H. right. exact Hi.
Qed.

Lemma set_mem_false (x : str) (s : list str) : set_mem x s = false <-> ~ In x s.
Proof.
  rewrite <- set_mem_In. destruct (set_mem x s); split; congruence.
Qed.

Lemma shortcode_after_found (kind code : str) (pre post : list str) :
  ~ In kind pre ->
  shortcode_after kind (pre ++ kind :: code :: post) = Ok (Some (kind, code)).
Proof.
  intros H. unfold shortcode_after. rewrite index_of_first by exact H.
  assert (Hlt : (length pre + 1 <? length (pre ++ kind :: code :: post)) = true).
  { apply Nat.ltb_lt. rewrite length_app. cbn [length]. lia. }
  rewrite Hlt. rewrite index_shift. reflexivity.
Qed.

Lemma shortcode_after_last (kind : str) (pre : list str) :
  ~ In kind pre -> shortcode_after kind (pre ++ [kind]) = Ok None.
Proof.
  intros H. unfold shortcode_after. rewrite index_of_first by exact H.
  assert (Hlt : (length pre + 1 <? length (pre ++ [kind])) = false).
  { apply Nat.ltb_ge. rewrite length_app. cbn [length]. lia. }
  rewrite Hlt. reflexivity.
Qed.

(** X18.  When urlparse raises the URL comes back as it is.  When the path
    has a segment reel with a segment after it, the result is
    https://www.instagram.com/reel/ with that segment and a slash, whatever
    the host, the query and the other segments are; without any reel
    segment the same holds of a segment p.  When the first reel segment is
    the last segment, p is not looked for and the URL comes back without
    query and fragment. *)
Theorem normalize_instagram_url_cases :
  forall (X : Extern) (url : str),
    (ext_urlparse X url = None -> normalize_instagram_url X url = Ok url)
    /\ forall parsed,
         ext_urlparse X url = Some parsed ->
         (forall pre code post,
             path_segments parsed = pre ++ (txt "reel" :: code :: post) ->
             ~ In (txt "reel") pre ->
             normalize_instagram_url X url
             = Ok (txt "https://www.instagram.com/reel/" ++ code ++ txt "/"))
         /\ (forall pre code post,
               path_segments parsed = pre ++ (txt "p" :: code :: post) ->
               ~ In (txt "p") pre -> (~ In (txt "reel") (path_segments parsed)) ->
               normalize_instagram_url X url
               = Ok (txt "https://www.instagram.com/p/" ++ code ++ txt "/"))
         /\ (forall pre,
               path_segments parsed = pre ++ [txt "reel"] ->
               ~ In (txt "reel") pre ->
               normalize_instagram_url X url = Ok (without_query X parsed))
         /\ ((~ In (txt "reel") (path_segments parsed)) ->
             (~ In (txt "p") (path_segments parsed)) ->
             normalize_instagram_url X url = Ok (without_query X parsed)).
Proof.
  intros X url. split.
  { intros H. unfold normalize_instagram_url. rewrite H. reflexivity. }
  intros parsed Hp. unfold normalize_instagram_url. rewrite Hp.
  fold (path_segments parsed). fold (without_query X parsed).
  assert (Hcode : forall pre kind code post,
             path_segments parsed = pre ++ kind :: code :: post ->
             nonempty code = true).
  { intros pre kind code post E.
    assert (Hin : In code (path_segments parsed))
      by (rewrite E; apply in_or_app; right; right; left; reflexivity).
    unfold path_segments in Hin. apply filter_In in Hin. tauto. }
  split; [|split; [|split]].
  - intros pre code post E Hpre.
    assert (Hm : set_mem (txt "reel") (path_segments parsed) = true).
    { apply set_mem_In. rewrite E. apply in_or_app. right. left. reflexivity. }
    rewrite Hm, E, shortcode_after_found by exact Hpre. cbn [bind].
    rewrite (Hcode _ _ _ _ E). reflexivity.
  - intros pre code post E Hpre Hreel.
    apply set_mem_false in Hreel. rewrite Hreel.
    assert (Hm : set_mem (txt "p") (path_segments parsed) = true).
    { apply set_mem_In. rewrite E. apply in_or_app. right. left. reflexivity. }
    rewrite Hm, E, shortcode_after_found by exact Hpre. cbn [bind].
    rewrite (Hcode _ _ _ _ E). reflexivity.
  - intros pre E Hpre.
    assert (Hm : set_mem (txt "reel") (path_segments parsed) = true).
    { apply set_mem_In. rewrite E. apply in_or_app. right. left. reflexivity. }
    rewrite Hm, E, shortcode_after_last by exact Hpre. reflexivity.
  - intros Hreel Hpp. apply set_mem_false in Hreel. apply set_mem_false in Hpp.
    rewrite Hreel, Hpp. reflexivity.
Qed.

Lemma normalize_instagram_url_cases_witness :
  normalize_instagram_url REEL_WORLD (txt "https://instagram.com/reel/Cx1/?igsh=1")
  = Ok (txt "https://www.instagram.com/reel/" ++ txt "Cx1" ++ txt "/").
Proof.
  exact (proj1 (proj2 (normalize_instagram_url_cases REEL_WORLD
                         (txt "https://instagram.com/reel/Cx1/?igsh=1")) _ eq_refl)
           [] (txt "Cx1") [] eq_refl (fun H => H)).
Defined.
(** ** Pages without a tag *)

Section TaglessFacts.

Variable T : Tables.
Variable X : Extern.

Lemma extract_meta_value_nothing (html_text property : str) :
  mem (ch "<") html_text = false ->
  extract_meta_value T X html_text property = None.
Proof.
  intros H. unfold extract_meta_value, re_search.
  change (META_PATTERN property)
    with (Cat (Cat (Chr (CChar (ch "<"))) (lit (txt "meta")))
              (seq [plus CSpace; star (CSet true (txt ">"));
                    lit (txt "property="); Grp 1 (Chr QUOTES); lit property; Ref 1;
                    star (CSet true (txt ">")); lit (txt "content=");
                    Grp 2 (Chr QUOTES); Grp 3 (lazy_star CAny); Ref 2])).
  rewrite search_from_nothing by (apply no_lt_Forall; exact H). reflexivity.
Qed.

Lemma first_candidate_nothing (candidates : list (str * str)) (snippet base_url : str) :
  mem (ch "<") snippet = false ->
  first_candidate T X candidates snippet base_url = Ok None.
Proof.
  intros H. induction candidates as [|[attr value] candidates IH]; [reflexivity|].
  rewrite first_candidate_miss; [exact IH|].
  unfold re_search. apply meta_search_nothing. exact H.
Qed.

Lemma link_fallback_nothing (snippet base_url : str) :
  mem (ch "<") snippet = false -> link_fallback T X snippet base_url = Ok None.
Proof.
  intros H. unfold link_fallback, re_search.
  change LINK_RE
    with (Cat (Cat (Chr (CChar (ch "<"))) (lit (txt "link")))
              (seq [star (CSet true (txt ">")); lit (txt "rel");
                    star CSpace; lit (txt "="); star CSpace; Grp 1 (Chr QUOTES);
                    Alt (lit (txt "image_src")) (lit (txt "thumbnail")); Ref 1;
                    star (CSet true (txt ">")); lit (txt ">")])).
  rewrite search_from_nothing by (apply no_lt_Forall; exact H). reflexivity.
Qed.

End TaglessFacts.

(** X19.  A page that curl fetched, that is not empty and that holds no
    less-than sign gives the failure record of the pair with the reason
    no_description, for every title and URL: nothing is looked for beyond
    the meta tags. *)
Theorem process_item_tagless :
  forall (T : Tables) (X : Extern) (idx : nat) (title0 url page : str),
    fetch_html X idx url = Ok (Some page) ->
    nonempty page = true ->
    mem (ch "<") page = false ->
    process_item T X idx (title0, url)
    = Ok (inr {| f_title := title0; f_url := url; f_reason := no_description |}).
Proof.
  intros T X idx title0 url page Hf Hn Hm. unfold process_item.
  rewrite Hf. cbn [bind truthy]. rewrite Hn. cbn [negb].
  rewrite extract_meta_value_nothing by exact Hm. reflexivity.
Qed.

Lemma process_item_tagless_witness :
  process_item ascii_tables TEXT_WORLD 1 (txt "Soup", txt "https://x.example/")
  = Ok (inr {| f_title := txt "Soup"; f_url := txt "https://x.example/";
               f_reason := no_description |}).
Proof.
  exact (process_item_tagless ascii_tables TEXT_WORLD 1 (txt "Soup")
           (txt "https://x.example/") _ eq_refl eq_refl eq_refl).
Defined.

(** X20.  When the first 200,000 characters of a document hold no less-than
    sign the resolver returns None, whatever follows them: neither a meta
    candidate nor the link fallback is found, and urljoin is not called. *)
Theorem preview_needs_tag :
  forall (T : Tables) (X : Extern) (html_text base_url : str),
    mem (ch "<") (firstn SNIPPET_LENGTH html_text) = false ->
    _extract_preview_from_html T X html_text base_url = Ok None.
Proof.
  intros T X html_text base_url H. unfold _extract_preview_from_html.
  rewrite first_candidate_nothing by exact H. cbn [bind].
  apply link_fallback_nothing. exact H.
Qed.

Lemma preview_needs_tag_witness :
  _extract_preview_from_html ascii_tables TEXT_WORLD
    (txt "og:image https://cdn.example/a.jpg") (txt "https://x.example/") = Ok None.
Proof.
  apply preview_needs_tag. vm_compute. reflexivity.
Defined.

(** ** parse_pdf_pairs as a whole *)

Lemma In_text_lines (texts : list str) (l : str) :
  In l (text_lines texts) ->
  exists text raw,
    In text texts /\ In raw (split NL text) /\ l = strip raw /\ nonempty l = true.
Proof.
  intros H. unfold text_lines in H. apply in_flat_map in H.
  destruct H as [text [Ht H]]. apply filter_In in H. destruct H as [H Hn].
  apply in_map_iff in H. destruct H as [raw [<- Hraw]].
  exists text, raw. auto.
Qed.

(** X21.  parse_pdf_pairs returns a list of pairs for every content of the
    file, whatever zlib does with the streams.  In every pair the title is
    not empty, has no white space at its ends, holds no line feed, is
    neither a noise line nor a URL, and the URL begins with https://. *)
Theorem parse_pdf_pairs_clean :
  forall (T : Tables) (X : Extern) (raw : bytes),
  exists pairs,
    parse_pdf_pairs T X raw = Ok pairs
    /\ Forall (fun pr =>
                 clean_line [NL] (fst pr)
                 /\ is_noise T (fst pr) = false
                 /\ startswith (txt "https://") (fst pr) = false
                 /\ startswith (txt "https://") (snd pr) = true) pairs.
Proof.
  intros T X raw. unfold parse_pdf_pairs, tokenize.
  destruct (read_texts_total T (read_streams X raw)) as [texts [-> _]].
  cbn [bind].
  destruct (pair_lines_pairs_ok_aux T (text_lines texts)) as [pairs [-> Hp]].
  exists pairs. split; [reflexivity|].
  eapply Forall_impl; [|exact Hp].
  intros [t u] [[Hin [Hnoise Hurl]] [_ Hu]]. cbn [fst snd] in *.
  destruct (In_text_lines _ _ Hin) as [text [line [_ [Hraw [-> Hn]]]]].
  split; [|auto].
  split; [apply nonempty_true; exact Hn|].
  split; [apply strip_by_idempotent|].
  intros c [<-|[]]. apply mem_strip_by. eapply split_no_sep. exact Hraw.
Qed.

(** ** Tags and meal types together *)

Section TagsAndMealTypes.

Variable T : Tables.

Lemma In_lowered (x : str) (tags : list str) :
  In x tags -> In (lower T x) (lowered T tags).
Proof.
  unfold lowered.
  assert (G : forall acc, In (lower T x) acc \/ In x tags ->
                          In (lower T x) (fold_left (fun s tag => set_add (lower T tag) s) tags acc)).
  { induction tags as [|t tags IH]; intros acc H; cbn [fold_left].
    - destruct H as [H|[]]. exact H.
    - apply IH. destruct H as [H|[<-|H]].
      + left. apply In_set_add. auto.
      + left. apply In_set_add. auto.
      + right. exact H. }
  intros H. apply G. right. exact H.
Qed.

Lemma In_explicit_meal_types (text : str) (low : list str) (m : str) :
  In m (explicit_meal_types T text low)
  <-> (exists kws, In (m, kws) MEAL_KEYWORDS
                   /\ existsb (keyword_in_text T text) kws = true)
      \/ ((set_mem (txt "dessert") low || keyword_in_text T text (txt "dessert")) = true
          /\ m = txt "dessert")
      \/ ((set_mem (txt "brunch") low || keyword_in_text T text (txt "brunch")) = true
          /\ m = txt "brunch")
      \/ ((set_mem (txt "breakfast") low || keyword_in_text T text (txt "breakfast")) = true
          /\ m = txt "breakfast").
Proof.
  unfold explicit_meal_types.
  rewrite In_add_matching, In_add_if, In_add_if, In_add_if. cbn [In]. tauto.
Qed.

Lemma infer_meal_types_explicit (title : str) (ingredients tags : list str) (m : str) :
  In m (explicit_meal_types T (blob T title ingredients) (lowered T tags)) ->
  In m (infer_meal_types T title ingredients tags).
Proof.
  intros H. unfold infer_meal_types. apply In_sorted.
  destruct (explicit_meal_types T (blob T title ingredients) (lowered T tags)) as [|x l] eqn:E.
  - destruct H.
  - exact H.
Qed.

End TagsAndMealTypes.

(** X22.  A tag of main's entry that is a meal type is among the meal types
    of the entry: when infer_tags gives breakfast, brunch, dessert, lunch or
    dinner, infer_meal_types, given those tags, gives it too. *)
Theorem meal_types_follow_tags :
  forall (T : Tables) (title : str) (ingredients : list str) (m : str),
    In m MEAL_TYPE_NAMES ->
    In m (infer_tags T title ingredients) ->
    In m (infer_meal_types T title ingredients (infer_tags T title ingredients)).
Proof.
  intros T title ingredients m Hm Ht.
  apply infer_meal_types_explicit. apply In_explicit_meal_types.
  assert (Hl : In (lower T m) (lowered T (infer_tags T title ingredients)))
    by (apply In_lowered; exact Ht).
  unfold MEAL_TYPE_NAMES in Hm. cbn [map In] in Hm.
  destruct Hm as [<-|[<-|[<-|[<-|[<-|[]]]]]].
  - right. right. right. split; [|reflexivity].
    apply orb_true_iff. left. apply set_mem_In. exact Hl.
  - right. right. left. split; [|reflexivity].
    apply orb_true_iff. left. apply set_mem_In. exact Hl.
  - right. left. split; [|reflexivity].
    apply orb_true_iff. left. apply set_mem_In. exact Hl.
  - left. clear Hl. unfold infer_tags in Ht. rewrite In_sorted in Ht.
    rewrite In_add_if, In_add_if, In_add_if, In_add_if, In_add_matching,
      In_add_if, In_add_if, In_add_if, In_add_matching in Ht.
    cbn [In] in Ht.
    destruct Ht as [[_ H]|[[_ H]|[[_ H]|[[_ H]|[[kws [Hk _]]|[[_ H]|[[_ H]|[[_ H]|[H|[]]]]]]]]]];
      try discriminate H; [|exact H].
    exfalso. unfold COURSE_KEYWORDS in Hk. cbn [In] in Hk.
    repeat (destruct Hk as [Hk|Hk]; [discriminate Hk|]). exact Hk.
  - left. clear Hl. unfold infer_tags in Ht. rewrite In_sorted in Ht.
    rewrite In_add_if, In_add_if, In_add_if, In_add_if, In_add_matching,
      In_add_if, In_add_if, In_add_if, In_add_matching in Ht.
    cbn [In] in Ht.
    destruct Ht as [[_ H]|[[_ H]|[[_ H]|[[_ H]|[[kws [Hk _]]|[[_ H]|[[_ H]|[[_ H]|[H|[]]]]]]]]]];
      try discriminate H; [|exact H].
    exfalso. unfold COURSE_KEYWORDS in Hk. cbn [In] in Hk.
    repeat (destruct Hk as [Hk|Hk]; [discriminate Hk|]). exact Hk.
Qed.

Lemma meal_types_follow_tags_witness :
  In (txt "brunch")
     (infer_meal_types ascii_tables (txt "Brunch Eggs") []
        (infer_tags ascii_tables (txt "Brunch Eggs") [])).
Proof.
  apply meal_types_follow_tags; vm_compute; tauto.
Defined.

(** ** re.sub with the pattern of the slugs *)

Section SlugFacts.

Variable T : Tables.

Lemma unsafe_slug_char (c : char) : unsafe T c = negb (slug_char c).
Proof.
  assert (E : forall l, existsb (fun p => lit_match T false p c) l = existsb (N.eqb c) l).
  { induction l as [|p l IH]; [reflexivity|].
    cbn [existsb]. rewrite IH. unfold lit_match. cbn [andb]. reflexivity. }
  unfold unsafe, slug_char, mem. cbn [cls_match]. rewrite E.
  destruct (existsb (N.eqb c) SLUG_CHARS); reflexivity.
Qed.

Lemma run_split (s : str) :
  exists run rst, s = run ++ rst /\ Forall (fun c => unsafe T c = true) run /\ run_ends T rst.
Proof.
  induction s as [|x s [run [rst [E [Hr He]]]]].
  - exists [], []. repeat split; constructor.
  - destruct (unsafe T x) eqn:Ex.
    + exists (x :: run), rst. subst s. repeat split; [constructor; assumption|exact He].
    + exists [], (x :: s). repeat split; [constructor|exact Ex].
Qed.

Lemma rep_loop_run (run rst : str) :
  Forall (fun c => unsafe T c = true) run -> run_ends T rst ->
  forall n cu,
    rep_loop T false (CSet true SLUG_CHARS) 1 None true (fun e => Some e) n cu (run ++ rst)
    = if 1 <=? n + length run
      then Some {| seen := rev run ++ seen cu; rest := rst;
                   pos := pos cu + length run; groups := groups cu |}
      else None.
Proof.
  induction 1 as [|x run Hx Hrun IH]; intros He n cu.
  - cbn [app length rev]. rewrite !Nat.add_0_r.
    destruct rst as [|y t]; cbn [rep_loop below andb].
    + reflexivity.
    + change (unsafe T y = false) in He. fold (unsafe T y). rewrite He. reflexivity.
  - cbn [app rep_loop below andb]. fold (unsafe T x). rewrite Hx.
    rewrite (IH He). cbn [step_over seen pos groups length rev].
    replace (S n + length run) with (n + S (length run)) by lia.
    destruct (1 <=? n + S (length run)) eqn:E.
    + rewrite <- app_assoc. cbn [app].
      replace (S (pos cu) + length run) with (pos cu + S (length run)) by lia.
      reflexivity.
    + apply Nat.leb_gt in E. lia.
Qed.

Lemma match_at_run (x : char) (run rst sn : str) (p : nat) :
  Forall (fun c => unsafe T c = true) (x :: run) -> run_ends T rst ->
  match_at T false SAFE_SLUG_RE sn p ((x :: run) ++ rst)
  = Some {| m_start := p; m_text := x :: run; m_groups := [];
            m_seen := rev (x :: run) ++ sn; m_rest := rst |}.
Proof.
  intros Hr He. unfold match_at, SAFE_SLUG_RE, plus. cbn [rmatch rest].
  rewrite (rep_loop_run (x :: run) rst Hr He).
  cbn [Nat.add length Nat.leb seen pos groups].
  f_equal. f_equal.
  change (x :: run ++ rst) with ((x :: run) ++ rst).
  replace (S (length run)) with (length (x :: run) + 0) by (cbn [length]; lia).
  rewrite firstn_app_2. cbn [firstn]. apply app_nil_r.
Qed.

Lemma match_at_no_run (sn : str) (p : nat) (s : str) :
  run_ends T s -> match_at T false SAFE_SLUG_RE sn p s = None.
Proof.
  intros He. unfold match_at, SAFE_SLUG_RE, plus. cbn [rmatch rest].
  rewrite (rep_loop_run [] s (Forall_nil _) He). reflexivity.
Qed.

(** What the search finds: nothing in a text of slug characters, else the
    first run of other characters, as long as it is. *)
Lemma search_run (s : str) :
  forall sn p,
    (search_from T false SAFE_SLUG_RE sn p s = None
     /\ Forall (fun c => unsafe T c = false) s)
    \/ exists pre x run rst,
         s = pre ++ (x :: run) ++ rst
         /\ Forall (fun c => unsafe T c = false) pre
         /\ Forall (fun c => unsafe T c = true) (x :: run)
         /\ run_ends T rst
         /\ search_from T false SAFE_SLUG_RE sn p s
            = Some {| m_start := p + length pre; m_text := x :: run; m_groups := [];
                      m_seen := rev (x :: run) ++ rev pre ++ sn; m_rest := rst |}.
Proof.
  induction s as [|c s IH]; intros sn p.
  - left. split; [|constructor]. cbn [search_from].
    rewrite match_at_no_run by exact I. reflexivity.
  - destruct (unsafe T c) eqn:Ec.
    + right. destruct (run_split s) as [run [rst [E [Hr He]]]].
      exists [], c, run, rst. subst s.
      split; [reflexivity|]. split; [constructor|].
      split; [constructor; assumption|]. split; [exact He|].
      cbn [search_from app length rev].
      change (c :: run ++ rst) with ((c :: run) ++ rst).
      rewrite match_at_run by (try constructor; assumption).
      rewrite Nat.add_0_r. reflexivity.
    + cbn [search_from]. rewrite match_at_no_run by exact Ec.
      destruct (IH (c :: sn) (S p)) as [[E Hs]|[pre [x [run [rst [E [Hp [Hr [He Hm]]]]]]]]].
      * left. split; [exact E|constructor; assumption].
      * right. exists (c :: pre), x, run, rst. subst s.
        split; [reflexivity|]. split; [constructor; assumption|].
        split; [exact Hr|]. split; [exact He|].
        rewrite Hm. cbn [length rev]. rewrite <- !app_assoc. cbn [app].
        f_equal. f_equal. lia.
Qed.

Lemma collapse_safe (s : str) (b : bool) :
  Forall (fun c => unsafe T c = false) s -> collapse s b = s.
Proof.
  intros H. revert b. induction H as [|x s Hx Hs IH]; intros b; [reflexivity|].
  cbn [collapse]. rewrite unsafe_slug_char in Hx. apply negb_false_iff in Hx.
  rewrite Hx, IH. reflexivity.
Qed.

Lemma collapse_app_safe (pre s : str) (b : bool) :
  Forall (fun c => unsafe T c = false) pre -> pre <> [] ->
  collapse (pre ++ s) b = pre ++ collapse s false.
Proof.
  intros H. revert b. induction H as [|x pre Hx Hs IH]; intros b Hne; [congruence|].
  cbn [app collapse]. rewrite unsafe_slug_char in Hx. apply negb_false_iff in Hx.
  rewrite Hx. f_equal. destruct pre as [|y pre]; [reflexivity|].
  apply IH. discriminate.
Qed.

Lemma collapse_in_run (run rst : str) :
  Forall (fun c => unsafe T c = true) run -> run_ends T rst ->
  collapse (run ++ rst) true = collapse rst false.
Proof.
  induction 1 as [|x run Hx Hr IH]; intros He.
  - destruct rst as [|y t]; [reflexivity|]. change (unsafe T y = false) in He. cbn [app collapse].
    rewrite unsafe_slug_char in He. apply negb_false_iff in He. rewrite He.
    reflexivity.
  - cbn [app collapse]. rewrite unsafe_slug_char in Hx. apply negb_true_iff in Hx.
    rewrite Hx. cbn [app]. apply IH. exact He.
Qed.

Lemma collapse_run (pre : str) (x : char) (run rst : str) :
  Forall (fun c => unsafe T c = false) pre ->
  Forall (fun c => unsafe T c = true) (x :: run) -> run_ends T rst ->
  collapse (pre ++ (x :: run) ++ rst) false = pre ++ txt "-" ++ collapse rst false.
Proof.
  intros Hp Hr He.
  assert (G : collapse ((x :: run) ++ rst) false = txt "-" ++ collapse rst false).
  { inversion Hr as [|? ? Hx Hrun]; subst. cbn [app collapse].
    rewrite unsafe_slug_char in Hx. apply negb_true_iff in Hx. rewrite Hx.
    f_equal. apply collapse_in_run; assumption. }
  destruct pre as [|c pre]; [exact G|].
  rewrite collapse_app_safe by (try discriminate; exact Hp).
  rewrite G. reflexivity.
Qed.

Lemma sub_matches_collapse (fuel : nat) :
  forall s sn p,
    length s < fuel ->
    sub_matches (txt "-") (finditer_from T false fuel SAFE_SLUG_RE sn p s) p s
    = collapse s false.
Proof.
  induction fuel as [|fuel IH]; intros s sn p Hf; [lia|].
  cbn [finditer_from].
  destruct (search_run s sn p) as [[E Hs]|[pre [x [run [rst [E [Hp [Hr [He Hm]]]]]]]]].
  - rewrite E. cbn [sub_matches]. symmetry. apply collapse_safe. exact Hs.
  - rewrite Hm. cbn [m_text m_start m_seen m_rest nonempty sub_matches].
    replace (p + length pre - p) with (length pre) by lia.
    subst s. rewrite firstn_app, Nat.sub_diag, firstn_all. cbn [firstn].
    rewrite app_nil_r.
    rewrite skipn_app, skipn_all2 by lia.
    replace (length pre + length (x :: run) - length pre) with (length (x :: run) + 0) by lia.
    cbn [app]. change (x :: run ++ rst) with ((x :: run) ++ rst).
    rewrite skipn_app, skipn_all2 by lia.
    replace (length (x :: run) + 0 - length (x :: run)) with 0 by lia.
    cbn [skipn app].
    rewrite IH.
    2:{ rewrite !length_app in Hf. cbn [length] in *. lia. }
    symmetry. apply collapse_run; assumption.
Qed.

(** re.sub with the pattern of the slugs is [collapse]. *)
Lemma re_sub_collapse (s : str) :
  re_sub T false SAFE_SLUG_RE (txt "-") s = collapse s false.
Proof.
  unfold re_sub, re_finditer. apply sub_matches_collapse. lia.
Qed.

End SlugFacts.
(** ** The shape of a slug *)

Lemma single_hyphens_infix (a s b : str) :
  single_hyphens (a ++ s ++ b) -> single_hyphens s.
Proof.
  intros H. induction a as [|x a IH].
  - cbn [app] in H. revert H. induction s as [|y s IHs]; intros H; [exact I|].
    cbn [app single_hyphens] in *. destruct H as [H1 H2]. split.
    + destruct s as [|z s]; [exact I|exact H1].
    + apply IHs. exact H2.
  - apply IH. cbn [app single_hyphens] in H. tauto.
Qed.

Lemma single_hyphens_no_pair (s : str) :
  single_hyphens s -> forall a b, s <> a ++ HYPHEN :: HYPHEN :: b.
Proof.
  intros H a b E. subst s.
  rewrite <- (app_nil_r (HYPHEN :: HYPHEN :: b)) in H.
  apply single_hyphens_infix in H.
  cbn [single_hyphens] in H. tauto.
Qed.

Lemma Forall_infix {A} (P : A -> Prop) (a s b : list A) :
  Forall P (a ++ s ++ b) -> Forall P s.
Proof.
  intros H. apply Forall_app in H. destruct H as [_ H].
  apply Forall_app in H. tauto.
Qed.

Lemma strip_by_infix (p : char -> bool) (s : str) :
  exists a b, s = a ++ strip_by p s ++ b.
Proof.
  unfold strip_by, rstrip_by.
  destruct (lstrip_by_split p s) as [w Hw].
  destruct (lstrip_by_split p (rev (lstrip_by p s))) as [w2 Hw2].
  exists w, (rev w2).
  rewrite <- rev_app_distr, <- Hw2, rev_involutive. exact Hw.
Qed.

Lemma strip_by_first (p : char -> bool) (s : str) :
  match strip_by p s with x :: _ => p x = false | [] => True end.
Proof.
  unfold strip_by, rstrip_by.
  destruct (lstrip_by_split p (rev (lstrip_by p s))) as [w2 Hw2].
  set (q := lstrip_by p (rev (lstrip_by p s))) in *.
  assert (E : lstrip_by p s = rev q ++ rev w2)
    by (rewrite <- rev_app_distr, <- Hw2, rev_involutive; reflexivity).
  destruct (rev q) as [|x t] eqn:Eq; [exact I|].
  cbn [app] in E. eapply lstrip_by_head. exact E.
Qed.

Lemma In_lstrip_by (p : char -> bool) (c : char) (s : str) :
  In c s -> p c = false -> In c (lstrip_by p s).
Proof.
  intros Hin Hp. induction s as [|x s IH]; [destruct Hin|].
  cbn [lstrip_by]. destruct (p x) eqn:Ex; [|exact Hin].
  destruct Hin as [->|Hin]; [congruence|]. apply IH. exact Hin.
Qed.

Lemma In_strip_by (p : char -> bool) (c : char) (s : str) :
  In c s -> p c = false -> In c (strip_by p s).
Proof.
  intros Hin Hp. unfold strip_by, rstrip_by.
  apply in_rev. rewrite rev_involutive. apply In_lstrip_by; [|exact Hp].
  apply -> in_rev. apply In_lstrip_by; assumption.
Qed.

Lemma slug_char_not_hyphen (c : char) : slug_char c = true -> c <> HYPHEN.
Proof. intros H ->. vm_compute in H. discriminate. Qed.

Lemma collapse_shape (s : str) :
  forall b,
    Forall (fun c => slug_char c = true \/ c = HYPHEN) (collapse s b)
    /\ single_hyphens (collapse s b)
    /\ (b = true -> no_hyphen_first (collapse s b)).
Proof.
  induction s as [|x s IH]; intros b; cbn [collapse].
  - repeat split; constructor.
  - destruct (slug_char x) eqn:Ex.
    + destruct (IH false) as [H1 [H2 _]].
      split; [constructor; auto|]. split.
      * cbn [single_hyphens]. split; [|exact H2].
        destruct (collapse s false); [exact I|].
        intros [E _]. exact (slug_char_not_hyphen x Ex E).
      * intros _. exact (slug_char_not_hyphen x Ex).
    + destruct (IH true) as [H1 [H2 H3]]. destruct b; cbn [app].
      * auto.
      * split; [constructor; auto|]. split; [|discriminate].
        change (txt "-" ++ collapse s true) with (HYPHEN :: collapse s true).
        cbn [single_hyphens]. split; [|exact H2].
        specialize (H3 eq_refl). destruct (collapse s true); [exact I|].
        cbn in H3. tauto.
Qed.

Lemma In_collapse (c : char) (s : str) :
  In c s -> slug_char c = true -> forall b, In c (collapse s b).
Proof.
  intros Hin Hc. induction s as [|x s IH]; intros b; [destruct Hin|].
  cbn [collapse]. destruct Hin as [->|Hin].
  - rewrite Hc. left. reflexivity.
  - destruct (slug_char x); [right; apply IH; exact Hin|].
    apply in_or_app. right. apply IH. exact Hin.
Qed.

Lemma collapse_no_slug_char (s : str) :
  Forall (fun c => slug_char c = false) s ->
  collapse s true = [] /\ (collapse s false = [] \/ collapse s false = txt "-").
Proof.
  induction 1 as [|x s Hx Hs [IH1 IH2]]; cbn [collapse]; [auto|].
  rewrite Hx, IH1. cbn [app]. auto.
Qed.

Section SlugShape.

Variable T : Tables.
Variable W : Web.

(** The slug before the cut to 60 characters *)
Lemma slug_found (value : str) (c : char) :
  In c (lower T value) -> slug_char c = true ->
  exists slug,
    strip_chars (txt "-") (re_sub T false SAFE_SLUG_RE (txt "-") (lower T value)) = slug
    /\ slug <> []
    /\ Forall (fun c => slug_char c = true \/ c = HYPHEN) slug
    /\ single_hyphens slug /\ no_hyphen_first slug.
Proof.
  intros Hin Hc. eexists. split; [reflexivity|].
  rewrite re_sub_collapse. unfold strip_chars.
  set (r := collapse (lower T value) false).
  set (p := fun c0 : char => mem c0 (txt "-")).
  destruct (collapse_shape (lower T value) false) as [H1 [H2 _]]. fold r in H1, H2.
  destruct (strip_by_infix p r) as [a [b E]].
  split.
  { intros En.
    assert (Hi : In c (strip_by p r)).
    { apply In_strip_by; [apply In_collapse; assumption|].
      unfold p, mem. cbn [existsb txt map String.list_ascii_of_string].
      rewrite orb_false_r. apply N.eqb_neq. apply slug_char_not_hyphen. exact Hc. }
    rewrite En in Hi. destruct Hi. }
  split; [rewrite E in H1; exact (Forall_infix _ _ _ _ H1)|].
  split; [rewrite E in H2; exact (single_hyphens_infix _ _ _ H2)|].
  pose proof (strip_by_first p r) as Hf.
  destruct (strip_by p r) as [|x t]; [exact I|].
  cbn. intros ->. vm_compute in Hf. discriminate.
Qed.

Lemma slug_missing (value : str) :
  (forall c, In c (lower T value) -> slug_char c = false) ->
  strip_chars (txt "-") (re_sub T false SAFE_SLUG_RE (txt "-") (lower T value)) = [].
Proof.
  intros H. rewrite re_sub_collapse.
  destruct (collapse_no_slug_char (lower T value)) as [_ [E|E]].
  - apply Forall_forall. exact H.
  - rewrite E. reflexivity.
  - rewrite E. reflexivity.
Qed.

End SlugShape.

(** X23.  When the lower-cased title holds a letter a-z or a digit, slugify
    gives a name that is not empty, is at most 60 characters long, holds
    nothing but a-z, 0-9 and hyphens, does not begin with a hyphen and has
    no two hyphens in a row; no digest is taken. *)
Theorem slugify_shape :
  forall (T : Tables) (W : Web) (value : str) (c : char),
    In c (lower T value) -> slug_char c = true ->
    exists slug,
      slugify T W value = Ok slug
      /\ slug <> [] /\ length slug <= 60
      /\ Forall (fun c => slug_char c = true \/ c = HYPHEN) slug
      /\ (forall t, slug <> HYPHEN :: t)
      /\ (forall a b, slug <> a ++ HYPHEN :: HYPHEN :: b).
Proof.
  intros T W value c Hin Hc.
  destruct (slug_found T value c Hin Hc) as [slug [E [Hne [Hf [Hs Hh]]]]].
  exists (firstn 60 slug). unfold slugify. rewrite E.
  destruct slug as [|x slug]; [congruence|]. cbn [nonempty].
  split; [reflexivity|]. split; [discriminate|].
  split; [apply firstn_le_length|].
  assert (Ei : x :: slug = [] ++ firstn 60 (x :: slug) ++ skipn 60 (x :: slug))
    by (cbn [app]; symmetry; apply firstn_skipn).
  split; [rewrite Ei in Hf; exact (Forall_infix _ _ _ _ Hf)|].
  split.
  - intros t Et. cbn in Et. injection Et as -> _. apply Hh. reflexivity.
  - apply single_hyphens_no_pair. rewrite Ei in Hs.
    exact (single_hyphens_infix _ _ _ Hs).
Qed.

Lemma slugify_shape_witness :
  exists slug,
    slugify ascii_tables SLUG_WORLD (txt "Mom's  Soup!") = Ok slug
    /\ slug <> [] /\ length slug <= 60
    /\ Forall (fun c => slug_char c = true \/ c = HYPHEN) slug
    /\ (forall t, slug <> HYPHEN :: t)
    /\ (forall a b, slug <> a ++ HYPHEN :: HYPHEN :: b).
Proof.
  apply (slugify_shape ascii_tables SLUG_WORLD (txt "Mom's  Soup!") (ch "m")).
  - vm_compute. tauto.
  - reflexivity.
Defined.

(** X24.  When the lower-cased title holds no letter a-z and no digit,
    slugify gives recipe- and the first ten characters of the SHA-1 digest of
    the title, and raises when the title cannot be encoded. *)
Theorem slugify_fallback :
  forall (T : Tables) (W : Web) (value : str),
    (forall c, In c (lower T value) -> slug_char c = false) ->
    slugify T W value
    = match web_sha1_hex W value with
      | Some digest => Ok (txt "recipe-" ++ firstn 10 digest)
      | None => Raise ValueError
      end.
Proof.
  intros T W value H. unfold slugify. rewrite (slug_missing T value H).
  reflexivity.
Qed.

Lemma slugify_fallback_witness :
  slugify ascii_tables SLUG_WORLD (txt "?!") = Ok (txt "recipe-da39a3ee5e").
Proof.
  rewrite (slugify_fallback ascii_tables SLUG_WORLD (txt "?!")).
  - reflexivity.
  - intros c Hc. vm_compute in Hc. destruct Hc as [<-|[<-|[]]]; reflexivity.
Defined.

(** X25.  The slugify of cache_recipe_images.py, which cuts to 60 characters
    after the fallback, gives what the slugify of
    cache_source_preview_images.py gives, on every title. *)
Theorem slugify_agree :
  forall (T : Tables) (W : Web) (title : str),
    RecipeImages.slugify T W title = slugify T W title.
Proof.
  intros T W title. unfold RecipeImages.slugify, slugify.
  destruct (strip_chars (txt "-") _) as [|x slug]; cbn [nonempty negb bind].
  - destruct (web_sha1_hex W title) as [digest|]; [|reflexivity].
    cbn [bind]. f_equal. apply firstn_all2.
    rewrite length_app. pose proof (firstn_le_length 10 digest).
    change (length (txt "recipe-")) with 7. lia.
  - reflexivity.
Qed.
(** ** File extensions *)

Lemma index_split_first (sep : char) (s : str) :
  exists first, index (split sep s) 0 = Ok first.
Proof.
  pose proof (split_not_nil sep s) as H.
  destruct (split sep s) as [|first l]; [congruence|]. exists first. reflexivity.
Qed.

(** X26.  The guess_extension of cache_recipe_images.py gives one of .jpg,
    .jpeg, .png, .gif and .webp for every URL that urlparse accepts, whatever
    the suffix of the path, the content type and the answer of mimetypes
    are; it raises only where urlparse raises. *)
Theorem guess_extension_valid :
  forall (T : Tables) (X : Extern) (W : Web) (url : str) (content_type : option str),
    match ext_urlparse X url with
    | None => RecipeImages.guess_extension T X W url content_type = Raise ValueError
    | Some _ =>
        exists ext,
          RecipeImages.guess_extension T X W url content_type = Ok ext
          /\ In ext VALID_EXTENSIONS
    end.
Proof.
  intros T X W url content_type. unfold RecipeImages.guess_extension.
  destruct (ext_urlparse X url) as [parsed|]; [|reflexivity].
  assert (Hjpg : In (txt ".jpg") VALID_EXTENSIONS) by (left; reflexivity).
  destruct (set_mem _ VALID_EXTENSIONS) eqn:Eu.
  { eexists. split; [reflexivity|]. apply set_mem_In. exact Eu. }
  destruct content_type as [[|c content_type]|]; try (eexists; split; [reflexivity|exact Hjpg]).
  destruct (index_split_first (ch ";") (c :: content_type)) as [first ->].
  cbn [bind].
  destruct (web_mime W (strip first)) as [ext|]; [|eexists; split; [reflexivity|exact Hjpg]].
  destruct (set_mem ext VALID_EXTENSIONS) eqn:Ee.
  - eexists. split; [reflexivity|]. apply set_mem_In. exact Ee.
  - eexists. split; [reflexivity|exact Hjpg].
Qed.

(** X27.  The guess_extension of cache_source_preview_images.py, for a URL
    that urlparse accepts: without a content type it gives one of .jpg, .png,
    .gif, .webp and .avif; with any content type it gives an extension that
    is not empty and is not .jpe; and a suffix of the path that is one of the
    six image suffixes decides alone, the test for .php changing nothing. *)
Theorem guess_extension_image :
  forall (T : Tables) (X : Extern) (W : Web) (url : str) (parsed : ParseResult),
    ext_urlparse X url = Some parsed ->
    (exists ext,
        guess_extension T X W url None = Ok ext
        /\ In ext (map txt [".jpg"; ".png"; ".gif"; ".webp"; ".avif"]%string))
    /\ (forall content_type,
          exists ext,
            guess_extension T X W url content_type = Ok ext
            /\ ext <> [] /\ ext <> txt ".jpe")
    /\ (forall content_type,
          In (lower T (web_suffix W (path parsed))) IMAGE_SUFFIXES ->
          guess_extension T X W url content_type
          = Ok (if str_eqb (lower T (web_suffix W (path parsed))) (txt ".jpeg")
                then txt ".jpg" else lower T (web_suffix W (path parsed)))).
Proof.
  intros T X W url parsed Hp. unfold guess_extension. rewrite Hp.
  set (suffix := lower T (web_suffix W (path parsed))).
  assert (Hset : set_mem suffix IMAGE_SUFFIXES = true ->
                 nonempty suffix && negb (endswith (txt ".php") suffix) = true
                 /\ In (if str_eqb suffix (txt ".jpeg") then txt ".jpg" else suffix)
                      (map txt [".jpg"; ".png"; ".gif"; ".webp"; ".avif"]%string)).
  { intros H. apply set_mem_In in H. unfold IMAGE_SUFFIXES in H. cbn [map In] in H.
    destruct H as [<-|[<-|[<-|[<-|[<-|[<-|[]]]]]]]; vm_compute; tauto. }
  split; [|split].
  - destruct (nonempty suffix && negb (endswith (txt ".php") suffix));
      [|eexists; split; [reflexivity|left; reflexivity]].
    destruct (set_mem suffix IMAGE_SUFFIXES) eqn:Es;
      [|eexists; split; [reflexivity|left; reflexivity]].
    eexists. split; [reflexivity|]. apply Hset. reflexivity.
  - intros content_type.
    assert (Hjpg : exists ext, Ok (txt ".jpg") = Ok ext /\ ext <> [] /\ ext <> txt ".jpe")
      by (eexists; split; [reflexivity|split; discriminate]).
    assert (Hct : exists ext,
               match content_type with
               | Some ((_ :: _) as content_type) =>
                   first <- index (split (ch ";") content_type) 0 ;;
                   match web_mime W (strip first) with
                   | Some ((_ :: _) as guess) =>
                       if str_eqb guess (txt ".jpe") then Ok (txt ".jpg") else Ok guess
                   | _ => Ok (txt ".jpg")
                   end
               | _ => Ok (txt ".jpg")
               end = Ok ext /\ ext <> [] /\ ext <> txt ".jpe").
    { destruct content_type as [[|c content_type]|]; try exact Hjpg.
      destruct (index_split_first (ch ";") (c :: content_type)) as [first ->].
      cbn [bind].
      destruct (web_mime W (strip first)) as [[|g guess]|]; try exact Hjpg.
      destruct (str_eqb (g :: guess) (txt ".jpe")) eqn:Eg; [exact Hjpg|].
      eexists. split; [reflexivity|]. split; [discriminate|].
      intros E. apply str_eqb_eq in E. congruence. }
    destruct (nonempty suffix && negb (endswith (txt ".php") suffix)); [|exact Hct].
    destruct (set_mem suffix IMAGE_SUFFIXES) eqn:Es; [|exact Hct].
    eexists. split; [reflexivity|].
    destruct (Hset eq_refl) as [_ Hin]. cbn [map In] in Hin.
    destruct Hin as [<-|[<-|[<-|[<-|[<-|[]]]]]]; split; discriminate.
  - intros content_type Hin. apply set_mem_In in Hin.
    destruct (Hset Hin) as [-> _]. rewrite Hin. reflexivity.
Qed.

Lemma guess_extension_image_witness :
  exists ext,
    guess_extension ascii_tables REEL_WORLD SLUG_WORLD (txt "https://x.example/a") None
    = Ok ext
    /\ In ext (map txt [".jpg"; ".png"; ".gif"; ".webp"; ".avif"]%string).
Proof.
  exact (proj1 (guess_extension_image ascii_tables REEL_WORLD SLUG_WORLD
                  (txt "https://x.example/a") _ eq_refl)).
Defined.

(** ** resolve_preview_url *)

Section ResolverFacts.

Variable T : Tables.
Variable X : Extern.
Variable W : Web.









End ResolverFacts.



(** ** The names of the cached files *)






Section NamingFacts.

Variable T : Tables.
Variable W : Web.




End NamingFacts.



(** ** The matcher inside a closed tag *)

Section TagSim.

Variable T : Tables.
Variables t tl : str.






Lemma tag_rel_none (o o' : option cursor) :
  tag_rel t o o' -> (o = None <-> o' = None).
Proof.
  destruct o, o'; cbn; intros H; split; intros E; try discriminate; try reflexivity;
    destruct H.
Qed.






End TagSim.

Section TagSearch.

Variable T : Tables.







End TagSearch.

(** ** The resolver on documents of tags and text *)

Section ResolverOnTags.

Variable T : Tables.
Variable X : Extern.









End ResolverOnTags.


(** The ValueError of urljoin goes through the resolver. *)
Example resolver_with_open_bracket :
  _extract_preview_from_html ascii_tables BRACKET_WORLD
    (txt "<meta property='og:image' content='http://[bad'>") BASE_URL
  = Raise ValueError.
Proof.
  vm_compute. reflexivity.
Qed.


